(** * Opra: text normalisation, chunking and chunked playback

    A shallow embedding of the shared C++ core of Opra
    ([PDFTextExtractor.cpp], [TextToSpeech.cpp]) together with the
    properties of its specification.

    - [std::string] is [string] (a sequence of bytes), [int] is [Z],
      [std::vector] is [list].
    - The code calls [std::regex] / [std::regex_replace]; module [Regex]
      embeds the fragment of the ECMAScript grammar that the patterns of the
      source use, following libstdc++ 12.  Constructing a [std::regex] may
      throw [std::regex_error]; the embedding returns [Throw] there, and an
      exception raised in a callee propagates to the caller ([Exc], [bindE]).
    - Native back ends (PDFKit, AVSpeechSynthesizer, SAPI) are Section
      variables. *)

From Stdlib Require Import String Ascii List ZArith NArith Arith Bool Lia.
From Stdlib Require Import DecimalString.
Import ListNotations.
Open Scope string_scope.

(** ** Exceptions *)

(** The codes of [std::regex_constants::error_type] that the grammar fragment
    can raise.  [outside_fragment] is not a C++ error: it marks a pattern
    that uses a construct this embedding does not cover (groups, lazy or
    stacked quantifiers, named classes, [$] in a replacement text). *)
Inductive regex_error : Set :=
| error_escape | error_backref | error_brack | error_paren
| error_brace | error_badbrace | error_range | error_badrepeat
| outside_fragment.

Inductive Exc (A : Type) : Type :=
| Return (a : A)
| Throw (e : regex_error).
Arguments Return {A} a.
Arguments Throw {A} e.

Definition bindE {A B : Type} (c : Exc A) (k : A -> Exc B) : Exc B :=
  match c with
  | Return a => k a
  | Throw e => Throw e
  end.

Declare Scope exc_scope.
Delimit Scope exc_scope with exc.
Notation "x <- c ;; k" := (bindE c (fun x => k))
  (at level 61, c at next level, right associativity) : exc_scope.

(** ** Characters *)

Definition code (c : ascii) : N := N_of_ascii c.

Definition in_range (lo hi : N) (c : ascii) : bool :=
  ((lo <=? code c) && (code c <=? hi))%N.

(** [std::isspace] in the "C" locale: space, \t, \n, \v, \f, \r. *)
Definition isspace (c : ascii) : bool :=
  (code c =? 32)%N || in_range 9 13 c.

Definition isdigit (c : ascii) : bool := in_range 48 57 c.

Definition isalnum (c : ascii) : bool :=
  isdigit c || in_range 65 90 c || in_range 97 122 c.

(** The characters of the regex class [\w]. *)
Definition isword (c : ascii) : bool := isalnum c || (code c =? 95)%N.

Definition hex_value (c : ascii) : option N :=
  if isdigit c then Some (code c - 48)%N
  else if in_range 65 70 c then Some (code c - 55)%N
  else if in_range 97 102 c then Some (code c - 87)%N
  else None.

Definition empty (s : string) : bool :=
  match s with
  | EmptyString => true
  | String _ _ => false
  end.

(** ** std::string *)

(** [find_first_not_of] and [find_last_not_of]; [None] is [npos]. *)
Fixpoint find_first_not_of (c : ascii) (s : string) : option nat :=
  match s with
  | EmptyString => None
  | String x s' =>
      if Ascii.eqb x c then option_map S (find_first_not_of c s') else Some 0
  end.

Fixpoint find_last_not_of (c : ascii) (s : string) : option nat :=
  match s with
  | EmptyString => None
  | String x s' =>
      match find_last_not_of c s' with
      | Some i => Some (S i)
      | None => if Ascii.eqb x c then None else Some 0
      end
  end.

(** [Impl::trim], defined with the same body in both classes.  With
    [last = npos] the length [last - first + 1] wraps around to a count
    that reaches the end of the string. *)
Definition trim (str : string) : string :=
  match find_first_not_of " "%char str with
  | None => ""
  | Some first =>
      match find_last_not_of " "%char str with
      | Some last => substring first (last - first + 1) str
      | None => substring first (String.length str - first) str
      end
  end.

(** ** std::regex, ECMAScript grammar (fragment) *)

Module Regex.

Inductive ClassItem : Set :=
| CChar (c : ascii)
| CRange (lo hi : ascii)
| CDigit (neg : bool)          (* \d  \D *)
| CSpace (neg : bool)          (* \s  \S *)
| CWord (neg : bool).          (* \w  \W *)

Inductive Atom : Set :=
| AChar (c : ascii)
| AAny                                          (* . *)
| ASet (neg : bool) (items : list ClassItem).   (* [...]  [^...]  \d ... *)

Inductive Term : Set :=
| TAtom (a : Atom) (lo : nat) (hi : option nat) (* greedy a{lo,hi} *)
| TBol                                          (* ^ *)
| TEol                                          (* $ *)
| TWordBoundary (neg : bool).                   (* \b  \B *)

(** A disjunction of alternatives, each a sequence of terms. *)
Definition regex : Set := list (list Term).

(** *** Scanner: escapes *)

Inductive Escape : Set :=
| EChar (c : ascii)
| EClass (it : ClassItem)
| EWordBoundary (neg : bool)
| EBackref.

(** [n] hexadecimal digits; the value is narrowed to [char]. *)
Fixpoint eat_hex (n : nat) (acc : N) (s : string) : Exc (ascii * string) :=
  match n with
  | O => Return (ascii_of_N (acc mod 256), s)
  | S n' =>
      match s with
      | EmptyString => Throw error_escape
      | String c s' =>
          match hex_value c with
          | Some v => eat_hex n' (16 * acc + v)%N s'
          | None => Throw error_escape
          end
      end
  end.

(** The scanner after a backslash.  [strict] selects how an escaped letter,
    digit or underscore without a meaning of its own is read: libstdc++
    takes the character itself ([strict = false]); under the IdentityEscape
    rule of ECMA-262, as libc++ applies it, it is [error_escape]
    ([strict = true]).  Everything else follows libstdc++. *)
Definition eat_escape (strict in_bracket : bool) (s : string)
  : Exc (Escape * string) :=
  match s with
  | EmptyString => Throw error_escape
  | String c s' =>
      match c with
      | "0"%char => Return (EChar "000"%char, s')
      | "f"%char => Return (EChar "012"%char, s')
      | "n"%char => Return (EChar "010"%char, s')
      | "r"%char => Return (EChar "013"%char, s')
      | "t"%char => Return (EChar "009"%char, s')
      | "v"%char => Return (EChar "011"%char, s')
      | "b"%char =>
          if in_bracket then Return (EChar "008"%char, s')
          else Return (EWordBoundary false, s')
      | "B"%char => Return (EWordBoundary true, s')
      | "d"%char => Return (EClass (CDigit false), s')
      | "D"%char => Return (EClass (CDigit true), s')
      | "s"%char => Return (EClass (CSpace false), s')
      | "S"%char => Return (EClass (CSpace true), s')
      | "w"%char => Return (EClass (CWord false), s')
      | "W"%char => Return (EClass (CWord true), s')
      | "c"%char =>
          match s' with
          | EmptyString => Throw error_escape
          | String x s'' => Return (EChar x, s'')
          end
      | "x"%char =>
          bindE (eat_hex 2 0 s') (fun '(ch, r) => Return (EChar ch, r))
      | "u"%char =>
          bindE (eat_hex 4 0 s') (fun '(ch, r) => Return (EChar ch, r))
      | _ =>
          if isdigit c then Return (EBackref, s')
          else if strict && isword c then Throw error_escape
          else Return (EChar c, s')
      end
  end.

(** *** Bracket expressions *)

(** What the compiler remembers about the previous element of a bracket
    expression: nothing, a character that may start a range, or a class. *)
Inductive BracketState : Set :=
| BNone
| BChar (c : ascii)
| BClass.

Definition flush (st : BracketState) (acc : list ClassItem) : list ClassItem :=
  match st with
  | BChar c => (acc ++ [CChar c])%list
  | _ => acc
  end.

(** A range is kept inside 7-bit characters, where the order on [char] does
    not depend on its signedness. *)
Definition make_range (lo hi : ascii) (acc : list ClassItem)
  : Exc (list ClassItem) :=
  if ((128 <=? code lo) || (128 <=? code hi))%N then Throw outside_fragment
  else if (code hi <? code lo)%N then Throw error_range
  else Return (acc ++ [CRange lo hi])%list.

(** One element of the bracket: a character as the scanner delivers it. *)
Inductive BracketToken : Set :=
| BtChar (c : ascii)
| BtClass (it : ClassItem)
| BtDash
| BtEnd.

Definition scan_in_bracket (strict : bool) (s : string)
  : Exc (BracketToken * string) :=
  match s with
  | EmptyString => Throw error_brack
  | String c s' =>
      match c with
      | "-"%char => Return (BtDash, s')
      | "]"%char => Return (BtEnd, s')
      | "["%char =>
          match s' with
          | EmptyString => Throw error_brack
          | String x _ =>
              match x with
              | "."%char | ":"%char | "="%char => Throw outside_fragment
              | _ => Return (BtChar c, s')
              end
          end
      | "\"%char =>
          bindE (eat_escape strict true s') (fun '(e, r) =>
            match e with
            | EChar ch => Return (BtChar ch, r)
            | EClass it => Return (BtClass it, r)
            | EWordBoundary _ | EBackref => Throw error_brack
            end)
      | _ => Return (BtChar c, s')
      end
  end.

Fixpoint expression_terms (fuel : nat) (strict : bool) (st : BracketState)
    (acc : list ClassItem) (s : string) : Exc (list ClassItem * string) :=
  match fuel with
  | O => Throw outside_fragment
  | S fuel' =>
      bindE (scan_in_bracket strict s) (fun '(tok, r) =>
        match tok with
        | BtEnd => Return (flush st acc, r)
        | BtChar c => expression_terms fuel' strict (BChar c) (flush st acc) r
        | BtClass it =>
            expression_terms fuel' strict BClass (flush st acc ++ [it])%list r
        | BtDash =>
            bindE (scan_in_bracket strict r) (fun '(tok2, r2) =>
              match tok2 with
              | BtEnd => Return ((flush st acc ++ [CChar "-"%char])%list, r2)
              | _ =>
                  match st with
                  | BClass => Throw error_range
                  | BChar lo =>
                      match tok2 with
                      | BtChar hi =>
                          bindE (make_range lo hi acc) (fun acc' =>
                            expression_terms fuel' strict BNone acc' r2)
                      | BtDash =>
                          bindE (make_range lo "-"%char acc) (fun acc' =>
                            expression_terms fuel' strict BNone acc' r2)
                      | _ => Throw error_range
                      end
                  | BNone =>
                      (* a dash that follows no character is literal; the
                         token after it is read again *)
                      expression_terms fuel' strict (BChar "-"%char) acc r
                  end
              end)
        end)
  end.

(** The text after the opening bracket. *)
Definition bracket_expression (strict : bool) (s : string)
  : Exc (Atom * string) :=
  let '(neg, body) :=
    match s with
    | String "^"%char s' => (true, s')
    | _ => (false, s)
    end in
  bindE (expression_terms (S (String.length body)) strict BNone [] body)
        (fun '(items, r) => Return (ASet neg items, r)).

(** *** Quantifiers *)

Fixpoint dup_count (acc : option nat) (s : string) : option nat * string :=
  match s with
  | String c s' =>
      if isdigit c then
        dup_count
          (Some (10 * match acc with Some n => n | None => 0 end
                 + N.to_nat (code c - 48)))
          s'
      else (acc, s)
  | EmptyString => (acc, s)
  end.

(** The text after an opening brace: [n}], [n,}] or [n,m}]. *)
Definition interval (s : string) : Exc (nat * option nat * string) :=
  match dup_count None s with
  | (None, _) => Throw error_badbrace
  | (Some lo, r) =>
      match r with
      | EmptyString => Throw error_brace
      | String "}"%char r' => Return (lo, Some lo, r')
      | String ","%char r' =>
          match dup_count None r' with
          | (None, r2) =>
              match r2 with
              | String "}"%char r3 => Return (lo, None, r3)
              | EmptyString | String ","%char _ => Throw error_brace
              | _ => Throw error_badbrace
              end
          | (Some hi, r2) =>
              match r2 with
              | String "}"%char r3 =>
                  if (hi <? lo)%nat then Throw error_badbrace
                  else Return (lo, Some hi, r3)
              | EmptyString | String ","%char _ => Throw error_brace
              | _ => Throw error_badbrace
              end
          end
      | _ => Throw error_badbrace
      end
  end.

Definition is_quantifier_start (s : string) : bool :=
  match s with
  | String c _ =>
      match c with
      | "*"%char | "+"%char | "?"%char | "{"%char => true
      | _ => false
      end
  | EmptyString => false
  end.

(** The quantifier, if any, after an atom. *)
Definition quantifier (a : Atom) (s : string) : Exc (Term * string) :=
  bindE
    (match s with
     | String "*"%char r => Return (0, None, r)
     | String "+"%char r => Return (1, None, r)
     | String "?"%char r => Return (0, Some 1, r)
     | String "{"%char r => interval r
     | _ => Return (1, Some 1, s)
     end)
    (fun '(lo, hi, r) =>
       if is_quantifier_start s && is_quantifier_start r
       then Throw outside_fragment
       else Return (TAtom a lo hi, r)).

(** *** Compiler *)

Definition close (cur : list Term) (done : list (list Term)) : regex :=
  (done ++ [cur])%list.

Fixpoint disjunction (fuel : nat) (strict : bool) (cur : list Term)
    (done : list (list Term)) (s : string) : Exc regex :=
  match fuel with
  | O => Throw outside_fragment
  | S fuel' =>
      let atom (a : Atom) (r : string) :=
        bindE (quantifier a r) (fun '(t, r') =>
          disjunction fuel' strict (cur ++ [t])%list done r') in
      match s with
      | EmptyString => Return (close cur done)
      | String c s' =>
          match c with
          | "|"%char => disjunction fuel' strict [] (close cur done) s'
          | "^"%char => disjunction fuel' strict (cur ++ [TBol])%list done s'
          | "$"%char => disjunction fuel' strict (cur ++ [TEol])%list done s'
          | "."%char => atom AAny s'
          | "["%char =>
              bindE (bracket_expression strict s') (fun '(a, r) => atom a r)
          | "\"%char =>
              bindE (eat_escape strict false s') (fun '(e, r) =>
                match e with
                | EChar ch => atom (AChar ch) r
                | EClass it => atom (ASet false [it]) r
                | EWordBoundary neg =>
                    disjunction fuel' strict
                      (cur ++ [TWordBoundary neg])%list done r
                | EBackref => Throw error_backref
                end)
          | "("%char => Throw outside_fragment
          | ")"%char | "*"%char | "+"%char | "?"%char | "{"%char =>
              Throw error_paren
          | _ => atom (AChar c) s'
          end
      end
  end.

(** [std::regex(pattern)]. *)
Definition compile (strict : bool) (pattern : string) : Exc regex :=
  disjunction (S (String.length pattern)) strict [] [] pattern.

(** *** Matcher *)

Definition item_matches (it : ClassItem) (c : ascii) : bool :=
  match it with
  | CChar x => Ascii.eqb x c
  | CRange lo hi => in_range (code lo) (code hi) c
  | CDigit neg => xorb neg (isdigit c)
  | CSpace neg => xorb neg (isspace c)
  | CWord neg => xorb neg (isword c)
  end.

Definition atom_matches (a : Atom) (c : ascii) : bool :=
  match a with
  | AChar x => Ascii.eqb x c
  | AAny => negb (Ascii.eqb c "010"%char || Ascii.eqb c "013"%char)
  | ASet neg items => xorb neg (existsb (fun it => item_matches it c) items)
  end.

Definition word_at (c : option ascii) : bool :=
  match c with
  | Some x => isword x
  | None => false
  end.

Definition head (s : string) : option ascii :=
  match s with
  | String c _ => Some c
  | EmptyString => None
  end.

Definition may_take (hi : option nat) : bool :=
  match hi with
  | Some O => false
  | _ => true
  end.

(** Greedy repetition of [a]: as many as possible first, one fewer on
    failure of the continuation [k]. *)
Fixpoint match_repeat (a : Atom)
    (k : option ascii -> string -> option string)
    (lo : nat) (hi : option nat) (prev : option ascii) (s : string)
  : option string :=
  let stop := if (lo =? 0)%nat then k prev s else None in
  match s with
  | EmptyString => stop
  | String c s' =>
      if may_take hi && atom_matches a c then
        match match_repeat a k (pred lo) (option_map pred hi) (Some c) s' with
        | Some r => Some r
        | None => stop
        end
      else stop
  end.

(** The terms [ts] matched at the current position: [prev] is the character
    before it, the result is the text after the match.  [accept] is asked at
    the end of the match. *)
Fixpoint match_terms (accept : string -> bool) (ts : list Term)
    (prev : option ascii) (s : string) : option string :=
  match ts with
  | [] => if accept s then Some s else None
  | t :: ts' =>
      match t with
      | TAtom a lo hi => match_repeat a (match_terms accept ts') lo hi prev s
      | TBol =>
          match prev with
          | None => match_terms accept ts' prev s
          | Some _ => None
          end
      | TEol => if empty s then match_terms accept ts' prev s else None
      | TWordBoundary neg =>
          if xorb neg (xorb (word_at prev) (word_at (head s)))
          then match_terms accept ts' prev s
          else None
      end
  end.

(** The first alternative that matches at the current position;
    [not_null] refuses an empty match. *)
Fixpoint match_here (r : regex) (not_null : bool) (prev : option ascii)
    (s : string) : option string :=
  match r with
  | [] => None
  | alt :: r' =>
      let accept rest :=
        if not_null then (String.length rest <? String.length s)%nat
        else true in
      match match_terms accept alt prev s with
      | Some rest => Some rest
      | None => match_here r' not_null prev s
      end
  end.

(** *** regex_replace *)

(** Every match of [r] in the text, from left to right, is replaced by
    [fmt]; [skip] counts the characters of the current match that remain to
    be dropped.  After an empty match a non-empty one is tried at the same
    position before the search moves on. *)
Fixpoint replace_matches (r : regex) (fmt : string) (prev : option ascii)
    (skip : nat) (s : string) : string :=
  match skip with
  | S n =>
      match s with
      | EmptyString => EmptyString
      | String c s' => replace_matches r fmt (Some c) n s'
      end
  | O =>
      let copy :=
        match s with
        | EmptyString => EmptyString
        | String c s' => String c (replace_matches r fmt (Some c) 0 s')
        end in
      let drop (rest : string) :=
        match s with
        | EmptyString => EmptyString
        | String c s' =>
            replace_matches r fmt (Some c)
              (String.length s' - String.length rest) s'
        end in
      match match_here r false prev s with
      | None => copy
      | Some rest =>
          if (String.length rest <? String.length s)%nat then fmt ++ drop rest
          else
            fmt ++ match match_here r true prev s with
                   | Some rest' => fmt ++ drop rest'
                   | None => copy
                   end
      end
  end.

Fixpoint has_dollar (s : string) : bool :=
  match s with
  | EmptyString => false
  | String c s' => Ascii.eqb c "$"%char || has_dollar s'
  end.

(** [std::regex_replace(s, std::regex(pattern), fmt)]. *)
Definition regex_replace (strict : bool) (s pattern fmt : string)
  : Exc string :=
  bindE (compile strict pattern) (fun r =>
    if has_dollar fmt then Throw outside_fragment
    else Return (replace_matches r fmt None 0 s)).

End Regex.

(** ** PDFTextExtractor.cpp *)

Module PDFTextExtractor.

Import Regex.

Record PageRange : Set := { startPage : Z; endPage : Z; totalPages : Z }.

Record TextChunk : Set := { text : string; wordCount : Z }.

(** [ExtractionResult result;] default-initialises the struct: the strings
    and the vector are empty, the scalar members hold no value until the
    code assigns them.  [success] is assigned at once in both entry points;
    for [pageRange] and [isChunked], [None] stands for "never assigned". *)
Record ExtractionResult : Set := {
  success : bool;
  errorMessage : string;
  fullText : string;
  chunks : list TextChunk;
  pageRange : option PageRange;
  isChunked : option bool
}.

Definition new_result : ExtractionResult :=
  {| success := false; errorMessage := ""; fullText := ""; chunks := [];
     pageRange := None; isChunked := None |}.

Definition set_errorMessage (r : ExtractionResult) (m : string) :=
  {| success := success r; errorMessage := m; fullText := fullText r;
     chunks := chunks r; pageRange := pageRange r; isChunked := isChunked r |}.

Definition set_pageRange (r : ExtractionResult) (p : PageRange) :=
  {| success := success r; errorMessage := errorMessage r;
     fullText := fullText r; chunks := chunks r; pageRange := Some p;
     isChunked := isChunked r |}.

Definition set_fullText (r : ExtractionResult) (t : string) :=
  {| success := success r; errorMessage := errorMessage r; fullText := t;
     chunks := chunks r; pageRange := pageRange r; isChunked := isChunked r |}.

Definition set_chunking (r : ExtractionResult) (b : bool)
    (cs : list TextChunk) :=
  {| success := success r; errorMessage := errorMessage r;
     fullText := fullText r; chunks := cs; pageRange := pageRange r;
     isChunked := Some b |}.

Definition set_success (r : ExtractionResult) (b : bool) :=
  {| success := b; errorMessage := errorMessage r; fullText := fullText r;
     chunks := chunks r; pageRange := pageRange r; isChunked := isChunked r |}.

(** Conversion of a [size_t] to [int]. *)
Definition to_int (z : Z) : Z := ((z + 2 ^ 31) mod 2 ^ 32 - 2 ^ 31)%Z.

(** *** splitIntoWords, joinWords *)

(** [while (iss >> word)]: the extraction skips white space and reads up to
    the next white space; [word] is the word being read. *)
Fixpoint read_words (word : string) (s : string) : list string :=
  match s with
  | EmptyString => if empty word then [] else [word]
  | String c s' =>
      if isspace c then
        if empty word then read_words "" s' else word :: read_words "" s'
      else read_words (word ++ String c "") s'
  end.

Definition splitIntoWords (txt : string) : list string := read_words "" txt.

(** The loop of [joinWords]; [first] is [i == 0]. *)
Fixpoint join_loop (first : bool) (oss : string) (words : list string)
  : string :=
  match words with
  | [] => oss
  | w :: ws => join_loop false (oss ++ (if first then "" else " ") ++ w) ws
  end.

Definition joinWords (words : list string) : string := join_loop true "" words.

(** *** chunkText *)

(** The locals of the loop; [out] is the vector [chunks] being built. *)
Record ChunkLoop : Set := {
  out : list TextChunk;
  currentChunk : list string;
  currentWordCount : Z
}.

(** One iteration of [for (const auto& word : words)].  The counter never
    exceeds [max 1 chunkSize], so the [int] increment cannot overflow. *)
Definition chunk_step (chunkSize : Z) (st : ChunkLoop) (word : string)
  : ChunkLoop :=
  let cur := (currentChunk st ++ [word])%list in
  let n := (currentWordCount st + 1)%Z in
  if (n >=? chunkSize)%Z then
    {| out := (out st ++ [{| text := joinWords cur; wordCount := n |}])%list;
       currentChunk := []; currentWordCount := 0 |}
  else {| out := out st; currentChunk := cur; currentWordCount := n |}.

Definition chunkText (txt : string) (chunkSize : Z) : list TextChunk :=
  let st := fold_left (chunk_step chunkSize) (splitIntoWords txt)
                      {| out := []; currentChunk := [];
                         currentWordCount := 0 |} in
  match currentChunk st with
  | [] => out st
  | _ :: _ =>
      (out st ++ [{| text := joinWords (currentChunk st);
                     wordCount := currentWordCount st |}])%list
  end.

(** *** cleanTextForTTS *)

(** [std::map<std::string, std::string>]: the entries are kept in the order
    of their keys ([std::less<std::string>], bytes compared unsigned), and an
    insertion under a key that is present changes nothing. *)
Fixpoint map_insert (k v : string) (m : list (string * string))
  : list (string * string) :=
  match m with
  | [] => [(k, v)]
  | (k', v') :: m' =>
      match String.compare k k' with
      | Lt => (k, v) :: m
      | Eq => m
      | Gt => (k', v') :: map_insert k v m'
      end
  end.

(** Construction from an initializer list. *)
Definition std_map (init : list (string * string)) : list (string * string) :=
  fold_left (fun m kv => map_insert (fst kv) (snd kv) m) init [].

(** The initializer list of [latexReplacements], as written. *)
Definition latexReplacements_init : list (string * string) :=
  [ ("\frac{", " fraction ");
    ("\sqrt{", " square root of ");
    ("\sum", " sum ");
    ("\int", " integral ");
    ("\lim", " limit ");
    ("\infty", " infinity ");
    ("\alpha", " alpha ");
    ("\beta", " beta ");
    ("\gamma", " gamma ");
    ("\delta", " delta ");
    ("\epsilon", " epsilon ");
    ("\theta", " theta ");
    ("\lambda", " lambda ");
    ("\mu", " mu ");
    ("\pi", " pi ");
    ("\sigma", " sigma ");
    ("\tau", " tau ");
    ("\phi", " phi ");
    ("\omega", " omega ");
    ("\times", " times ");
    ("\div", " divided by ");
    ("\pm", " plus or minus ");
    ("\leq", " less than or equal to ");
    ("\geq", " greater than or equal to ");
    ("\neq", " not equal to ");
    ("\approx", " approximately equal to ");
    ("\equiv", " equivalent to ");
    ("\propto", " proportional to ");
    ("\in", " in ");
    ("\notin", " not in ");
    ("\subset", " subset of ");
    ("\supset", " superset of ");
    ("\cup", " union ");
    ("\cap", " intersection ");
    ("\emptyset", " empty set ");
    ("\forall", " for all ");
    ("\exists", " there exists ");
    ("\rightarrow", " implies ");
    ("\leftarrow", " implied by ");
    ("\leftrightarrow", " if and only if ");
    ("^{", " to the power of ");
    ("_{", " sub ");
    ("}", " ") ].

Definition latexReplacements : list (string * string) :=
  std_map latexReplacements_init.

Section Clean.

(** How the standard library reads an escaped letter, see
    [Regex.eat_escape]. *)
Variable strict : bool.

(** [for (const auto& replacement : latexReplacements)]: each key is
    compiled as a regular expression. *)
Fixpoint apply_replacements (reps : list (string * string))
    (cleaned : string) : Exc string :=
  match reps with
  | [] => Return cleaned
  | replacement :: reps' =>
      bindE (regex_replace strict cleaned (fst replacement)
                           (snd replacement))
            (apply_replacements reps')
  end.

Definition cleanTextForTTS (txt : string) : Exc string :=
  (cleaned <- regex_replace strict txt
                "[\x00-\x08\x0B\x0C\x0E-\x1F\x7F]" "" ;;
   cleaned <- regex_replace strict cleaned
                "[\u200B-\u200D\u2060\uFEFF]" "" ;;
   cleaned <- regex_replace strict cleaned
                "[\u00A0\u2000-\u200F\u2028-\u202F\u205F-\u206F\u3000]"
                " " ;;
   cleaned <- regex_replace strict cleaned
                "\\\(|\\\)|\\\[|\\\]|\$\$|\$" " " ;;
   cleaned <- apply_replacements latexReplacements cleaned ;;
   cleaned <- regex_replace strict cleaned "\s{2,}" " " ;;
   Return (trim cleaned))%exc.

End Clean.

(** *** extractText, extractTextFromPages *)

Section Extraction.

Variable strict : bool.

(** [std::ifstream file(filePath); file.good()]. *)
Variable fileGood : string -> bool.

(** The platform's [getPageCount] and [extractTextFromPDF]. *)
Variable getPageCount : string -> Z.
Variable extractTextFromPDF : string -> Z -> Z -> string.

(** Lines 85-101: the chunking decision on the cleaned text. *)
Definition decideChunking (result : ExtractionResult) : ExtractionResult :=
  let words := splitIntoWords (fullText result) in
  let wordCount := to_int (Z.of_nat (length words)) in
  let chunkSize := 10000%Z in
  let result :=
    if (wordCount >? chunkSize)%Z then
      set_chunking result true (chunkText (fullText result) chunkSize)
    else
      set_chunking result false
        (chunks result ++
           [{| text := fullText result; wordCount := wordCount |}])%list in
  set_success result true.

Definition extractTextFromPages (filePath : string)
    (startPage endPage : Z) : Exc ExtractionResult :=
  let result := new_result in
  let result := set_success result false in
  let pageCount := getPageCount filePath in
  if (pageCount <=? 0)%Z then
    Return (set_errorMessage result "Could not determine page count")
  else
    let startPage := Z.max 1 startPage in
    let endPage := Z.min pageCount endPage in
    if (startPage >? endPage)%Z then
      Return (set_errorMessage result "Invalid page range")
    else
      let result :=
        set_pageRange result
          {| startPage := startPage; endPage := endPage;
             totalPages := pageCount |} in
      let extractedText := extractTextFromPDF filePath startPage endPage in
      if empty extractedText then
        Return (set_errorMessage result
                  "No text could be extracted from the specified pages")
      else
        (cleaned <- cleanTextForTTS strict extractedText ;;
         Return (decideChunking (set_fullText result cleaned)))%exc.

Definition extractText (filePath : string) : Exc ExtractionResult :=
  let result := new_result in
  let result := set_success result false in
  if negb (fileGood filePath) then
    Return (set_errorMessage result
              "File does not exist or cannot be opened")
  else
    let pageCount := getPageCount filePath in
    if (pageCount <=? 0)%Z then
      Return (set_errorMessage result
                "Could not determine page count or PDF is invalid")
    else
      (* the range written into the local [result] is not returned *)
      let result :=
        set_pageRange result
          {| startPage := 1; endPage := pageCount;
             totalPages := pageCount |} in
      extractTextFromPages filePath 1 pageCount.

End Extraction.

End PDFTextExtractor.

(** ** TextToSpeech.cpp *)

Module TextToSpeech.

Import Regex.

(** A [float] is kept as its IEEE-754 binary32 bit pattern; the controller
    only stores such values and hands them on. *)
Definition float : Set := Z.
Definition float_0_0 : float := 0%Z.
Definition float_0_5 : float := 0x3F000000%Z.
Definition float_1_0 : float := 0x3F800000%Z.

Record Voice : Set := {
  id : string; name : string; language : string; isDefault : bool
}.

Record SpeechSettings : Set := {
  rate : float; pitch : float; volume : float; voiceId : string
}.

Definition default_settings : SpeechSettings :=
  {| rate := float_0_5; pitch := float_1_0; volume := float_1_0;
     voiceId := "" |}.

Definition set_voiceId (s : SpeechSettings) (v : string) : SpeechSettings :=
  {| rate := rate s; pitch := pitch s; volume := volume s; voiceId := v |}.

Inductive SpeechState : Set := Stopped | Speaking | Paused.

Definition SpeechState_eqb (a b : SpeechState) : bool :=
  match a, b with
  | Stopped, Stopped | Speaking, Speaking | Paused, Paused => true
  | _, _ => false
  end.

(** What the controller does to the outside: the callbacks it invokes and
    the calls it makes into the native speech engine. *)
Inductive Event : Set :=
| CallbackStarted
| CallbackFinished
| CallbackPaused
| CallbackResumed
| CallbackProgress (progress : float) (currentWord totalWords : Z)
| NativeSpeak (txt : string)
| NativePause
| NativeResume
| NativeStop.

(** Conversion of an [int] to [size_t], and [size_t] subtraction. *)
Definition size_t (z : Z) : Z := (z mod 2 ^ 64)%Z.

Section Controller.

Variable strict : bool.

(** The native engine: its state, whether it accepts an utterance
    ([speakMacOS] always does, [speakWindows] when SAPI is initialised and
    [Speak] succeeds, no engine never does) and whether it knows a voice. *)
Context {Native : Type}.
Variable nativeSpeak : Native -> SpeechSettings -> string -> Native * bool.
Variable nativeSetVoice : Native -> string -> Native * bool.
Variable nativePause nativeResume nativeStop : Native -> Native.
Variable nativeSetSettings : Native -> SpeechSettings -> Native.

(** The members of [TextToSpeech::Impl].  A [std::function] callback is
    represented by whether it is set; its invocations are recorded in
    [trace], as are the calls into the engine.  The callbacks are the
    caller's code and are taken not to call back into the object. *)
Record Impl : Type := {
  state : SpeechState;
  settings : SpeechSettings;
  chunks : list string;
  currentChunk : Z;
  isChunked : bool;
  progress : float;
  currentWordIndex : Z;
  totalWords : Z;
  speechStartedCallback : bool;
  speechFinishedCallback : bool;
  speechPausedCallback : bool;
  speechResumedCallback : bool;
  progressCallback : bool;
  native : Native;
  trace : list Event
}.

(** The member initialisers of the class. *)
Definition new_Impl (n : Native) : Impl :=
  {| state := Stopped; settings := default_settings; chunks := [];
     currentChunk := 0; isChunked := false; progress := float_0_0;
     currentWordIndex := 0; totalWords := 0;
     speechStartedCallback := false; speechFinishedCallback := false;
     speechPausedCallback := false; speechResumedCallback := false;
     progressCallback := false; native := n; trace := [] |}.

Definition set_state (v : SpeechState) (s : Impl) : Impl :=
  {| state := v; settings := settings s; chunks := chunks s;
     currentChunk := currentChunk s; isChunked := isChunked s;
     progress := progress s; currentWordIndex := currentWordIndex s;
     totalWords := totalWords s;
     speechStartedCallback := speechStartedCallback s;
     speechFinishedCallback := speechFinishedCallback s;
     speechPausedCallback := speechPausedCallback s;
     speechResumedCallback := speechResumedCallback s;
     progressCallback := progressCallback s;
     native := native s; trace := trace s |}.

Definition set_settings (v : SpeechSettings) (s : Impl) : Impl :=
  {| state := state s; settings := v; chunks := chunks s;
     currentChunk := currentChunk s; isChunked := isChunked s;
     progress := progress s; currentWordIndex := currentWordIndex s;
     totalWords := totalWords s;
     speechStartedCallback := speechStartedCallback s;
     speechFinishedCallback := speechFinishedCallback s;
     speechPausedCallback := speechPausedCallback s;
     speechResumedCallback := speechResumedCallback s;
     progressCallback := progressCallback s;
     native := native s; trace := trace s |}.

Definition set_chunks (v : list string) (s : Impl) : Impl :=
  {| state := state s; settings := settings s; chunks := v;
     currentChunk := currentChunk s; isChunked := isChunked s;
     progress := progress s; currentWordIndex := currentWordIndex s;
     totalWords := totalWords s;
     speechStartedCallback := speechStartedCallback s;
     speechFinishedCallback := speechFinishedCallback s;
     speechPausedCallback := speechPausedCallback s;
     speechResumedCallback := speechResumedCallback s;
     progressCallback := progressCallback s;
     native := native s; trace := trace s |}.

Definition set_currentChunk (v : Z) (s : Impl) : Impl :=
  {| state := state s; settings := settings s; chunks := chunks s;
     currentChunk := v; isChunked := isChunked s;
     progress := progress s; currentWordIndex := currentWordIndex s;
     totalWords := totalWords s;
     speechStartedCallback := speechStartedCallback s;
     speechFinishedCallback := speechFinishedCallback s;
     speechPausedCallback := speechPausedCallback s;
     speechResumedCallback := speechResumedCallback s;
     progressCallback := progressCallback s;
     native := native s; trace := trace s |}.

Definition set_isChunked (v : bool) (s : Impl) : Impl :=
  {| state := state s; settings := settings s; chunks := chunks s;
     currentChunk := currentChunk s; isChunked := v;
     progress := progress s; currentWordIndex := currentWordIndex s;
     totalWords := totalWords s;
     speechStartedCallback := speechStartedCallback s;
     speechFinishedCallback := speechFinishedCallback s;
     speechPausedCallback := speechPausedCallback s;
     speechResumedCallback := speechResumedCallback s;
     progressCallback := progressCallback s;
     native := native s; trace := trace s |}.

Definition set_progress (p : float) (w t : Z) (s : Impl) : Impl :=
  {| state := state s; settings := settings s; chunks := chunks s;
     currentChunk := currentChunk s; isChunked := isChunked s;
     progress := p; currentWordIndex := w; totalWords := t;
     speechStartedCallback := speechStartedCallback s;
     speechFinishedCallback := speechFinishedCallback s;
     speechPausedCallback := speechPausedCallback s;
     speechResumedCallback := speechResumedCallback s;
     progressCallback := progressCallback s;
     native := native s; trace := trace s |}.

(** The five callback setters; [v] tells whether the function object that
    is stored is non-empty. *)
Definition set_callbacks (started finished paused resumed prog : bool)
    (s : Impl) : Impl :=
  {| state := state s; settings := settings s; chunks := chunks s;
     currentChunk := currentChunk s; isChunked := isChunked s;
     progress := progress s; currentWordIndex := currentWordIndex s;
     totalWords := totalWords s;
     speechStartedCallback := started;
     speechFinishedCallback := finished;
     speechPausedCallback := paused;
     speechResumedCallback := resumed;
     progressCallback := prog;
     native := native s; trace := trace s |}.

Definition set_native (v : Native) (s : Impl) : Impl :=
  {| state := state s; settings := settings s; chunks := chunks s;
     currentChunk := currentChunk s; isChunked := isChunked s;
     progress := progress s; currentWordIndex := currentWordIndex s;
     totalWords := totalWords s;
     speechStartedCallback := speechStartedCallback s;
     speechFinishedCallback := speechFinishedCallback s;
     speechPausedCallback := speechPausedCallback s;
     speechResumedCallback := speechResumedCallback s;
     progressCallback := progressCallback s;
     native := v; trace := trace s |}.

Definition record (e : Event) (s : Impl) : Impl :=
  {| state := state s; settings := settings s; chunks := chunks s;
     currentChunk := currentChunk s; isChunked := isChunked s;
     progress := progress s; currentWordIndex := currentWordIndex s;
     totalWords := totalWords s;
     speechStartedCallback := speechStartedCallback s;
     speechFinishedCallback := speechFinishedCallback s;
     speechPausedCallback := speechPausedCallback s;
     speechResumedCallback := speechResumedCallback s;
     progressCallback := progressCallback s;
     native := native s; trace := (trace s ++ [e])%list |}.

(** *** Member functions: state passing, with exceptions

    A member function reads and writes the object and either returns or
    leaves by an exception; what it wrote before stays written. *)
Definition M (A : Type) : Type := Impl -> Exc A * Impl.

Definition ret {A : Type} (a : A) : M A := fun s => (Return a, s).

Definition bind {A C : Type} (c : M A) (k : A -> M C) : M C :=
  fun s =>
    match c s with
    | (Return a, s') => k a s'
    | (Throw e, s') => (Throw e, s')
    end.

Definition get : M Impl := fun s => (Return s, s).

Definition modify (f : Impl -> Impl) : M unit := fun s => (Return tt, f s).

Definition lift {A : Type} (c : Exc A) : M A := fun s => (c, s).

Definition when (b : bool) (c : M unit) : M unit := if b then c else ret tt.

Declare Scope tts_scope.
Delimit Scope tts_scope with tts.
Notation "x <- c ;; k" := (bind c (fun x => k))
  (at level 61, c at next level, right associativity) : tts_scope.
Notation "c ;; k" := (bind c (fun _ => k))
  (at level 61, right associativity) : tts_scope.
Local Open Scope tts_scope.

Definition cleanTextForTTS (txt : string) : Exc string :=
  (cleaned <- regex_replace strict txt
                "[\x00-\x08\x0B\x0C\x0E-\x1F\x7F]" "" ;;
   cleaned <- regex_replace strict cleaned "\s{2,}" " " ;;
   Return (trim cleaned))%exc.

Definition onSpeechStarted : M unit :=
  modify (set_state Speaking) ;;
  s <- get ;;
  when (speechStartedCallback s) (modify (record CallbackStarted)).

(** [speakMacOS] / [speakWindows]: on acceptance the engine code calls
    [onSpeechStarted()] itself before it returns. *)
Definition speakPlatform (txt : string) : M bool :=
  s <- get ;;
  let '(n, accepted) := nativeSpeak (native s) (settings s) txt in
  modify (set_native n) ;;
  if accepted then
    modify (record (NativeSpeak txt)) ;;
    onSpeechStarted ;;
    ret true
  else ret false.

Definition speak (txt : string) : M bool :=
  if empty txt then ret false
  else
    cleanedText <- lift (cleanTextForTTS txt) ;;
    if empty cleanedText then ret false
    else speakPlatform cleanedText.

Definition speakCurrentChunk : M bool :=
  s <- get ;;
  if isChunked s
     && (size_t (currentChunk s) <? Z.of_nat (length (chunks s)))%Z
  then speak (nth (Z.to_nat (size_t (currentChunk s))) (chunks s) "")
  else ret false.

Definition speakChunked (chunks0 : list string) (startChunk : Z) : M bool :=
  if (length chunks0 =? 0)%nat
     || (size_t startChunk >=? Z.of_nat (length chunks0))%Z
  then ret false
  else
    modify (set_chunks chunks0) ;;
    modify (set_currentChunk startChunk) ;;
    modify (set_isChunked true) ;;
    speakCurrentChunk.

Definition pause : M unit :=
  s <- get ;;
  when (SpeechState_eqb (state s) Speaking)
    (modify (set_native (nativePause (native s))) ;;
     modify (record NativePause) ;;
     modify (set_state Paused) ;;
     when (speechPausedCallback s) (modify (record CallbackPaused))).

Definition resume : M unit :=
  s <- get ;;
  when (SpeechState_eqb (state s) Paused)
    (modify (set_native (nativeResume (native s))) ;;
     modify (record NativeResume) ;;
     modify (set_state Speaking) ;;
     when (speechResumedCallback s) (modify (record CallbackResumed))).

Definition stop : M unit :=
  s <- get ;;
  when (negb (SpeechState_eqb (state s) Stopped))
    (modify (set_native (nativeStop (native s))) ;;
     modify (record NativeStop) ;;
     modify (set_state Stopped) ;;
     modify (set_isChunked false) ;;
     modify (set_chunks []) ;;
     modify (set_currentChunk 0)).

Definition getState : M SpeechState := s <- get ;; ret (state s).

Definition setSettings (v : SpeechSettings) : M unit :=
  modify (set_settings v) ;;
  s <- get ;;
  modify (set_native (nativeSetSettings (native s) v)).

Definition getSettings : M SpeechSettings := s <- get ;; ret (settings s).

Definition setVoice (voiceId0 : string) : M bool :=
  s <- get ;;
  modify (set_settings (set_voiceId (settings s) voiceId0)) ;;
  let '(n, known) := nativeSetVoice (native s) voiceId0 in
  modify (set_native n) ;;
  ret known.

Definition onSpeechFinished : M unit :=
  s <- get ;;
  if isChunked s
     && (size_t (currentChunk s)
         <? size_t (Z.of_nat (length (chunks s)) - 1))%Z
  then
    modify (set_currentChunk (currentChunk s + 1)) ;;
    _ <- speakCurrentChunk ;;
    ret tt
  else
    modify (set_state Stopped) ;;
    modify (set_isChunked false) ;;
    modify (set_chunks []) ;;
    modify (set_currentChunk 0) ;;
    when (speechFinishedCallback s) (modify (record CallbackFinished)).

Definition onProgress (p : float) (currentWord total : Z) : M unit :=
  modify (set_progress p currentWord total) ;;
  s <- get ;;
  when (progressCallback s)
    (modify (record (CallbackProgress p currentWord total))).

(** *** The controller as a transition system *)

Inductive Op : Type :=
| OpSpeak (txt : string)
| OpSpeakChunked (chunks0 : list string) (startChunk : Z)
| OpPause
| OpResume
| OpStop
| OpSetSettings (v : SpeechSettings)
| OpSetVoice (voiceId0 : string)
| OpSetCallbacks (started finished paused resumed prog : bool)
| EvSpeechStarted
| EvSpeechFinished
| EvProgress (p : float) (currentWord total : Z).

Definition forget {A : Type} (c : M A) : M unit := _ <- c ;; ret tt.

Definition run (op : Op) : M unit :=
  match op with
  | OpSpeak txt => forget (speak txt)
  | OpSpeakChunked cs i => forget (speakChunked cs i)
  | OpPause => pause
  | OpResume => resume
  | OpStop => stop
  | OpSetSettings v => setSettings v
  | OpSetVoice v => forget (setVoice v)
  | OpSetCallbacks a b c d e => modify (set_callbacks a b c d e)
  | EvSpeechStarted => onSpeechStarted
  | EvSpeechFinished => onSpeechFinished
  | EvProgress p w t => onProgress p w t
  end.

(** The object after an operation. *)
Definition after {A : Type} (c : M A) (s : Impl) : Impl := snd (c s).

Definition result {A : Type} (c : M A) (s : Impl) : Exc A := fst (c s).

Fixpoint run_all (ops : list Op) (s : Impl) : Impl :=
  match ops with
  | [] => s
  | op :: ops' => run_all ops' (after (run op) s)
  end.

End Controller.

End TextToSpeech.

(** ** Definitions used by the statements *)

(** A word: non-empty and free of white space. *)
Fixpoint no_space (s : string) : bool :=
  match s with
  | EmptyString => true
  | String c s' => negb (isspace c) && no_space s'
  end.

Definition is_word (w : string) : Prop := empty w = false /\ no_space w = true.

(** The words of [ws], each preceded by one space. *)
Fixpoint spaced (ws : list string) : string :=
  match ws with
  | [] => ""
  | w :: ws' => " " ++ w ++ spaced ws'
  end.

(** The chunk that [chunkText] builds from the words [g]. *)
Definition chunk_of (g : list string) : PDFTextExtractor.TextChunk :=
  {| PDFTextExtractor.text := PDFTextExtractor.joinWords g;
     PDFTextExtractor.wordCount := Z.of_nat (length g) |}.

(** The loop of [chunkText] on word lists alone: [cur] is the open group,
    a group is closed when it holds [n] words. *)
Fixpoint groups (n : nat) (cur : list string) (ws : list string)
  : list (list string) :=
  match ws with
  | [] => match cur with [] => [] | _ :: _ => [cur] end
  | w :: ws' =>
      let cur' := (cur ++ [w])%list in
      if (n <=? length cur')%nat then cur' :: groups n [] ws'
      else groups n cur' ws'
  end.

(** The end of [chunkText]: the open group, if any, becomes the last
    chunk. *)
Definition finish (st : PDFTextExtractor.ChunkLoop)
  : list PDFTextExtractor.TextChunk :=
  match PDFTextExtractor.currentChunk st with
  | [] => PDFTextExtractor.out st
  | _ :: _ =>
      (PDFTextExtractor.out st ++
         [{| PDFTextExtractor.text :=
               PDFTextExtractor.joinWords (PDFTextExtractor.currentChunk st);
             PDFTextExtractor.wordCount :=
               PDFTextExtractor.currentWordCount st |}])%list
  end.

(** The result of a failed extraction: nothing but the message, and the
    page range [pr] if one was assigned. *)
Definition failure (msg : string) (pr : option PDFTextExtractor.PageRange)
  : PDFTextExtractor.ExtractionResult :=
  {| PDFTextExtractor.success := false;
     PDFTextExtractor.errorMessage := msg;
     PDFTextExtractor.fullText := "";
     PDFTextExtractor.chunks := [];
     PDFTextExtractor.pageRange := pr;
     PDFTextExtractor.isChunked := None |}.

(** The result before the chunking decision: only the page range and the
    cleaned text are set. *)
Definition cleaned_result (pr : PDFTextExtractor.PageRange) (cleaned : string)
  : PDFTextExtractor.ExtractionResult :=
  PDFTextExtractor.set_fullText
    (PDFTextExtractor.set_pageRange
       (PDFTextExtractor.set_success PDFTextExtractor.new_result false) pr)
    cleaned.

(** The first key of [reps] that [std::regex] refuses, with its error. *)
Fixpoint first_throw (strict : bool) (reps : list (string * string))
  : option (string * regex_error) :=
  match reps with
  | [] => None
  | kv :: reps' =>
      match Regex.compile strict (fst kv) with
      | Throw e => Some (fst kv, e)
      | Return _ =>
          if Regex.has_dollar (snd kv) then Some (fst kv, outside_fragment)
          else first_throw strict reps'
      end
  end.

(** The substitution step in the words of the specification: every
    occurrence of the text [key] is replaced by [value], from left to right;
    [skip] counts the characters of the current occurrence still to drop. *)
Fixpoint replace_literal (key value : string) (skip : nat) (s : string)
  : string :=
  match skip with
  | S n =>
      match s with
      | EmptyString => EmptyString
      | String _ s' => replace_literal key value n s'
      end
  | O =>
      match s with
      | EmptyString => EmptyString
      | String c s' =>
          if negb (empty key) && prefix key s
          then value ++ replace_literal key value (String.length key - 1) s'
          else String c (replace_literal key value 0 s')
      end
  end.

(** The substitutions applied literally, in the order of the table. *)
Definition substitute_in_table_order (table : list (string * string))
    (s : string) : string :=
  fold_left (fun acc kv => replace_literal (fst kv) (snd kv) 0 acc) table s.

(** Steps 5 to 7 of the specified normalisation on a text that steps 1 to 4
    leave alone: the literal substitutions in table order, runs of white
    space collapsed to one space, outer spaces trimmed. *)
Definition substitute_collapse_trim (s : string) : Exc string :=
  bindE (Regex.regex_replace false
           (substitute_in_table_order
              PDFTextExtractor.latexReplacements_init s)
           "\s{2,}" " ")
        (fun collapsed => Return (trim collapsed)).

(** [n] words [w] separated by single spaces. *)
Fixpoint words_text (n : nat) : string :=
  match n with
  | O => ""
  | S O => "w"
  | S n' => "w " ++ words_text n'
  end.

(** *** A test engine and test documents *)

(** A speech engine without state that accepts every utterance and knows no
    voice. *)
Definition accepting_speak (n : unit) (_ : TextToSpeech.SpeechSettings)
    (_ : string) : unit * bool := (n, true).
Definition unknown_voice (n : unit) (_ : string) : unit * bool := (n, false).
Definition idle (n : unit) : unit := n.
Definition idle_settings (n : unit) (_ : TextToSpeech.SpeechSettings) : unit :=
  n.

(** A ten-page document from which the back end extracts no text. *)
Definition ten_pages (_ : string) : Z := 10%Z.
Definition no_text (_ : string) (_ _ : Z) : string := "".
Definition readable (_ : string) : bool := true.

(** A back end whose pages give a text of [n] words. *)
Definition words_pages (n : nat) (_ : string) (_ _ : Z) : string :=
  words_text n.

Module Playback.

Section ControllerStatements.

Variable strict : bool.
Context {Native : Type}.
Variable nativeSpeak :
  Native -> TextToSpeech.SpeechSettings -> string -> Native * bool.

(** [speak chunk] succeeds in every state: the chunk is not empty, its
    cleaned text [t] is not empty and the engine takes [t]. *)
Definition accepts (chunk t : string) : Prop :=
  empty chunk = false /\
  TextToSpeech.cleanTextForTTS strict chunk = Return t /\
  empty t = false /\
  forall n st, snd (nativeSpeak n st t) = true.

(** The object after the engine has taken the utterance [t]. *)
Definition spoken (t : string) (s : @TextToSpeech.Impl Native)
  : @TextToSpeech.Impl Native :=
  let n := fst (nativeSpeak (TextToSpeech.native s)
                            (TextToSpeech.settings s) t) in
  let s := TextToSpeech.set_native n s in
  let s := TextToSpeech.record (TextToSpeech.NativeSpeak t) s in
  let s := TextToSpeech.set_state TextToSpeech.Speaking s in
  if TextToSpeech.speechStartedCallback s
  then TextToSpeech.record TextToSpeech.CallbackStarted s
  else s.

(** What [speak] leaves alone: the session and progress members, and the
    state unless it becomes [Speaking]. *)
Definition keeps_session (s s' : @TextToSpeech.Impl Native) : Prop :=
  TextToSpeech.chunks s' = TextToSpeech.chunks s /\
  TextToSpeech.currentChunk s' = TextToSpeech.currentChunk s /\
  TextToSpeech.isChunked s' = TextToSpeech.isChunked s /\
  TextToSpeech.progress s' = TextToSpeech.progress s /\
  TextToSpeech.currentWordIndex s' = TextToSpeech.currentWordIndex s /\
  TextToSpeech.totalWords s' = TextToSpeech.totalWords s /\
  (TextToSpeech.state s' = TextToSpeech.state s \/
   TextToSpeech.state s' = TextToSpeech.Speaking).

(** What [spoken t] appends to the trace. *)
Definition spoken_events (t : string) (s : @TextToSpeech.Impl Native)
  : list TextToSpeech.Event :=
  TextToSpeech.NativeSpeak t ::
  (if TextToSpeech.speechStartedCallback s
   then [TextToSpeech.CallbackStarted] else []).

(** The test of [onSpeechFinished]: a chunked session with a chunk after
    the current one. *)
Definition more_chunks (s : @TextToSpeech.Impl Native) : bool :=
  TextToSpeech.isChunked s
  && (TextToSpeech.size_t (TextToSpeech.currentChunk s)
      <? TextToSpeech.size_t
           (Z.of_nat (length (TextToSpeech.chunks s)) - 1))%Z.

(** The object after the last utterance has finished. *)
Definition finished (s : @TextToSpeech.Impl Native)
  : @TextToSpeech.Impl Native :=
  let s := TextToSpeech.set_state TextToSpeech.Stopped s in
  let s := TextToSpeech.set_isChunked false s in
  let s := TextToSpeech.set_chunks [] s in
  let s := TextToSpeech.set_currentChunk 0 s in
  if TextToSpeech.speechFinishedCallback s
  then TextToSpeech.record TextToSpeech.CallbackFinished s
  else s.

(** The object after [speakChunked] has stored its arguments. *)
Definition stored (cs : list string) (i : Z) (s : @TextToSpeech.Impl Native)
  : @TextToSpeech.Impl Native :=
  TextToSpeech.set_isChunked true
    (TextToSpeech.set_currentChunk i (TextToSpeech.set_chunks cs s)).

End ControllerStatements.

Definition count_finished (l : list TextToSpeech.Event) : nat :=
  length (filter (fun e => match e with
                           | TextToSpeech.CallbackFinished => true
                           | _ => false
                           end) l).

Definition count_started (l : list TextToSpeech.Event) : nat :=
  length (filter (fun e => match e with
                           | TextToSpeech.CallbackStarted => true
                           | _ => false
                           end) l).

End Playback.

(** ** Definitions used by the further statements *)

Module Session.

Section SessionStatements.

Variable strict : bool.
Context {Native : Type}.
Variable nativeSpeak :
  Native -> TextToSpeech.SpeechSettings -> string -> Native * bool.

(** The chunk members agree: a chunked session has its index inside the
    chunk sequence; without one there are no chunks and the index is 0. *)
Definition session_ok (s : @TextToSpeech.Impl Native) : Prop :=
  (Z.of_nat (length (TextToSpeech.chunks s)) < 2 ^ 31)%Z /\
  if TextToSpeech.isChunked s
  then (0 <= TextToSpeech.currentChunk s
        < Z.of_nat (length (TextToSpeech.chunks s)))%Z
  else TextToSpeech.chunks s = [] /\ TextToSpeech.currentChunk s = 0%Z.

(** The arguments of an operation: the start index is an [int], and the
    vector is short enough for the [int] member [currentChunk] to index
    it. *)
Definition op_ok (op : TextToSpeech.Op) : Prop :=
  match op with
  | TextToSpeech.OpSpeakChunked cs i =>
      (Z.of_nat (length cs) < 2 ^ 31)%Z /\ (- 2 ^ 31 <= i < 2 ^ 31)%Z
  | _ => True
  end.

(** The object after [k] finished events. *)
Definition after_finished (k : nat) (s : @TextToSpeech.Impl Native)
  : @TextToSpeech.Impl Native :=
  Nat.iter k
    (TextToSpeech.after (TextToSpeech.onSpeechFinished strict nativeSpeak)) s.

(** What speaking the cleaned texts [ts] one after the other appends to the
    trace. *)
Definition playback_events (s : @TextToSpeech.Impl Native) (ts : list string)
  : list TextToSpeech.Event :=
  concat (map (fun t => Playback.spoken_events t s) ts).

(** A chunked session of [cs] is speaking chunk [m], and since [s0] the
    events [evs] have happened. *)
Definition playing (cs : list string) (m : nat)
    (evs : list TextToSpeech.Event) (s0 s : @TextToSpeech.Impl Native)
  : Prop :=
  TextToSpeech.state s = TextToSpeech.Speaking /\
  TextToSpeech.isChunked s = true /\
  TextToSpeech.chunks s = cs /\
  TextToSpeech.currentChunk s = Z.of_nat m /\
  TextToSpeech.speechStartedCallback s
  = TextToSpeech.speechStartedCallback s0 /\
  TextToSpeech.speechFinishedCallback s
  = TextToSpeech.speechFinishedCallback s0 /\
  TextToSpeech.trace s = (TextToSpeech.trace s0 ++ evs)%list.

(** The progress members. *)
Definition progress_members (s : @TextToSpeech.Impl Native)
  : TextToSpeech.float * Z * Z :=
  (TextToSpeech.progress s, TextToSpeech.currentWordIndex s,
   TextToSpeech.totalWords s).

Definition is_progress (op : TextToSpeech.Op) : bool :=
  match op with
  | TextToSpeech.EvProgress _ _ _ => true
  | _ => false
  end.

(** What the members other than [state], [native] and [trace] hold. *)
Definition same_members (s s' : @TextToSpeech.Impl Native) : Prop :=
  TextToSpeech.settings s' = TextToSpeech.settings s /\
  TextToSpeech.chunks s' = TextToSpeech.chunks s /\
  TextToSpeech.currentChunk s' = TextToSpeech.currentChunk s /\
  TextToSpeech.isChunked s' = TextToSpeech.isChunked s /\
  TextToSpeech.progress s' = TextToSpeech.progress s /\
  TextToSpeech.currentWordIndex s' = TextToSpeech.currentWordIndex s /\
  TextToSpeech.totalWords s' = TextToSpeech.totalWords s /\
  TextToSpeech.speechStartedCallback s'
  = TextToSpeech.speechStartedCallback s /\
  TextToSpeech.speechFinishedCallback s'
  = TextToSpeech.speechFinishedCallback s /\
  TextToSpeech.speechPausedCallback s'
  = TextToSpeech.speechPausedCallback s /\
  TextToSpeech.speechResumedCallback s'
  = TextToSpeech.speechResumedCallback s /\
  TextToSpeech.progressCallback s' = TextToSpeech.progressCallback s.

End SessionStatements.

End Session.

(** *** The cleaning of TextToSpeech.cpp, stated without regular
    expressions *)

(** The characters of the class [[\x00-\x08\x0B\x0C\x0E-\x1F\x7F]]. *)
Definition is_control (c : ascii) : bool :=
  in_range 0 8 c || in_range 11 12 c || in_range 14 31 c
  || (code c =? 127)%N.

Fixpoint remove_control (s : string) : string :=
  match s with
  | EmptyString => EmptyString
  | String c s' =>
      if is_control c then remove_control s' else String c (remove_control s')
  end.

Definition starts_with_space (s : string) : bool :=
  match s with
  | String c _ => isspace c
  | EmptyString => false
  end.

(** Every run of two or more white-space characters becomes one space;
    [skipping] is set inside such a run. *)
Fixpoint collapse (skipping : bool) (s : string) : string :=
  match s with
  | EmptyString => EmptyString
  | String c s' =>
      if isspace c then
        if skipping then collapse true s'
        else if starts_with_space s' then String " " (collapse true s')
        else String c (collapse false s')
      else String c (collapse false s')
  end.

(** The leading spaces dropped; the trailing spaces dropped. *)
Fixpoint drop_leading (s : string) : string :=
  match s with
  | EmptyString => EmptyString
  | String c s' => if Ascii.eqb c " " then drop_leading s' else s
  end.

Fixpoint strip_trailing (s : string) : string :=
  match s with
  | EmptyString => EmptyString
  | String c s' =>
      let r := strip_trailing s' in
      if Ascii.eqb c " " && empty r then EmptyString else String c r
  end.

Definition cleaned (txt : string) : string :=
  strip_trailing (drop_leading (collapse false (remove_control txt))).

(** No control character; no two adjacent white-space characters; no space
    at either end. *)
Fixpoint no_control (s : string) : bool :=
  match s with
  | EmptyString => true
  | String c s' => negb (is_control c) && no_control s'
  end.

Fixpoint no_space_run (s : string) : bool :=
  match s with
  | EmptyString => true
  | String c s' =>
      negb (isspace c && starts_with_space s') && no_space_run s'
  end.

Definition leading_space (s : string) : bool :=
  match s with
  | String c _ => Ascii.eqb c " "
  | EmptyString => false
  end.

Fixpoint trailing_space (s : string) : bool :=
  match s with
  | EmptyString => false
  | String c EmptyString => Ascii.eqb c " "
  | String _ s' => trailing_space s'
  end.

Definition is_clean (s : string) : bool :=
  no_control s && no_space_run s && negb (leading_space s)
  && negb (trailing_space s).

Fixpoint only_spaces (s : string) : bool :=
  match s with
  | EmptyString => true
  | String c s' => Ascii.eqb c " " && only_spaces s'
  end.

(** The length of the white-space run at the start of a text, the text after
    it, and whether that run has exactly [n] characters. *)
Fixpoint run_length (s : string) : nat :=
  match s with
  | EmptyString => 0
  | String c s' => if isspace c then S (run_length s') else 0
  end.

Fixpoint skip_run (s : string) : string :=
  match s with
  | EmptyString => EmptyString
  | String c s' => if isspace c then skip_run s' else s
  end.

Fixpoint run_of (n : nat) (s : string) : bool :=
  match n, s with
  | O, _ => negb (starts_with_space s)
  | S n', String c s' => isspace c && run_of n' s'
  | S _, EmptyString => false
  end.
(** White space only. *)
Fixpoint all_space (s : string) : bool :=
  match s with
  | EmptyString => true
  | String c s' => isspace c && all_space s'
  end.

(** The chunk of a single word. *)
Definition one_word_chunk (w : string) : PDFTextExtractor.TextChunk :=
  {| PDFTextExtractor.text := w; PDFTextExtractor.wordCount := 1 |}.

(** The sum of the [wordCount] members. *)
Definition total_words (cs : list PDFTextExtractor.TextChunk) : Z :=
  fold_right Z.add 0%Z (map PDFTextExtractor.wordCount cs).

(** The number of chunks for [n] words with [size] words to a chunk. *)
Definition chunk_count (n size : Z) : Z := ((n + size - 1) / size)%Z.

(** The exception of a refused extraction: the one [std::regex] throws on
    the first key of [latexReplacements]. *)
Definition thrown (strict : bool) : regex_error :=
  if strict then error_escape else error_badbrace.

(** A back end that returns the same text for every page range. *)
Definition some_text (_ : string) (_ _ : Z) : string := "text".

(** ** The platform back ends of the extractor *)

(** *** PDFTextExtractor_Windows.cpp *)

Module PDFTextExtractor_Windows.

Definition getPageCountWindows (filePath : string) : Z := 0%Z.

Definition extractTextFromPDFWindows (filePath : string)
    (startPage endPage : Z) : string := "".

End PDFTextExtractor_Windows.

(** *** PDFTextExtractor_macOS.cpp

    What the code asks of PDFKit: a document is the sequence of its pages,
    [pageAtIndex:] gives a page or nil, [string] of a page gives its text or
    nil.  Texts are byte strings in UTF-8, so the conversions between
    [std::string] and [NSString] change nothing; the file path is taken to
    be valid UTF-8. *)

Module PDFTextExtractor_macOS.

Definition PDFPage : Set := option string.

Definition PDFDocument : Set := list (option PDFPage).

Definition newline : string := String (ascii_of_nat 10) "".

(** [%d] of an [int]. *)
Definition decimal (i : Z) : string := NilZero.string_of_int (Z.to_int i).

(** A [std::string] made from a C string: the bytes before the first
    NUL. *)
Fixpoint c_str (s : string) : string :=
  match s with
  | EmptyString => EmptyString
  | String c s' => if (code c =? 0)%N then EmptyString else String c (c_str s')
  end.

(** [(int)[pdfDoc pageCount]]. *)
Definition pageCount (pdfDoc : PDFDocument) : Z :=
  PDFTextExtractor.to_int (Z.of_nat (length pdfDoc)).

(** [[pdfDoc pageAtIndex:i]]; an index outside the document, for which
    PDFKit raises an exception, is given nil here. *)
Definition pageAtIndex (pdfDoc : PDFDocument) (i : Z) : option PDFPage :=
  if (i <? 0)%Z then None
  else match nth_error pdfDoc (Z.to_nat i) with
       | Some page => page
       | None => None
       end.

(** The values of [i] in [for (int i = startIndex; i < endIndex; i++)]. *)
Definition indices (startIndex endIndex : Z) : list Z :=
  map (fun k => (startIndex + Z.of_nat k)%Z)
      (seq 0 (Z.to_nat (endIndex - startIndex))).

(** The body of the loop. *)
Definition append_page (pdfDoc : PDFDocument) (fullText : string) (i : Z)
  : string :=
  match pageAtIndex pdfDoc i with
  | Some (Some pageText) =>
      fullText ++ ("--- Page " ++ decimal (i + 1) ++ " ---" ++ newline)
               ++ pageText ++ (newline ++ newline)
  | _ => fullText
  end.

Section PDFKit.

(** [[[PDFDocument alloc] initWithURL:fileURL]] for the file at a path.
    Each function opens the file anew; the file is taken not to change in
    between. *)
Variable initWithURL : string -> option PDFDocument.

Definition getPageCountMacOS (filePath : string) : Z :=
  match initWithURL filePath with
  | None => 0%Z
  | Some pdfDoc => pageCount pdfDoc
  end.

Definition extractTextFromPDFMacOS (filePath : string)
    (startPage endPage : Z) : string :=
  match initWithURL filePath with
  | None => ""
  | Some pdfDoc =>
      (* [startPage - 1] is [int] arithmetic: at [INT_MIN] it wraps *)
      let startIndex := Z.max 0 (PDFTextExtractor.to_int (startPage - 1)) in
      let endIndex := Z.min (pageCount pdfDoc) endPage in
      c_str (fold_left (append_page pdfDoc) (indices startIndex endIndex) "")
  end.

End PDFKit.

End PDFTextExtractor_macOS.

(** The text of the pages [pages], numbered from [number]: a page with a
    text gives a header line, its text and an empty line; another page
    gives nothing. *)
Fixpoint page_blocks (number : Z)
    (pages : list (option PDFTextExtractor_macOS.PDFPage)) : string :=
  match pages with
  | [] => ""
  | page :: pages' =>
      match page with
      | Some (Some pageText) =>
          ("--- Page " ++ PDFTextExtractor_macOS.decimal number ++ " ---"
                       ++ PDFTextExtractor_macOS.newline)
          ++ pageText
          ++ (PDFTextExtractor_macOS.newline
                ++ PDFTextExtractor_macOS.newline)
      | _ => ""
      end ++ page_blocks (number + 1) pages'
  end.

Definition has_text (page : option PDFTextExtractor_macOS.PDFPage) : bool :=
  match page with
  | Some (Some _) => true
  | _ => false
  end.

(** The pages [first .. last], counted from 1. *)
Definition pages_between (first last : Z)
    (pdfDoc : PDFTextExtractor_macOS.PDFDocument)
  : list (option PDFTextExtractor_macOS.PDFPage) :=
  firstn (Z.to_nat (last - first + 1)) (skipn (Z.to_nat (first - 1)) pdfDoc).

(** A document of three pages; the second one has no text. *)
Definition three_pages (_ : string)
  : option PDFTextExtractor_macOS.PDFDocument :=
  Some [Some (Some "one"); Some None; Some (Some "three")].

(** * Properties *)

Section ExtractorProperties.

Import PDFTextExtractor.

(** ** Strings and words *)

Lemma append_empty_r (s : string) : s ++ "" = s.
Proof. induction s as [|c s IH]; simpl; [reflexivity | now rewrite IH]. Qed.

Lemma append_assoc (s t u : string) : (s ++ t) ++ u = s ++ t ++ u.
Proof. induction s as [|c s IH]; simpl; [reflexivity | now rewrite IH]. Qed.

Lemma empty_true (s : string) : empty s = true -> s = "".
Proof. destruct s; [reflexivity | discriminate]. Qed.

Lemma empty_append (s t : string) : empty s = false -> empty (s ++ t) = false.
Proof. destruct s; [discriminate | reflexivity]. Qed.

Lemma no_space_append (s t : string) :
  no_space (s ++ t) = no_space s && no_space t.
Proof.
  induction s as [|c s IH]; simpl; [reflexivity|].
  now rewrite IH, andb_assoc.
Qed.

(** Reading a word that is free of white space extends the open word. *)
Lemma read_words_word (w : string) :
  no_space w = true ->
  forall word s, read_words word (w ++ s) = read_words (word ++ w) s.
Proof.
  induction w as [|c w IH]; intros Hw word s; simpl.
  - now rewrite append_empty_r.
  - simpl in Hw. apply andb_prop in Hw as [Hc Hw].
    apply negb_true_iff in Hc. rewrite Hc, (IH Hw), append_assoc.
    reflexivity.
Qed.

Lemma read_words_spaced (ws : list string) :
  Forall is_word ws ->
  forall word, empty word = false -> read_words word (spaced ws) = word :: ws.
Proof.
  induction 1 as [|w ws [Hne Hns] _ IH]; intros word Hword; simpl.
  - now rewrite Hword.
  - rewrite Hword, (read_words_word w Hns). simpl. now rewrite IH.
Qed.

Lemma read_words_are_words (s : string) :
  forall word, no_space word = true -> Forall is_word (read_words word s).
Proof.
  induction s as [|c s IH]; intros word Hword; simpl.
  - destruct (empty word) eqn:E; constructor; [now split | constructor].
  - destruct (isspace c) eqn:Hc.
    + destruct (empty word) eqn:E.
      * now apply IH.
      * constructor; [now split | now apply IH].
    + apply IH. rewrite no_space_append, Hword. simpl. now rewrite Hc.
Qed.

Lemma splitIntoWords_are_words (txt : string) :
  Forall is_word (splitIntoWords txt).
Proof. now apply read_words_are_words. Qed.

(** ** joinWords *)

Lemma join_loop_spaced (ws : list string) :
  forall oss, join_loop false oss ws = oss ++ spaced ws.
Proof.
  induction ws as [|w ws IH]; intros oss; simpl.
  - now rewrite append_empty_r.
  - now rewrite IH, !append_assoc.
Qed.

Lemma joinWords_cons (w : string) (ws : list string) :
  joinWords (w :: ws) = w ++ spaced ws.
Proof. unfold joinWords. simpl. apply join_loop_spaced. Qed.

Lemma spaced_app (a b : list string) : spaced (a ++ b) = spaced a ++ spaced b.
Proof.
  induction a as [|w a IH]; simpl; [reflexivity|].
  now rewrite IH, append_assoc.
Qed.

Lemma spaced_joinWords (g : list string) :
  g <> [] -> " " ++ joinWords g = spaced g.
Proof.
  destruct g as [|w g]; [congruence | intros _]. now rewrite joinWords_cons.
Qed.

(** Splitting what [joinWords] built gives the words back. *)
Lemma splitIntoWords_joinWords (ws : list string) :
  Forall is_word ws -> splitIntoWords (joinWords ws) = ws.
Proof.
  destruct 1 as [|w ws [Hne Hns] Hws]; [reflexivity|].
  rewrite joinWords_cons. unfold splitIntoWords.
  rewrite (read_words_word w Hns). simpl.
  now apply read_words_spaced.
Qed.

Lemma joinWords_not_empty (g : list string) :
  Forall is_word g -> g <> [] -> empty (joinWords g) = false.
Proof.
  destruct 1 as [|w ws [Hne Hns] Hws]; [congruence | intros _].
  rewrite joinWords_cons. now apply empty_append.
Qed.

(** ** The groups of chunkText *)

Lemma chunk_loop_groups (chunkSize : Z) (ws : list string) :
  forall o cur,
    finish (fold_left (chunk_step chunkSize) ws
              {| out := o; currentChunk := cur;
                 currentWordCount := Z.of_nat (length cur) |})
    = (o ++ map chunk_of (groups (Z.to_nat chunkSize) cur ws))%list.
Proof.
  induction ws as [|w ws IH]; intros o cur; simpl.
  - unfold finish; simpl.
    destruct cur; simpl; [now rewrite app_nil_r | reflexivity].
  - unfold chunk_step at 2. simpl.
    assert (Hlen : (Z.of_nat (length cur) + 1)%Z
                   = Z.of_nat (length (cur ++ [w])%list)).
    { rewrite length_app. simpl. lia. }
    rewrite Hlen.
    destruct (Z.of_nat (length (cur ++ [w])%list) >=? chunkSize)%Z eqn:Hge.
    + assert (Hn : (Z.to_nat chunkSize <=? length (cur ++ [w])%list)%nat
                   = true).
      { apply Nat.leb_le. apply Z.geb_le in Hge. lia. }
      rewrite Hn. rewrite (IH _ []). simpl. rewrite <- app_assoc. reflexivity.
    + assert (Hn : (Z.to_nat chunkSize <=? length (cur ++ [w])%list)%nat
                   = false).
      { apply Nat.leb_gt. rewrite Z.geb_leb in Hge. apply Z.leb_gt in Hge.
        lia. }
      rewrite Hn. apply IH.
Qed.

(** The word counter of the loop stays below [max 1 chunkSize]: its
    increment cannot overflow an [int]. *)
Lemma chunk_loop_counter (chunkSize : Z) (ws : list string) :
  forall st,
    (0 <= currentWordCount st < Z.max 1 chunkSize)%Z ->
    (0 <= currentWordCount (fold_left (chunk_step chunkSize) ws st)
     < Z.max 1 chunkSize)%Z.
Proof.
  induction ws as [|w ws IH]; intros st Hst; simpl; [exact Hst|].
  apply IH. unfold chunk_step.
  destruct (currentWordCount st + 1 >=? chunkSize)%Z eqn:Hge; simpl.
  - lia.
  - rewrite Z.geb_leb in Hge. apply Z.leb_gt in Hge. lia.
Qed.

Lemma chunkText_groups (txt : string) (chunkSize : Z) :
  chunkText txt chunkSize
  = map chunk_of (groups (Z.to_nat chunkSize) [] (splitIntoWords txt)).
Proof.
  unfold chunkText. apply (chunk_loop_groups chunkSize _ [] []).
Qed.

Lemma groups_concat (n : nat) (ws : list string) :
  forall cur, concat (groups n cur ws) = (cur ++ ws)%list.
Proof.
  induction ws as [|w ws IH]; intros cur; simpl.
  - destruct cur; simpl; [reflexivity | now rewrite !app_nil_r].
  - destruct (n <=? length (cur ++ [w])%list)%nat; simpl;
      rewrite IH; simpl; now rewrite <- app_assoc.
Qed.

Lemma groups_not_nil (n : nat) (ws : list string) :
  forall cur, Forall (fun g => g <> []) (groups n cur ws).
Proof.
  induction ws as [|w ws IH]; intros cur; simpl.
  - destruct cur; constructor; [discriminate | constructor].
  - destruct (n <=? length (cur ++ [w])%list)%nat.
    + constructor; [|apply IH]. destruct cur; discriminate.
    + apply IH.
Qed.

Lemma groups_words (n : nat) (ws : list string) :
  forall cur, Forall is_word cur -> Forall is_word ws ->
              Forall (Forall is_word) (groups n cur ws).
Proof.
  induction ws as [|w ws IH]; intros cur Hcur Hws; simpl.
  - destruct cur; constructor; [assumption | constructor].
  - inversion Hws as [|? ? Hw Hws']; subst.
    assert (Forall is_word (cur ++ [w])%list).
    { apply Forall_app; split; [assumption | now constructor]. }
    destruct (n <=? length (cur ++ [w])%list)%nat.
    + constructor; [assumption | now apply IH].
    + now apply IH.
Qed.

Lemma spaced_map_joinWords (gs : list (list string)) :
  Forall (fun g => g <> []) gs ->
  spaced (map joinWords gs) = spaced (concat gs).
Proof.
  induction 1 as [|h gs Hh _ IH]; [reflexivity|].
  cbn [map concat spaced].
  rewrite spaced_app, IH, <- (spaced_joinWords h Hh).
  now rewrite append_assoc.
Qed.

Lemma joinWords_groups (gs : list (list string)) :
  Forall (fun g => g <> []) gs ->
  joinWords (map joinWords gs) = joinWords (concat gs).
Proof.
  destruct 1 as [|g gs Hg Hgs]; [reflexivity|].
  destruct g as [|w g]; [congruence|].
  cbn [map concat app].
  rewrite !joinWords_cons, spaced_app, append_assoc.
  now rewrite spaced_map_joinWords.
Qed.

(** The groups: full ones, then at most one shorter group. *)
Lemma groups_shape (n : nat) (ws : list string) :
  (0 < n)%nat ->
  forall cur, (length cur < n)%nat ->
  exists full rest,
    groups n cur ws = (full ++ rest)%list /\
    Forall (fun g => length g = n) full /\
    (rest = [] \/ exists g, rest = [g] /\ (0 < length g < n)%nat) /\
    (length cur + length ws = length full * n + length (concat rest))%nat.
Proof.
  intros Hn. induction ws as [|w ws IH]; intros cur Hcur; simpl.
  - destruct cur as [|c cur].
    + exists [], []. split; [reflexivity|]. split; [constructor|].
      split; [now left | reflexivity].
    + exists [], [c :: cur]. split; [reflexivity|]. split; [constructor|].
      split.
      * right. exists (c :: cur). split; [reflexivity | simpl in *; lia].
      * simpl. rewrite app_nil_r. simpl. lia.
  - destruct (n <=? length (cur ++ [w])%list)%nat eqn:E.
    + apply Nat.leb_le in E. rewrite length_app in E. simpl in E.
      destruct (IH [] Hn) as (full & rest & Hg & Hfull & Hrest & Hsum).
      simpl in Hsum.
      exists ((cur ++ [w])%list :: full), rest.
      split; [now rewrite Hg|]. split.
      * constructor; [rewrite length_app; simpl; lia | assumption].
      * split; [assumption | simpl; lia].
    + apply Nat.leb_gt in E.
      destruct (IH (cur ++ [w])%list E)
        as (full & rest & Hg & Hfull & Hrest & Hsum).
      rewrite length_app in Hsum. simpl in Hsum.
      exists full, rest.
      split; [assumption|]. split; [assumption|]. split; [assumption | lia].
Qed.

Lemma Forall_removelast {A : Type} (P : A -> Prop) (l : list A) :
  Forall P l -> Forall P (removelast l).
Proof.
  induction 1 as [|x l Hx Hl IH]; [constructor|].
  simpl. destruct l; [constructor | now constructor].
Qed.

Lemma Forall_last {A : Type} (P : A -> Prop) (l : list A) (d : A) :
  Forall P l -> l <> [] -> P (last l d).
Proof.
  intros H Hne. rewrite (app_removelast_last d Hne) in H.
  apply Forall_app in H as [_ H]. now inversion H.
Qed.

Lemma removelast_map {A B : Type} (f : A -> B) (l : list A) :
  removelast (map f l) = map f (removelast l).
Proof.
  induction l as [|x l IH]; [reflexivity|].
  simpl. destruct l; [reflexivity|]. simpl in *. now rewrite IH.
Qed.

Lemma last_map {A B : Type} (f : A -> B) (l : list A) (d : B) (d' : A) :
  l <> [] -> last (map f l) d = f (last l d').
Proof.
  induction l as [|x l IH]; [congruence | intros _].
  simpl. destruct l; [reflexivity|]. apply IH. discriminate.
Qed.

(** The sizes of the chunks, for a positive target. *)
Lemma chunkText_sizes (txt : string) (targetSize : Z) :
  (0 < targetSize)%Z ->
  exists full rest,
    chunkText txt targetSize = (map chunk_of full ++ map chunk_of rest)%list /\
    Forall (fun g => Z.of_nat (length g) = targetSize) full /\
    (rest = [] \/
     exists g, rest = [g] /\ (0 < Z.of_nat (length g) < targetSize)%Z) /\
    (Z.of_nat (length (splitIntoWords txt))
     = Z.of_nat (length full) * targetSize
       + Z.of_nat (length (concat rest)))%Z.
Proof.
  intros Hpos. rewrite chunkText_groups.
  destruct (groups_shape (Z.to_nat targetSize) (splitIntoWords txt))
    with (cur := @nil string)
    as (full & rest & Hg & Hfull & Hrest & Hsum); [lia | simpl; lia |].
  exists full, rest. rewrite Hg, map_app.
  split; [reflexivity|]. split; [|split].
  - eapply Forall_impl; [|exact Hfull]. simpl. intros g Hlen. lia.
  - destruct Hrest as [->|(g & -> & Hlen)]; [now left|].
    right. exists g. split; [reflexivity | lia].
  - simpl in Hsum. rewrite Hsum, Nat2Z.inj_add, Nat2Z.inj_mul. lia.
Qed.

Lemma chunk_of_word_group (g : list string) :
  Forall is_word g -> g <> [] ->
  empty (text (chunk_of g)) = false /\
  (1 <= wordCount (chunk_of g))%Z /\
  wordCount (chunk_of g)
  = Z.of_nat (length (splitIntoWords (text (chunk_of g)))).
Proof.
  intros Hw Hne. unfold chunk_of; simpl. split; [|split].
  - now apply joinWords_not_empty.
  - destruct g; [congruence | simpl; lia].
  - now rewrite splitIntoWords_joinWords.
Qed.

(** C6 (amended): for a positive [targetSize], every chunk of [chunkText]
    but the last holds exactly [targetSize] words; the last holds between 1
    and [targetSize]; no chunk is empty, and [wordCount] is the number of
    words of the chunk's text; a text without words (the empty text among
    them) gives no chunk; a text of 1 to [targetSize] words gives one
    chunk. *)
Theorem chunkText_chunk_sizes (txt : string) (targetSize : Z) :
  (0 < targetSize)%Z ->
  let cs := chunkText txt targetSize in
  let n := Z.of_nat (length (splitIntoWords txt)) in
  Forall (fun c => wordCount c = targetSize) (removelast cs) /\
  (forall d, cs <> [] -> (1 <= wordCount (last cs d) <= targetSize)%Z) /\
  Forall (fun c => empty (text c) = false /\ (1 <= wordCount c)%Z /\
                   wordCount c
                   = Z.of_nat (length (splitIntoWords (text c)))) cs /\
  (n = 0%Z -> cs = []) /\
  chunkText "" targetSize = [] /\
  ((1 <= n <= targetSize)%Z -> length cs = 1%nat).
Proof.
  intros Hpos cs n.
  destruct (chunkText_sizes txt targetSize Hpos)
    as (full & rest & Hcs & Hfull & Hrest & Hsum).
  fold cs in Hcs. fold n in Hsum.
  assert (Hfullc : Forall (fun c => wordCount c = targetSize)
                          (map chunk_of full)).
  { apply Forall_map. eapply Forall_impl; [|exact Hfull]. now simpl. }
  split; [|split; [|split; [|split; [|split]]]].
  - rewrite Hcs.
    destruct Hrest as [->|(g & -> & Hlen)]; simpl.
    + rewrite app_nil_r. now apply Forall_removelast.
    + now rewrite removelast_last.
  - intros d Hne. rewrite Hcs in Hne |- *.
    destruct Hrest as [->|(g & -> & Hlen)]; simpl in *.
    + rewrite app_nil_r in *.
      pose proof (Forall_last _ _ d Hfullc Hne) as Hl. simpl in Hl. lia.
    + rewrite last_last. simpl. lia.
  - unfold cs. rewrite chunkText_groups. apply Forall_map.
    pose proof (groups_words (Z.to_nat targetSize) (splitIntoWords txt) []
                  (Forall_nil _) (splitIntoWords_are_words txt)) as Hw.
    pose proof (groups_not_nil (Z.to_nat targetSize) (splitIntoWords txt) [])
      as Hne.
    rewrite Forall_forall in *. intros g Hg.
    apply chunk_of_word_group; [now apply Hw | now apply Hne].
  - intros Hn. rewrite Hcs.
    destruct full as [|f full].
    + destruct Hrest as [->|(g & -> & Hlen)]; [reflexivity|].
      simpl in Hsum. rewrite app_nil_r in Hsum. lia.
    + exfalso. simpl length in Hsum. rewrite Nat2Z.inj_succ in Hsum.
      pose proof (Nat2Z.is_nonneg (length (concat rest))).
      pose proof (Nat2Z.is_nonneg (length full)).
      rewrite Hn in Hsum. clear - Hsum H H0 Hpos. nia.
  - reflexivity.
  - intros Hn. rewrite Hcs, length_app, !length_map.
    destruct full as [|f full].
    + destruct Hrest as [->|(g & -> & Hlen)];
        [simpl in Hsum; lia | reflexivity].
    + simpl length in Hsum. rewrite Nat2Z.inj_succ in Hsum.
      pose proof (Nat2Z.is_nonneg (length (concat rest))) as Hr.
      pose proof (Nat2Z.is_nonneg (length full)) as Hk.
      assert (Hk0 : Z.of_nat (length full) = 0%Z)
        by (clear - Hsum Hn Hr Hk Hpos; nia).
      assert (Hr0 : Z.of_nat (length (concat rest)) = 0%Z)
        by (clear - Hsum Hn Hr Hk0 Hpos; nia).
      destruct Hrest as [->|(g & -> & Hlen)]; simpl in Hr0 |- *.
      * lia.
      * rewrite app_nil_r in Hr0. lia.
Qed.

(** Witness of C6 (amended): "a b c d e" in chunks of two words. *)
Lemma chunkText_chunk_sizes_witness :
  (0 < 2)%Z /\
  let cs := chunkText "a b c d e" 2 in
  let n := Z.of_nat (length (splitIntoWords "a b c d e")) in
  Forall (fun c => wordCount c = 2%Z) (removelast cs) /\
  (forall d, cs <> [] -> (1 <= wordCount (last cs d) <= 2)%Z) /\
  Forall (fun c => empty (text c) = false /\ (1 <= wordCount c)%Z /\
                   wordCount c
                   = Z.of_nat (length (splitIntoWords (text c)))) cs /\
  (n = 0%Z -> cs = []) /\
  chunkText "" 2 = [] /\
  ((1 <= n <= 2)%Z -> length cs = 1%nat).
Proof.
  split; [lia | apply (chunkText_chunk_sizes "a b c d e" 2); lia].
Defined.

(** C6 as stated fails: three spaces are not the empty text and hold no
    word, which is at most [targetSize] words; [chunkText] gives no chunk,
    not one. *)
Lemma chunkText_blank_text :
  "   " <> "" /\
  (Z.of_nat (length (splitIntoWords "   ")) <= 5)%Z /\
  chunkText "   " 5 = [] /\
  length (chunkText "   " 5) <> 1%nat.
Proof.
  split; [discriminate|]. split; [vm_compute; discriminate|].
  split; [reflexivity | vm_compute; discriminate].
Qed.

(** ** Rejoining the chunks *)

Lemma map_text_chunk_of (gs : list (list string)) :
  map text (map chunk_of gs) = map joinWords gs.
Proof. rewrite map_map. reflexivity. Qed.

Lemma concat_split_chunk_of (gs : list (list string)) :
  Forall (Forall is_word) gs ->
  concat (map (fun c => splitIntoWords (text c)) (map chunk_of gs))
  = concat gs.
Proof.
  induction 1 as [|g gs Hg _ IH]; [reflexivity|].
  simpl. now rewrite IH, splitIntoWords_joinWords.
Qed.

(** C1 (amended): a request that fails on the page count or on the clamped
    range returns [success = false], a message and nothing else; one that
    fails because the back end extracted no text returns the same but with
    [pageRange] set to the clamped range.  [extractText] fails likewise on an
    unreadable file or an unknown page count and otherwise is the ranged
    extraction over all pages.  No other returned result has
    [success = false]. *)
Theorem extraction_failure_results (strict : bool) (fileGood : string -> bool)
    (getPageCount : string -> Z)
    (extractTextFromPDF : string -> Z -> Z -> string)
    (filePath : string) (startPage endPage : Z) :
  let pageCount := getPageCount filePath in
  let first := Z.max 1 startPage in
  let last := Z.min pageCount endPage in
  let clamped := {| PDFTextExtractor.startPage := first;
                    PDFTextExtractor.endPage := last;
                    totalPages := pageCount |} in
  let ranged :=
    extractTextFromPages strict getPageCount extractTextFromPDF
                         filePath startPage endPage in
  let whole :=
    extractText strict fileGood getPageCount extractTextFromPDF filePath in
  ((pageCount <= 0)%Z ->
   ranged = Return (failure "Could not determine page count" None)) /\
  ((0 < pageCount)%Z -> (last < first)%Z ->
   ranged = Return (failure "Invalid page range" None)) /\
  ((0 < pageCount)%Z -> (first <= last)%Z ->
   extractTextFromPDF filePath first last = "" ->
   ranged = Return (failure
                      "No text could be extracted from the specified pages"
                      (Some clamped))) /\
  (forall r, ranged = Return r -> success r = false ->
     exists msg range, r = failure msg range /\ empty msg = false /\
                       (range = None \/ range = Some clamped)) /\
  (fileGood filePath = false ->
   whole = Return (failure "File does not exist or cannot be opened" None)) /\
  (fileGood filePath = true -> (pageCount <= 0)%Z ->
   whole = Return (failure
                     "Could not determine page count or PDF is invalid"
                     None)) /\
  (fileGood filePath = true -> (0 < pageCount)%Z ->
   whole = extractTextFromPages strict getPageCount extractTextFromPDF
                                filePath 1 pageCount).
Proof.
  intros pageCount first last clamped ranged whole.
  unfold ranged, whole, extractText, extractTextFromPages.
  fold pageCount. fold first. fold last. fold clamped.
  split; [|split; [|split; [|split; [|split; [|split]]]]].
  - intros H. apply Z.leb_le in H. now rewrite H.
  - intros Hp H. apply Z.leb_gt in Hp. rewrite Hp.
    apply Z.gtb_lt in H. now rewrite H.
  - intros Hp H He. apply Z.leb_gt in Hp. rewrite Hp.
    assert (Hg : (first >? last)%Z = false).
    { rewrite Z.gtb_ltb. apply Z.ltb_ge. exact H. }
    rewrite Hg, He. reflexivity.
  - intros r.
    destruct (pageCount <=? 0)%Z.
    { intros [= <-] _. eexists _, None.
      split; [reflexivity | split; [reflexivity | now left]]. }
    destruct (first >? last)%Z.
    { intros [= <-] _. eexists _, None.
      split; [reflexivity | split; [reflexivity | now left]]. }
    destruct (empty (extractTextFromPDF filePath first last)).
    { intros [= <-] _. eexists _, (Some clamped).
      split; [reflexivity | split; [reflexivity | now right]]. }
    destruct (cleanTextForTTS strict _); simpl; [|discriminate].
    intros [= <-]. discriminate.
  - intros H. now rewrite H.
  - intros H Hp. rewrite H. simpl. apply Z.leb_le in Hp. now rewrite Hp.
  - intros H Hp. rewrite H. simpl. apply Z.leb_gt in Hp. now rewrite Hp.
Qed.

(** Witness of C1 (amended): pages 1 to 10 of a ten-page document without
    extractable text. *)
Lemma extraction_failure_results_witness :
  (0 < ten_pages "scan.pdf")%Z /\
  (Z.max 1 1 <= Z.min (ten_pages "scan.pdf") 10)%Z /\
  no_text "scan.pdf" (Z.max 1 1) (Z.min (ten_pages "scan.pdf") 10) = "" /\
  extractTextFromPages false ten_pages no_text "scan.pdf" 1 10
  = Return (failure "No text could be extracted from the specified pages"
              (Some {| PDFTextExtractor.startPage := 1;
                       PDFTextExtractor.endPage := 10;
                       totalPages := 10 |})).
Proof.
  assert (Hp : (0 < ten_pages "scan.pdf")%Z) by reflexivity.
  assert (Hr : (Z.max 1 1 <= Z.min (ten_pages "scan.pdf") 10)%Z)
    by (vm_compute; discriminate).
  assert (He : no_text "scan.pdf" (Z.max 1 1)
                       (Z.min (ten_pages "scan.pdf") 10) = "")
    by reflexivity.
  split; [exact Hp | split; [exact Hr | split; [exact He|]]].
  exact (proj1 (proj2 (proj2
           (extraction_failure_results false readable ten_pages no_text
              "scan.pdf" 1 10))) Hp Hr He).
Defined.

(** C1 as stated fails: the back end returns no text for pages 1 to 10 of a
    ten-page document; the result has [success = false], but its page range
    is the clamped range, not the unassigned one of a fresh result. *)
Lemma extraction_failure_keeps_pageRange :
  exists r,
    extractTextFromPages false ten_pages no_text "scan.pdf" 1 10 = Return r /\
    success r = false /\
    empty (errorMessage r) = false /\
    pageRange r = Some {| PDFTextExtractor.startPage := 1;
                          PDFTextExtractor.endPage := 10;
                          totalPages := 10 |} /\
    pageRange r <> pageRange new_result.
Proof.
  eexists. split; [reflexivity|].
  split; [reflexivity|]. split; [reflexivity|]. split; [reflexivity|].
  discriminate.
Qed.

(** ** The chunking decision *)

Lemma to_int_small (z : Z) :
  (0 <= z < 2 ^ 31)%Z -> to_int z = z.
Proof.
  intros H. unfold to_int.
  rewrite Z.mod_small; [lia|].
  change (2 ^ 31)%Z with 2147483648%Z in *.
  change (2 ^ 32)%Z with 4294967296%Z. lia.
Qed.

(** The chunking decision (lines 85-101) at the threshold: for exactly
    10000 words, [isChunked = false] and one chunk that is the full text;
    for exactly 10001 words, [isChunked = true] and two chunks of 10000
    words and 1 word. *)
Lemma decideChunking_at_threshold (range : PageRange) (cleaned : string) :
  let r := decideChunking (cleaned_result range cleaned) in
  let n := Z.of_nat (length (splitIntoWords cleaned)) in
  (n = 10000%Z ->
   success r = true /\ fullText r = cleaned /\ isChunked r = Some false /\
   chunks r = [{| text := cleaned; wordCount := 10000 |}]) /\
  (n = 10001%Z ->
   success r = true /\ fullText r = cleaned /\ isChunked r = Some true /\
   map wordCount (chunks r) = [10000; 1]%Z /\
   joinWords (map text (chunks r)) = joinWords (splitIntoWords cleaned)).
Proof.
  intros r n. unfold r, decideChunking, cleaned_result.
  cbn [fullText set_fullText].
  fold n. split; intros Hn.
  - rewrite Hn. rewrite (to_int_small 10000) by (vm_compute; split; congruence).
    change (10000 >? 10000)%Z with false. cbn.
    repeat split.
  - rewrite Hn. rewrite (to_int_small 10001) by (vm_compute; split; congruence).
    change (10001 >? 10000)%Z with true. cbn.
    split; [reflexivity|]. split; [reflexivity|]. split; [reflexivity|].
    destruct (chunkText_sizes cleaned 10000 eq_refl)
      as (full & rest & Hcs & Hfull & Hrest & Hsum).
    fold n in Hsum. rewrite Hn in Hsum.
    pose proof (Nat2Z.is_nonneg (length full)) as Hk.
    assert (Hlen : forall g, rest = [g] -> Z.of_nat (length (concat rest))
                                           = Z.of_nat (length g)).
    { intros g ->. simpl. now rewrite app_nil_r. }
    assert (Hfull1 : length full = 1%nat).
    { destruct Hrest as [->|(g & Hg & Hlt)].
      - simpl in Hsum. lia.
      - rewrite (Hlen g Hg) in Hsum. lia. }
    rewrite Hfull1 in Hsum.
    destruct Hrest as [->|(g & -> & Hlt)]; [simpl in Hsum; lia|].
    rewrite (Hlen g eq_refl) in Hsum.
    assert (Hg1 : Z.of_nat (length g) = 1%Z) by lia.
    destruct full as [|f [|f' full]]; try discriminate.
    inversion Hfull as [|? ? Hf _]; subst.
    split.
    + rewrite Hcs. simpl. now rewrite Hf, Hg1.
    + rewrite chunkText_groups, map_text_chunk_of.
      rewrite joinWords_groups by apply groups_not_nil.
      now rewrite groups_concat.
Qed.


(** C7 (amended): for every text and target size, the chunk texts joined
    with single spaces are the words of the text joined with single spaces;
    the words of the chunks, in order, are the words of the text, none split;
    and the joined chunks are the text itself exactly when the text is
    already its words joined by single spaces. *)
Theorem chunkText_rejoined (txt : string) (targetSize : Z) :
  let cs := chunkText txt targetSize in
  joinWords (map text cs) = joinWords (splitIntoWords txt) /\
  concat (map (fun c => splitIntoWords (text c)) cs) = splitIntoWords txt /\
  (joinWords (map text cs) = txt <-> txt = joinWords (splitIntoWords txt)).
Proof.
  intros cs.
  assert (Hjoin : joinWords (map text cs) = joinWords (splitIntoWords txt)).
  { unfold cs. rewrite chunkText_groups, map_text_chunk_of.
    rewrite joinWords_groups by apply groups_not_nil.
    now rewrite groups_concat. }
  split; [exact Hjoin | split].
  - unfold cs. rewrite chunkText_groups.
    rewrite concat_split_chunk_of.
    + now rewrite groups_concat.
    + apply groups_words; [constructor | apply splitIntoWords_are_words].
  - rewrite Hjoin. split; intros H; now symmetry.
Qed.

(** C7 as stated fails: two spaces between the words, or a line break, are
    not reconstructed. *)
Lemma chunkText_rejoined_differs :
  joinWords (map text (chunkText "a  b" 1)) <> "a  b" /\
  joinWords (map text (chunkText (String "a" (String "010" "b")) 10000))
  <> String "a" (String "010" "b").
Proof. split; vm_compute; discriminate. Qed.

(** ** The LaTeX substitutions *)

Lemma apply_replacements_first_throw (strict : bool)
    (reps : list (string * string)) (key : string) (e : regex_error) :
  first_throw strict reps = Some (key, e) ->
  forall cleaned, apply_replacements strict reps cleaned = Throw e.
Proof.
  induction reps as [|kv reps IH]; simpl; [discriminate|].
  intros H cleaned. unfold Regex.regex_replace.
  destruct (Regex.compile strict (fst kv)); simpl.
  - destruct (Regex.has_dollar (snd kv)); simpl.
    + now inversion H.
    + now apply IH.
  - now inversion H.
Qed.

(** A [regex_replace] whose pattern compiles returns. *)
Lemma bind_regex_replace {A : Type} (strict : bool) (s p f : string)
    (r : Regex.regex) (k : string -> Exc A) :
  Regex.compile strict p = Return r ->
  Regex.has_dollar f = false ->
  bindE (Regex.regex_replace strict s p f) k
  = k (Regex.replace_matches r f None 0 s).
Proof.
  intros E H. unfold Regex.regex_replace. rewrite E. simpl. now rewrite H.
Qed.

Ltac regex_replace_returns :=
  match goal with
  | |- context [Regex.regex_replace ?b ?s ?p ?f] =>
      let r := fresh "r" in
      let E := fresh "E" in
      assert (exists r, Regex.compile b p = Return r) as [r E]
        by (vm_compute; eexists; reflexivity);
      rewrite (bind_regex_replace b s p f r _ E eq_refl); clear E
  end.

(** For every text, [cleanTextForTTS] leaves by a [std::regex_error]: the
    loop over the table reaches a key that is not a regular expression. *)
Lemma cleanTextForTTS_throws (txt : string) :
  cleanTextForTTS false txt = Throw error_badbrace /\
  cleanTextForTTS true txt = Throw error_escape.
Proof.
  assert (Hfalse : first_throw false latexReplacements
                   = Some ("\frac{", error_badbrace))
    by (vm_compute; reflexivity).
  assert (Htrue : first_throw true latexReplacements
                  = Some ("\alpha", error_escape))
    by (vm_compute; reflexivity).
  split; unfold cleanTextForTTS.
  - do 4 regex_replace_returns.
    now rewrite (apply_replacements_first_throw _ _ _ _ Hfalse).
  - do 4 regex_replace_returns.
    now rewrite (apply_replacements_first_throw _ _ _ _ Htrue).
Qed.

(** C2, the code at ["\infty"]: the loop visits the keys in the order of
    [std::map], where ["\in"] comes before ["\infty"] and ["\int"], not in
    the order of the table; each key is compiled as a regular expression, and
    the call throws; the substitutions read as literal texts and applied in
    table order give [" infinity "]. *)
Theorem latex_substitution_diverges :
  map fst latexReplacements
  = ["\alpha"; "\approx"; "\beta"; "\cap"; "\cup"; "\delta"; "\div";
     "\emptyset"; "\epsilon"; "\equiv"; "\exists"; "\forall"; "\frac{";
     "\gamma"; "\geq"; "\in"; "\infty"; "\int"; "\lambda"; "\leftarrow";
     "\leftrightarrow"; "\leq"; "\lim"; "\mu"; "\neq"; "\notin"; "\omega";
     "\phi"; "\pi"; "\pm"; "\propto"; "\rightarrow"; "\sigma"; "\sqrt{";
     "\subset"; "\sum"; "\supset"; "\tau"; "\theta"; "\times"; "^{"; "_{";
     "}"] /\
  map fst latexReplacements <> map fst latexReplacements_init /\
  first_throw false latexReplacements = Some ("\frac{", error_badbrace) /\
  first_throw true latexReplacements = Some ("\alpha", error_escape) /\
  cleanTextForTTS false "\infty" = Throw error_badbrace /\
  cleanTextForTTS true "\infty" = Throw error_escape /\
  substitute_in_table_order latexReplacements_init "\infty" = " infinity ".
Proof.
  split; [vm_compute; reflexivity|].
  split; [vm_compute; discriminate|].
  split; [vm_compute; reflexivity|].
  split; [vm_compute; reflexivity|].
  split; [exact (proj1 (cleanTextForTTS_throws "\infty"))|].
  split; [exact (proj2 (cleanTextForTTS_throws "\infty"))|].
  vm_compute. reflexivity.
Qed.

(** C3, the code at ["\alpha + \beta = \pi"]: the call does not return
    ["alpha + beta = pi"], it throws; the literal substitutions in table
    order, collapsed and trimmed, give that text. *)
Theorem cleanTextForTTS_alpha_beta_pi :
  cleanTextForTTS false "\alpha + \beta = \pi" = Throw error_badbrace /\
  cleanTextForTTS true "\alpha + \beta = \pi" = Throw error_escape /\
  (forall strict,
     cleanTextForTTS strict "\alpha + \beta = \pi"
     <> Return "alpha + beta = pi") /\
  substitute_collapse_trim "\alpha + \beta = \pi"
  = Return "alpha + beta = pi".
Proof.
  pose proof (cleanTextForTTS_throws "\alpha + \beta = \pi") as [Hf Ht].
  split; [exact Hf|]. split; [exact Ht|].
  split; [intros [|]; [rewrite Ht | rewrite Hf]; discriminate|].
  vm_compute. reflexivity.
Qed.

(** ** Extraction at the chunking threshold *)

Lemma words_not_empty (txt : string) :
  splitIntoWords txt <> [] -> empty txt = false.
Proof. destruct txt; [intros H; now contradiction H | reflexivity]. Qed.

Lemma extractTextFromPages_throws (strict : bool)
    (getPageCount : string -> Z)
    (extractTextFromPDF : string -> Z -> Z -> string)
    (filePath : string) (startPage endPage : Z) :
  let pageCount := getPageCount filePath in
  let first := Z.max 1 startPage in
  let last := Z.min pageCount endPage in
  (0 < pageCount)%Z -> (first <= last)%Z ->
  splitIntoWords (extractTextFromPDF filePath first last) <> [] ->
  extractTextFromPages strict getPageCount extractTextFromPDF
    filePath startPage endPage
  = Throw (if strict then error_escape else error_badbrace).
Proof.
  intros pageCount first last Hp Hr Hw.
  unfold extractTextFromPages. fold pageCount first last.
  replace (pageCount <=? 0)%Z with false by (symmetry; apply Z.leb_gt; lia).
  replace (first >? last)%Z with false
    by (symmetry; rewrite Z.gtb_ltb; apply Z.ltb_ge; lia).
  rewrite (words_not_empty _ Hw).
  destruct strict.
  - now rewrite (proj2 (cleanTextForTTS_throws _)).
  - now rewrite (proj1 (cleanTextForTTS_throws _)).
Qed.

(** C5, the code on a document at the threshold: for every back end and
    every document whose pages give a text of exactly 10000 words, or of
    exactly 10001 words, [extractTextFromPages] and [extractText] end with
    the exception that [std::regex] throws in [cleanTextForTTS]; they
    return no result, so neither [isChunked = false] with one chunk nor
    [isChunked = true] with two chunks comes back.  The chunking decision
    behind the throwing call would give just these results. *)
Theorem extraction_at_threshold_throws (strict : bool)
    (fileGood : string -> bool) (getPageCount : string -> Z)
    (extractTextFromPDF : string -> Z -> Z -> string)
    (filePath : string) (startPage endPage : Z) :
  let pageCount := getPageCount filePath in
  let first := Z.max 1 startPage in
  let last := Z.min pageCount endPage in
  let words := fun a b =>
    Z.of_nat (length (splitIntoWords (extractTextFromPDF filePath a b))) in
  let error := if strict then error_escape else error_badbrace in
  let ranged :=
    extractTextFromPages strict getPageCount extractTextFromPDF
                         filePath startPage endPage in
  let whole :=
    extractText strict fileGood getPageCount extractTextFromPDF filePath in
  (0 < pageCount)%Z ->
  ((first <= last)%Z ->
   words first last = 10000%Z \/ words first last = 10001%Z ->
   ranged = Throw error /\ forall r, ranged <> Return r) /\
  (fileGood filePath = true ->
   words 1%Z pageCount = 10000%Z \/ words 1%Z pageCount = 10001%Z ->
   whole = Throw error /\ forall r, whole <> Return r) /\
  (forall range cleaned,
     let r := decideChunking (cleaned_result range cleaned) in
     let n := Z.of_nat (length (splitIntoWords cleaned)) in
     (n = 10000%Z ->
      success r = true /\ isChunked r = Some false /\
      chunks r = [{| text := cleaned; wordCount := 10000 |}]) /\
     (n = 10001%Z ->
      success r = true /\ isChunked r = Some true /\
      map wordCount (chunks r) = [10000; 1]%Z)).
Proof.
  intros pageCount first last words error ranged whole Hp.
  assert (Hwords : forall a b,
             words a b = 10000%Z \/ words a b = 10001%Z ->
             splitIntoWords (extractTextFromPDF filePath a b) <> []).
  { intros a b H E. unfold words in H. rewrite E in H.
    destruct H; discriminate. }
  split; [|split].
  - intros Hr Hn.
    assert (E : ranged = Throw error)
      by (apply extractTextFromPages_throws; auto).
    split; [exact E | intros r; rewrite E; discriminate].
  - intros Hg Hn.
    assert (E : whole = Throw error).
    { unfold whole, extractText. rewrite Hg. cbn [negb]. fold pageCount.
      replace (pageCount <=? 0)%Z with false
        by (symmetry; apply Z.leb_gt; lia).
      apply extractTextFromPages_throws; fold pageCount.
      - exact Hp.
      - lia.
      - replace (Z.max 1 1) with 1%Z by reflexivity.
        replace (Z.min pageCount pageCount) with pageCount by lia.
        now apply Hwords. }
    split; [exact E | intros r; rewrite E; discriminate].
  - intros range cleaned r n.
    destruct (decideChunking_at_threshold range cleaned) as [H0 H1].
    split; intros Hn.
    + destruct (H0 Hn) as (Hs & _ & Hc & Hch). now repeat split.
    + destruct (H1 Hn) as (Hs & _ & Hc & Hch & _). now repeat split.
Qed.

(** Witness of C5: a readable document of ten pages whose pages give 10000
    words. *)
Lemma extraction_at_threshold_throws_witness :
  let pages := words_pages (Z.to_nat 10000) in
  let extracted := pages "doc.pdf" 1%Z (ten_pages "doc.pdf") in
  (0 < ten_pages "doc.pdf")%Z /\
  readable "doc.pdf" = true /\
  Z.of_nat (length (splitIntoWords extracted)) = 10000%Z /\
  extractText false readable ten_pages pages "doc.pdf"
  = Throw error_badbrace.
Proof.
  intros pages extracted.
  assert (Hp : (0 < ten_pages "doc.pdf")%Z) by reflexivity.
  assert (Hg : readable "doc.pdf" = true) by reflexivity.
  assert (Hn : Z.of_nat (length (splitIntoWords extracted)) = 10000%Z)
    by (vm_compute; reflexivity).
  split; [exact Hp | split; [exact Hg | split; [exact Hn|]]].
  exact (proj1 (proj1 (proj2 (extraction_at_threshold_throws false readable
                                ten_pages pages "doc.pdf" 1 10 Hp))
                  Hg (or_introl Hn))).
Defined.

End ExtractorProperties.

(** ** The playback controller *)

Section ControllerProperties.

Import TextToSpeech Playback.

Variable strict : bool.
Context {Native : Type}.
Variable nativeSpeak : Native -> SpeechSettings -> string -> Native * bool.
Variable nativeSetVoice : Native -> string -> Native * bool.
Variable nativePause nativeResume nativeStop : Native -> Native.
Variable nativeSetSettings : Native -> SpeechSettings -> Native.

Abbreviation Impl := (@Impl Native).
Abbreviation speak := (speak strict nativeSpeak).
Abbreviation speakPlatform := (speakPlatform nativeSpeak).
Abbreviation speakCurrentChunk := (speakCurrentChunk strict nativeSpeak).
Abbreviation speakChunked := (speakChunked strict nativeSpeak).
Abbreviation onSpeechFinished := (onSpeechFinished strict nativeSpeak).
Abbreviation stop := (stop nativeStop).
Abbreviation pause := (pause nativePause).
Abbreviation resume := (resume nativeResume).
Abbreviation setVoice := (setVoice nativeSetVoice).
Abbreviation setSettings := (setSettings nativeSetSettings).
Abbreviation run := (run strict nativeSpeak nativeSetVoice nativePause
                     nativeResume nativeStop nativeSetSettings).
Abbreviation accepts := (Playback.accepts strict nativeSpeak).
Abbreviation spoken := (Playback.spoken nativeSpeak).
Abbreviation keeps_session := (@Playback.keeps_session Native).
Abbreviation finished := (@Playback.finished Native).
Abbreviation stored := (@Playback.stored Native).
Abbreviation more_chunks := (@Playback.more_chunks Native).

Lemma keeps_session_refl (s : Impl) : keeps_session s s.
Proof. unfold keeps_session. repeat split; auto. Qed.

Lemma speakPlatform_keeps_session (t : string) (s : Impl) :
  keeps_session s (after (speakPlatform t) s).
Proof.
  unfold after, TextToSpeech.speakPlatform, onSpeechStarted, bind, get,
    modify, ret, when, keeps_session.
  destruct (nativeSpeak (native s) (settings s) t) as [n [|]]; simpl;
    [destruct (speechStartedCallback s); simpl|]; repeat split; auto.
Qed.

Lemma speak_keeps_session (txt : string) (s : Impl) :
  keeps_session s (after (speak txt) s).
Proof.
  unfold after, TextToSpeech.speak.
  destruct (empty txt); [apply keeps_session_refl|].
  unfold bind, lift at 1.
  destruct (cleanTextForTTS strict txt) as [t|e];
    [|apply keeps_session_refl].
  destruct (empty t); [apply keeps_session_refl|].
  apply speakPlatform_keeps_session.
Qed.

(** An accepted utterance. *)
Lemma speak_accepted (chunk t : string) (s : Impl) :
  accepts chunk t -> speak chunk s = (Return true, spoken t s).
Proof.
  intros (Hc & Hclean & Ht & Hn).
  unfold TextToSpeech.speak. rewrite Hc.
  unfold bind, lift at 1. rewrite Hclean, Ht.
  unfold TextToSpeech.speakPlatform, onSpeechStarted, bind, get, modify,
    ret, when, Playback.spoken.
  specialize (Hn (native s) (settings s)).
  destruct (nativeSpeak (native s) (settings s) t) as [n ok].
  simpl in Hn. subst ok. simpl.
  destruct (speechStartedCallback s); reflexivity.
Qed.

Lemma spoken_fields (t : string) (s : Impl) :
  state (spoken t s) = Speaking /\
  chunks (spoken t s) = chunks s /\
  currentChunk (spoken t s) = currentChunk s /\
  isChunked (spoken t s) = isChunked s /\
  progress (spoken t s) = progress s /\
  currentWordIndex (spoken t s) = currentWordIndex s /\
  totalWords (spoken t s) = totalWords s /\
  speechStartedCallback (spoken t s) = speechStartedCallback s /\
  speechFinishedCallback (spoken t s) = speechFinishedCallback s /\
  trace (spoken t s) = (trace s ++ spoken_events t s)%list.
Proof.
  unfold Playback.spoken, spoken_events. simpl.
  destruct (speechStartedCallback s) eqn:E; simpl;
    rewrite <- ?app_assoc, ?E; simpl; repeat split; auto.
Qed.

Lemma size_t_small (z : Z) : (0 <= z < 2 ^ 64)%Z -> size_t z = z.
Proof. intros H. unfold size_t. now apply Z.mod_small. Qed.


Lemma after_forget {A : Type} (c : M A) (s : Impl) :
  after (forget c) s = after c s.
Proof.
  unfold after, forget, bind, ret. destruct (c s) as [[a|e] s']; reflexivity.
Qed.

Lemma speakCurrentChunk_keeps_session (s : Impl) :
  keeps_session s (after speakCurrentChunk s).
Proof.
  unfold after, TextToSpeech.speakCurrentChunk, bind, get. simpl.
  destruct (isChunked s && _); [|apply keeps_session_refl].
  apply speak_keeps_session.
Qed.

(** [speakChunked] when its test on the arguments passes. *)
Lemma speakChunked_stores (cs : list string) (i : Z) (s : Impl) :
  (length cs =? 0)%nat || (size_t i >=? Z.of_nat (length cs))%Z = false ->
  speakChunked cs i s
  = speak (nth (Z.to_nat (size_t i)) cs "") (stored cs i s).
Proof.
  intros Htest.
  unfold TextToSpeech.speakChunked, TextToSpeech.speakCurrentChunk.
  rewrite Htest. unfold bind, modify, get, Playback.stored. simpl.
  apply orb_false_elim in Htest as [_ Hi].
  rewrite Z.geb_leb in Hi. apply Z.leb_gt in Hi.
  apply Z.ltb_lt in Hi. now rewrite Hi.
Qed.

Lemma speakChunked_refused (cs : list string) (i : Z) (s : Impl) :
  (length cs =? 0)%nat || (size_t i >=? Z.of_nat (length cs))%Z = true ->
  speakChunked cs i s = (Return false, s).
Proof.
  intros Htest. unfold TextToSpeech.speakChunked. now rewrite Htest.
Qed.

(** A finished event while a later chunk remains. *)
Lemma onSpeechFinished_next (s : Impl) (t : string) :
  isChunked s = true ->
  (0 <= currentChunk s)%Z ->
  (currentChunk s + 1 < Z.of_nat (length (chunks s)))%Z ->
  (Z.of_nat (length (chunks s)) < 2 ^ 64)%Z ->
  accepts (nth (Z.to_nat (currentChunk s + 1)) (chunks s) "") t ->
  onSpeechFinished s
  = (Return tt, spoken t (set_currentChunk (currentChunk s + 1) s)).
Proof.
  intros Hc H0 H1 H2 Hacc.
  unfold TextToSpeech.onSpeechFinished, TextToSpeech.speakCurrentChunk.
  unfold bind at 1, get at 1. rewrite Hc.
  rewrite (size_t_small (currentChunk s)) by lia.
  rewrite (size_t_small (Z.of_nat (length (chunks s)) - 1)) by lia.
  assert (Hlt : (currentChunk s <? Z.of_nat (length (chunks s)) - 1)%Z
                = true) by (apply Z.ltb_lt; lia).
  rewrite Hlt. unfold bind, modify, get, ret. simpl. rewrite Hc.
  rewrite (size_t_small (currentChunk s + 1)) by lia.
  assert (Hlt' : (currentChunk s + 1 <? Z.of_nat (length (chunks s)))%Z
                 = true) by (apply Z.ltb_lt; lia).
  rewrite Hlt'. simpl.
  now rewrite (speak_accepted _ t _ Hacc).
Qed.

Lemma onSpeechFinished_continues (s : Impl) :
  more_chunks s = true ->
  onSpeechFinished s
  = forget speakCurrentChunk (set_currentChunk (currentChunk s + 1) s).
Proof.
  intros H. unfold TextToSpeech.onSpeechFinished.
  unfold bind at 1, get at 1. unfold Playback.more_chunks in H. rewrite H.
  reflexivity.
Qed.

Lemma onSpeechFinished_ends (s : Impl) :
  more_chunks s = false ->
  onSpeechFinished s = (Return tt, finished s).
Proof.
  intros H. unfold TextToSpeech.onSpeechFinished.
  unfold bind at 1, get at 1. unfold Playback.more_chunks in H. rewrite H.
  unfold bind, modify, when, ret, Playback.finished. simpl.
  destruct (speechFinishedCallback s); reflexivity.
Qed.

(** A finished event when no later chunk remains. *)
Lemma onSpeechFinished_last (s : Impl) :
  isChunked s = false \/
  ((0 <= currentChunk s < 2 ^ 64)%Z /\
   (Z.of_nat (length (chunks s)) <= currentChunk s + 1)%Z /\
   (0 < Z.of_nat (length (chunks s)) < 2 ^ 64)%Z) ->
  onSpeechFinished s = (Return tt, finished s).
Proof.
  intros H. apply onSpeechFinished_ends. unfold Playback.more_chunks.
  destruct H as [->|(H0 & H1 & H2)]; [reflexivity|].
  apply andb_false_intro2.
  rewrite !size_t_small by lia. apply Z.ltb_ge. lia.
Qed.

Lemma finished_fields (s : Impl) :
  state (finished s) = Stopped /\ chunks (finished s) = [] /\
  currentChunk (finished s) = 0%Z /\ isChunked (finished s) = false /\
  progress (finished s) = progress s /\
  currentWordIndex (finished s) = currentWordIndex s /\
  totalWords (finished s) = totalWords s /\
  trace (finished s)
  = (trace s ++ (if speechFinishedCallback s
                 then [CallbackFinished] else []))%list.
Proof.
  unfold Playback.finished. simpl.
  destruct (speechFinishedCallback s); simpl; rewrite ?app_nil_r;
    repeat split; auto.
Qed.

Lemma count_finished_app (l l' : list Event) :
  count_finished (l ++ l') = (count_finished l + count_finished l')%nat.
Proof. unfold count_finished. now rewrite filter_app, length_app. Qed.

Lemma count_finished_spoken_events (t : string) (s : Impl) :
  count_finished (spoken_events t s) = 0%nat.
Proof.
  unfold spoken_events. destruct (speechStartedCallback s); reflexivity.
Qed.

Lemma count_started_app (l l' : list Event) :
  count_started (l ++ l') = (count_started l + count_started l')%nat.
Proof. unfold count_started. now rewrite filter_app, length_app. Qed.

Lemma count_started_spoken_events (t : string) (s : Impl) :
  count_started (spoken_events t s)
  = if speechStartedCallback s then 1%nat else 0%nat.
Proof.
  unfold spoken_events. destruct (speechStartedCallback s); reflexivity.
Qed.


(** C8 (amended): [speakChunked] on three chunks that the engine accepts,
    from index 0, followed by three finished events: the call returns
    [true]; the first two events move the index to 1 and to 2 and start the
    next chunk, which invokes the started callback, if one is set, and no
    finished callback; the third invokes the finished callback once and
    leaves the controller [Stopped] with no chunks, index 0 and
    [isChunked = false], while the progress members stay as they were.  So
    the started callback is invoked three times in all, twice of them at an
    intermediate completion. *)
Theorem speakChunked_three_chunks (s : Impl) (c0 c1 c2 t0 t1 t2 : string) :
  speechFinishedCallback s = true ->
  accepts c0 t0 -> accepts c1 t1 -> accepts c2 t2 ->
  let s0 := after (speakChunked [c0; c1; c2] 0) s in
  let s1 := after onSpeechFinished s0 in
  let s2 := after onSpeechFinished s1 in
  let s3 := after onSpeechFinished s2 in
  result (speakChunked [c0; c1; c2] 0) s = Return true /\
  (state s0 = Speaking /\ currentChunk s0 = 0%Z /\
   chunks s0 = [c0; c1; c2] /\ isChunked s0 = true /\
   trace s0 = (trace s ++ spoken_events t0 s)%list) /\
  (state s1 = Speaking /\ currentChunk s1 = 1%Z /\
   chunks s1 = [c0; c1; c2] /\ isChunked s1 = true /\
   trace s1 = (trace s0 ++ spoken_events t1 s)%list) /\
  (state s2 = Speaking /\ currentChunk s2 = 2%Z /\
   chunks s2 = [c0; c1; c2] /\ isChunked s2 = true /\
   trace s2 = (trace s1 ++ spoken_events t2 s)%list) /\
  (state s3 = Stopped /\ currentChunk s3 = 0%Z /\ chunks s3 = [] /\
   isChunked s3 = false /\
   trace s3 = (trace s2 ++ [CallbackFinished])%list) /\
  (progress s3 = progress s /\ currentWordIndex s3 = currentWordIndex s /\
   totalWords s3 = totalWords s) /\
  count_finished (trace s2) = count_finished (trace s) /\
  count_finished (trace s3) = S (count_finished (trace s)) /\
  (if speechStartedCallback s
   then count_started (trace s0) = (1 + count_started (trace s))%nat /\
        count_started (trace s1) = (2 + count_started (trace s))%nat /\
        count_started (trace s2) = (3 + count_started (trace s))%nat /\
        count_started (trace s3) = (3 + count_started (trace s))%nat
   else count_started (trace s3) = count_started (trace s)).
Proof.
  intros Hcb A0 A1 A2 s0 s1 s2 s3.
  assert (Hbig : (3 < 2 ^ 64)%Z) by reflexivity.
  (* the call *)
  assert (E0 : speakChunked [c0; c1; c2] 0 s
               = (Return true, spoken t0 (stored [c0; c1; c2] 0 s))).
  { rewrite speakChunked_stores by reflexivity.
    now apply speak_accepted. }
  assert (Hs0 : s0 = spoken t0 (stored [c0; c1; c2] 0 s))
    by (unfold s0, after; now rewrite E0).
  pose proof (spoken_fields t0 (stored [c0; c1; c2] 0 s))
    as (F0s & F0c & F0i & F0k & F0p & F0w & F0t & F0a & F0f & F0r).
  rewrite <- Hs0 in F0s, F0c, F0i, F0k, F0p, F0w, F0t, F0a, F0f, F0r.
  simpl in F0c, F0i, F0k, F0p, F0w, F0t, F0a, F0f, F0r.
  unfold spoken_events in F0r. simpl in F0r.
  fold (spoken_events t0 s) in F0r.
  (* the first finished event *)
  assert (E1 : onSpeechFinished s0
               = (Return tt, spoken t1 (set_currentChunk 1 s0))).
  { rewrite (onSpeechFinished_next s0 t1); rewrite ?F0i, ?F0c;
      try assumption; try reflexivity; simpl; lia. }
  assert (Hs1 : s1 = spoken t1 (set_currentChunk 1 s0))
    by (unfold s1, after; now rewrite E1).
  pose proof (spoken_fields t1 (set_currentChunk 1 s0))
    as (F1s & F1c & F1i & F1k & F1p & F1w & F1t & F1a & F1f & F1r).
  rewrite <- Hs1 in F1s, F1c, F1i, F1k, F1p, F1w, F1t, F1a, F1f, F1r.
  unfold spoken_events in F1r.
  simpl in F1c, F1i, F1k, F1p, F1w, F1t, F1a, F1f, F1r.
  rewrite F0a in F1a, F1r. rewrite F0f in F1f.
  fold (spoken_events t1 s) in F1r.
  rewrite F0c in F1c. rewrite F0k in F1k.
  (* the second finished event *)
  assert (E2 : onSpeechFinished s1
               = (Return tt, spoken t2 (set_currentChunk 2 s1))).
  { rewrite (onSpeechFinished_next s1 t2); rewrite ?F1i, ?F1c;
      try assumption; try reflexivity; simpl; lia. }
  assert (Hs2 : s2 = spoken t2 (set_currentChunk 2 s1))
    by (unfold s2, after; now rewrite E2).
  pose proof (spoken_fields t2 (set_currentChunk 2 s1))
    as (F2s & F2c & F2i & F2k & F2p & F2w & F2t & F2a & F2f & F2r).
  rewrite <- Hs2 in F2s, F2c, F2i, F2k, F2p, F2w, F2t, F2a, F2f, F2r.
  unfold spoken_events in F2r.
  simpl in F2c, F2i, F2k, F2p, F2w, F2t, F2a, F2f, F2r.
  rewrite F1a in F2a, F2r. rewrite F1f in F2f.
  fold (spoken_events t2 s) in F2r.
  rewrite F1c in F2c. rewrite F1k in F2k.
  (* the third finished event *)
  assert (E3 : onSpeechFinished s2 = (Return tt, finished s2)).
  { apply onSpeechFinished_last. right. rewrite F2i, F2c. simpl. lia. }
  assert (Hs3 : s3 = finished s2) by (unfold s3, after; now rewrite E3).
  pose proof (finished_fields s2)
    as (F3s & F3c & F3i & F3k & F3p & F3w & F3t & F3r).
  rewrite <- Hs3 in F3s, F3c, F3i, F3k, F3p, F3w, F3t, F3r.
  rewrite F2f, Hcb in F3r.
  split; [unfold result; now rewrite E0|].
  split; [repeat split; assumption|].
  split; [repeat split; assumption|].
  split; [repeat split; assumption|].
  split; [repeat split; assumption|].
  split; [repeat split; congruence|].
  assert (Hcount : count_finished (trace s2) = count_finished (trace s)).
  { rewrite F2r, F1r, F0r, !count_finished_app,
      !count_finished_spoken_events. lia. }
  split; [exact Hcount|].
  split.
  { rewrite F3r, count_finished_app, Hcount.
    change (count_finished [CallbackFinished]) with 1%nat. lia. }
  assert (C0 : count_started (trace s0)
               = (count_started (trace s)
                  + count_started (spoken_events t0 s))%nat)
    by (rewrite F0r; apply count_started_app).
  assert (C1 : count_started (trace s1)
               = (count_started (trace s0)
                  + count_started (spoken_events t1 s))%nat)
    by (rewrite F1r; apply count_started_app).
  assert (C2 : count_started (trace s2)
               = (count_started (trace s1)
                  + count_started (spoken_events t2 s))%nat)
    by (rewrite F2r; apply count_started_app).
  assert (C3 : count_started (trace s3) = count_started (trace s2)).
  { rewrite F3r, count_started_app.
    change (count_started [CallbackFinished]) with 0%nat. lia. }
  rewrite count_started_spoken_events in C0, C1, C2.
  destruct (speechStartedCallback s); [repeat split|]; lia.
Qed.

(** C9: when the arguments pass the test of [speakChunked] and the first
    [speak] fails, [speakChunked] returns [false] and the object holds the
    given chunks, the given index and [isChunked = true]; when the failure
    is a chunk that is empty or cleans to the empty text, nothing else of
    the object has changed. *)
Theorem speakChunked_failed_start (cs : list string) (i : Z) (s : Impl) :
  let chunk := nth (Z.to_nat (size_t i)) cs "" in
  let s' := after (speakChunked cs i) s in
  (length cs =? 0)%nat || (size_t i >=? Z.of_nat (length cs))%Z = false ->
  result (speak chunk) (stored cs i s) = Return false ->
  result (speakChunked cs i) s = Return false /\
  chunks s' = cs /\ currentChunk s' = i /\ isChunked s' = true /\
  (empty chunk = true \/ cleanTextForTTS strict chunk = Return "" ->
   s' = stored cs i s).
Proof.
  intros chunk s' Htest Hfail.
  unfold s', result, after in *.
  rewrite (speakChunked_stores cs i s Htest). fold chunk.
  split; [exact Hfail|].
  pose proof (speak_keeps_session chunk (stored cs i s))
    as (Hc & Hi & Hk & _).
  unfold after in Hc, Hi, Hk.
  split; [exact Hc | split; [exact Hi | split; [exact Hk|]]].
  unfold TextToSpeech.speak.
  intros [He|He].
  - now rewrite He.
  - destruct (empty chunk); [reflexivity|].
    unfold bind, lift. now rewrite He.
Qed.

(** C10: [setVoice] returns what the engine answers and, whatever the
    answer, the settings then read by [getSettings] carry the requested
    voice id and are otherwise unchanged. *)
Theorem setVoice_stores_voiceId (voiceId0 : string) (s : Impl) :
  let s' := after (setVoice voiceId0) s in
  result (setVoice voiceId0) s
  = Return (snd (nativeSetVoice (native s) voiceId0)) /\
  result getSettings s' = Return (settings s') /\
  voiceId (settings s') = voiceId0 /\
  settings s' = set_voiceId (settings s) voiceId0.
Proof.
  unfold after, result, TextToSpeech.setVoice, getSettings, bind, get,
    modify, ret.
  destruct (nativeSetVoice (native s) voiceId0) as [n known].
  simpl. repeat split.
Qed.

(** C4 (amended): an operation or event that takes the controller from
    another state to [Stopped] is [stop] or a finished event; it empties
    the chunk sequence and sets the index to 0 and [isChunked] to [false];
    [progress], [currentWordIndex] and [totalWords] keep their values. *)
Theorem transition_to_Stopped (op : Op) (s : Impl) :
  let s' := after (run op) s in
  state s <> Stopped -> state s' = Stopped ->
  (op = OpStop \/ op = EvSpeechFinished) /\
  chunks s' = [] /\ currentChunk s' = 0%Z /\ isChunked s' = false /\
  progress s' = progress s /\ currentWordIndex s' = currentWordIndex s /\
  totalWords s' = totalWords s.
Proof.
  intros s' Hs Hs'. unfold s' in *. clear s'.
  assert (Hkeep : forall s1,
             keeps_session s s1 -> state s1 = Stopped -> False).
  { intros s1 (_ & _ & _ & _ & _ & _ & [H|H]) H1; congruence. }
  destruct op; simpl in Hs' |- *.
  - exfalso. rewrite after_forget in Hs'.
    exact (Hkeep _ (speak_keeps_session _ _) Hs').
  - exfalso. rewrite after_forget in Hs'.
    destruct ((length chunks0 =? 0)%nat
              || (size_t startChunk >=? Z.of_nat (length chunks0))%Z)
             eqn:Htest.
    + unfold after in Hs'. rewrite speakChunked_refused in Hs' by exact Htest.
      now apply Hs.
    + unfold after in Hs'. rewrite speakChunked_stores in Hs' by exact Htest.
      pose proof (speak_keeps_session
                    (nth (Z.to_nat (size_t startChunk)) chunks0 "")
                    (stored chunks0 startChunk s))
        as (_ & _ & _ & _ & _ & _ & H).
      unfold after in H. simpl in H. destruct H; congruence.
  - exfalso. revert Hs'.
    unfold after, pause, bind, get, modify, when, ret.
    simpl. destruct (state s) eqn:E; simpl;
      try destruct (speechPausedCallback s); simpl; congruence.
  - exfalso. revert Hs'.
    unfold after, resume, bind, get, modify, when, ret.
    simpl. destruct (state s) eqn:E; simpl;
      try destruct (speechResumedCallback s); simpl; congruence.
  - split; [now left|]. revert Hs'.
    unfold after, TextToSpeech.stop, bind, get, modify, when, ret.
    simpl. destruct (state s) eqn:E; simpl; try congruence; repeat split.
  - exfalso. revert Hs'.
    unfold after, setSettings, bind, get, modify, ret. simpl. exact Hs.
  - exfalso. revert Hs'. rewrite after_forget.
    unfold after, TextToSpeech.setVoice, bind, get, modify, ret.
    destruct (nativeSetVoice (native s) voiceId0). simpl. exact Hs.
  - exfalso. revert Hs'. unfold after, modify. simpl. exact Hs.
  - exfalso. revert Hs'.
    unfold after, onSpeechStarted, bind, get, modify, when, ret. simpl.
    destruct (speechStartedCallback s); simpl; discriminate.
  - split; [now right|]. unfold after in *.
    destruct (more_chunks s) eqn:Htest.
    + exfalso. rewrite onSpeechFinished_continues in Hs' by exact Htest.
      fold (after (forget speakCurrentChunk)
                  (set_currentChunk (currentChunk s + 1) s)) in Hs'.
      rewrite after_forget in Hs'.
      pose proof (speakCurrentChunk_keeps_session
                    (set_currentChunk (currentChunk s + 1) s))
        as (_ & _ & _ & _ & _ & _ & H).
      simpl in H. destruct H; congruence.
    + rewrite onSpeechFinished_ends by exact Htest.
      pose proof (finished_fields s) as (_ & F).
      simpl. tauto.
  - exfalso. revert Hs'.
    unfold after, onProgress, bind, get, modify, when, ret. simpl.
    destruct (progressCallback s); simpl; exact Hs.
Qed.

End ControllerProperties.

(** ** The controller on the test engine *)

Lemma accepting_speak_accepts (w : string) :
  empty w = false ->
  TextToSpeech.cleanTextForTTS false w = Return w ->
  Playback.accepts false accepting_speak w w.
Proof.
  intros Hw Hc. unfold Playback.accepts.
  split; [exact Hw | split; [exact Hc | split; [exact Hw | reflexivity]]].
Qed.

(** Witness of C8: the chunks "one", "two", "three" on an engine that accepts
    every utterance, with the started and finished callbacks set. *)
Lemma speakChunked_three_chunks_witness :
  let s := TextToSpeech.set_callbacks true true false false false
             (TextToSpeech.new_Impl tt) in
  let finish := TextToSpeech.onSpeechFinished false accepting_speak in
  let s0 := TextToSpeech.after
              (TextToSpeech.speakChunked false accepting_speak
                 ["one"; "two"; "three"] 0) s in
  let s3 := TextToSpeech.after finish
              (TextToSpeech.after finish (TextToSpeech.after finish s0)) in
  TextToSpeech.speechFinishedCallback s = true /\
  Playback.accepts false accepting_speak "one" "one" /\
  Playback.accepts false accepting_speak "two" "two" /\
  Playback.accepts false accepting_speak "three" "three" /\
  TextToSpeech.state s3 = TextToSpeech.Stopped /\
  TextToSpeech.chunks s3 = [] /\
  Playback.count_finished (TextToSpeech.trace s3) = 1%nat.
Proof.
  intros s finish s0 s3.
  assert (Hcb : TextToSpeech.speechFinishedCallback s = true) by reflexivity.
  assert (A0 : Playback.accepts false accepting_speak "one" "one")
    by (apply accepting_speak_accepts; vm_compute; reflexivity).
  assert (A1 : Playback.accepts false accepting_speak "two" "two")
    by (apply accepting_speak_accepts; vm_compute; reflexivity).
  assert (A2 : Playback.accepts false accepting_speak "three" "three")
    by (apply accepting_speak_accepts; vm_compute; reflexivity).
  split; [exact Hcb|]. split; [exact A0|]. split; [exact A1|].
  split; [exact A2|].
  destruct (speakChunked_three_chunks false accepting_speak s
              "one" "two" "three" "one" "two" "three" Hcb A0 A1 A2)
    as (_ & _ & _ & _ & (Hst & _ & Hch & _) & _ & _ & Hcount & _).
  split; [exact Hst | split; [exact Hch | exact Hcount]].
Defined.

(** C8 as stated fails: with the started callback set, each of the two
    intermediate completions invokes a callback, the started one for the
    next chunk; and the progress members, written by a progress event
    during the second chunk, are not emptied at the end. *)
Lemma intermediate_completion_invokes_started :
  let ops := TextToSpeech.run_all false accepting_speak unknown_voice
               idle idle idle idle_settings in
  let s0 := ops [TextToSpeech.OpSetCallbacks true true false false false;
                 TextToSpeech.OpSpeakChunked ["one"; "two"; "three"] 0]
                (TextToSpeech.new_Impl tt) in
  let s1 := ops [TextToSpeech.EvSpeechFinished] s0 in
  let s2 := ops [TextToSpeech.EvProgress TextToSpeech.float_0_5 1 1;
                 TextToSpeech.EvSpeechFinished] s1 in
  let s3 := ops [TextToSpeech.EvSpeechFinished] s2 in
  TextToSpeech.trace s0
  = [TextToSpeech.NativeSpeak "one"; TextToSpeech.CallbackStarted] /\
  TextToSpeech.trace s1
  = (TextToSpeech.trace s0
       ++ [TextToSpeech.NativeSpeak "two"; TextToSpeech.CallbackStarted])%list
  /\
  TextToSpeech.trace s2
  = (TextToSpeech.trace s1
       ++ [TextToSpeech.NativeSpeak "three";
           TextToSpeech.CallbackStarted])%list /\
  TextToSpeech.trace s3
  = (TextToSpeech.trace s2 ++ [TextToSpeech.CallbackFinished])%list /\
  Playback.count_started (TextToSpeech.trace s3) = 3%nat /\
  TextToSpeech.state s3 = TextToSpeech.Stopped /\
  TextToSpeech.progress s3 = TextToSpeech.float_0_5 /\
  TextToSpeech.progress s3 <> TextToSpeech.float_0_0 /\
  TextToSpeech.currentWordIndex s3 = 1%Z /\
  TextToSpeech.totalWords s3 = 1%Z.
Proof. vm_compute. repeat split; discriminate. Qed.

(** Witness of C9: one chunk of three spaces, which cleans to the empty
    text. *)
Lemma speakChunked_failed_start_witness :
  let s := @TextToSpeech.new_Impl unit tt in
  let s' := TextToSpeech.after
              (TextToSpeech.speakChunked false accepting_speak ["   "] 0) s in
  (length ["   "] =? 0)%nat
  || (TextToSpeech.size_t 0 >=? Z.of_nat (length ["   "]))%Z = false /\
  TextToSpeech.result
    (TextToSpeech.speak false accepting_speak
       (nth (Z.to_nat (TextToSpeech.size_t 0)) ["   "] ""))
    (Playback.stored ["   "] 0 s) = Return false /\
  TextToSpeech.result
    (TextToSpeech.speakChunked false accepting_speak ["   "] 0) s
  = Return false /\
  TextToSpeech.chunks s' = ["   "] /\ TextToSpeech.currentChunk s' = 0%Z /\
  TextToSpeech.isChunked s' = true.
Proof.
  intros s s'.
  assert (Htest : (length ["   "] =? 0)%nat
                  || (TextToSpeech.size_t 0 >=? Z.of_nat (length ["   "]))%Z
                  = false) by reflexivity.
  assert (Hfail : TextToSpeech.result
                    (TextToSpeech.speak false accepting_speak
                       (nth (Z.to_nat (TextToSpeech.size_t 0)) ["   "] ""))
                    (Playback.stored ["   "] 0 s) = Return false)
    by (vm_compute; reflexivity).
  split; [exact Htest | split; [exact Hfail|]].
  destruct (speakChunked_failed_start false accepting_speak ["   "] 0 s
              Htest Hfail) as (Hr & Hc & Hi & Hk & _).
  split; [exact Hr | split; [exact Hc | split; [exact Hi | exact Hk]]].
Defined.

(** Witness of C4 (amended): [stop] after an utterance and a progress
    event. *)
Lemma transition_to_Stopped_witness :
  let ops := TextToSpeech.run_all false accepting_speak unknown_voice
               idle idle idle idle_settings in
  let s := ops [TextToSpeech.OpSpeak "hello";
                TextToSpeech.EvProgress TextToSpeech.float_0_5 3 10]
               (TextToSpeech.new_Impl tt) in
  let s' := ops [TextToSpeech.OpStop] s in
  TextToSpeech.state s <> TextToSpeech.Stopped /\
  TextToSpeech.state s' = TextToSpeech.Stopped /\
  TextToSpeech.chunks s' = [] /\ TextToSpeech.currentChunk s' = 0%Z /\
  TextToSpeech.isChunked s' = false /\
  TextToSpeech.currentWordIndex s' = TextToSpeech.currentWordIndex s.
Proof.
  intros ops s s'.
  assert (Hs : TextToSpeech.state s <> TextToSpeech.Stopped)
    by (vm_compute; discriminate).
  assert (Hs' : TextToSpeech.state s' = TextToSpeech.Stopped)
    by (vm_compute; reflexivity).
  split; [exact Hs | split; [exact Hs'|]].
  destruct (transition_to_Stopped false accepting_speak unknown_voice
              idle idle idle idle_settings TextToSpeech.OpStop s Hs Hs')
    as (_ & Hc & Hi & Hk & _ & Hw & _).
  split; [exact Hc | split; [exact Hi | split; [exact Hk | exact Hw]]].
Defined.

(** C4 as stated fails: after an utterance and a progress event
    [(0.5, 3, 10)], [stop] and likewise the finished event take the
    controller from [Speaking] to [Stopped] and leave [progress],
    [currentWordIndex] and [totalWords] at 0.5, 3 and 10. *)
Lemma Stopped_keeps_progress :
  let ops := TextToSpeech.run_all false accepting_speak unknown_voice
               idle idle idle idle_settings in
  let s := ops [TextToSpeech.OpSpeak "hello";
                TextToSpeech.EvProgress TextToSpeech.float_0_5 3 10]
               (TextToSpeech.new_Impl tt) in
  TextToSpeech.state s = TextToSpeech.Speaking /\
  (forall op, op = TextToSpeech.OpStop \/ op = TextToSpeech.EvSpeechFinished ->
     let s' := ops [op] s in
     TextToSpeech.state s' = TextToSpeech.Stopped /\
     TextToSpeech.progress s' = TextToSpeech.float_0_5 /\
     TextToSpeech.progress s' <> TextToSpeech.float_0_0 /\
     TextToSpeech.currentWordIndex s' = 3%Z /\
     TextToSpeech.totalWords s' = 10%Z).
Proof.
  split; [vm_compute; reflexivity|].
  intros op [->| ->]; vm_compute; repeat split; discriminate.
Qed.

(** * Further properties *)

(** ** trim *)

Lemma strip_trailing_None (s : string) :
  find_last_not_of " " s = None -> strip_trailing s = "".
Proof.
  induction s as [|x s IH]; simpl; [reflexivity|].
  destruct (find_last_not_of " " s); [discriminate|].
  destruct (Ascii.eqb x " "); [|discriminate].
  intros _. now rewrite IH.
Qed.

Lemma strip_trailing_Some (s : string) (l : nat) :
  find_last_not_of " " s = Some l ->
  empty (strip_trailing s) = false /\ substring 0 (S l) s = strip_trailing s.
Proof.
  revert l. induction s as [|x s IH]; simpl; [discriminate|].
  intros l. destruct (find_last_not_of " " s) as [i|] eqn:E.
  - intros [= <-]. destruct (IH i eq_refl) as [Hne Hsub].
    rewrite Hne, andb_false_r. split; [reflexivity|].
    now rewrite Hsub.
  - destruct (Ascii.eqb x " "); [discriminate|]. intros [= <-].
    rewrite (strip_trailing_None s E). simpl. split; [reflexivity|].
    now destruct s.
Qed.

Lemma trim_strip (s : string) : trim s = strip_trailing (drop_leading s).
Proof.
  induction s as [|x s IH]; [reflexivity|].
  destruct (Ascii.eqb x " ") eqn:Hx.
  - unfold trim in *.
    cbn [find_first_not_of find_last_not_of drop_leading]. rewrite Hx.
    destruct (find_first_not_of " " s) as [f|]; cbn [option_map].
    + destruct (find_last_not_of " " s) as [l|]; simpl; exact IH.
    + exact IH.
  - unfold trim. cbn [find_first_not_of drop_leading]. rewrite Hx.
    destruct (find_last_not_of " " (String x s)) as [l|] eqn:E.
    + rewrite Nat.sub_0_r, Nat.add_1_r.
      exact (proj2 (strip_trailing_Some (String x s) l E)).
    + simpl in E. rewrite Hx in E.
      destruct (find_last_not_of " " s); discriminate.
Qed.

Lemma drop_leading_spec (s : string) :
  leading_space (drop_leading s) = false /\
  exists a, s = a ++ drop_leading s /\ only_spaces a = true.
Proof.
  induction s as [|x s [IH1 (a & IH2 & IH3)]]; simpl.
  - split; [reflexivity|]. now exists "".
  - destruct (Ascii.eqb x " ") eqn:Hx.
    + split; [exact IH1|]. exists (String x a). simpl.
      rewrite Hx, IH3. split; [now rewrite <- IH2 | reflexivity].
    + split; [simpl; exact Hx|]. now exists "".
Qed.

Lemma strip_trailing_trailing (s : string) :
  trailing_space (strip_trailing s) = false.
Proof.
  induction s as [|x s IH]; simpl; [reflexivity|].
  destruct (strip_trailing s) as [|y r] eqn:Es; simpl.
  - rewrite andb_true_r. destruct (Ascii.eqb x " ") eqn:Hx; simpl;
      [reflexivity | exact Hx].
  - rewrite andb_false_r. exact IH.
Qed.

Lemma strip_trailing_leading (s : string) :
  leading_space s = false -> leading_space (strip_trailing s) = false.
Proof.
  destruct s as [|x s]; simpl; [reflexivity|]. intros Hx. now rewrite Hx.
Qed.

Lemma strip_trailing_suffix (s : string) :
  exists b, s = strip_trailing s ++ b /\ only_spaces b = true.
Proof.
  induction s as [|x s (b & IH1 & IH2)]; simpl; [now exists ""|].
  destruct (Ascii.eqb x " " && empty (strip_trailing s)) eqn:E.
  - apply andb_prop in E as [Hx He]. apply empty_true in He.
    rewrite He in IH1. simpl in IH1. subst b.
    exists (String x s). simpl. now rewrite Hx, IH2.
  - exists b. simpl. now rewrite <- IH1.
Qed.

Lemma drop_leading_id (s : string) :
  leading_space s = false -> drop_leading s = s.
Proof. destruct s as [|x s]; simpl; [reflexivity|]. now intros ->. Qed.

Lemma strip_trailing_id (s : string) :
  trailing_space s = false -> strip_trailing s = s.
Proof.
  induction s as [|x s IH]; simpl; [reflexivity|].
  destruct s as [|y s'].
  - simpl. now intros ->.
  - intros H. rewrite (IH H). simpl. now rewrite andb_false_r.
Qed.

(** X1: [trim] drops the spaces at both ends and nothing else.  The result
    neither starts nor ends with a space; the text is the result between
    two runs of spaces; [trim] is idempotent and leaves a text alone exactly
    when it has no space at either end. *)
Theorem trim_drops_outer_spaces (s : string) :
  trim s = strip_trailing (drop_leading s) /\
  leading_space (trim s) = false /\
  trailing_space (trim s) = false /\
  (exists a b, s = a ++ trim s ++ b /\
               only_spaces a = true /\ only_spaces b = true) /\
  trim (trim s) = trim s /\
  (trim s = s <-> leading_space s = false /\ trailing_space s = false).
Proof.
  rewrite !trim_strip.
  destruct (drop_leading_spec s) as (Hl & a & Ha & Hsa).
  pose proof (strip_trailing_leading _ Hl) as Hl'.
  pose proof (strip_trailing_trailing (drop_leading s)) as Ht'.
  assert (Hid : forall t, leading_space t = false ->
                          trailing_space t = false ->
                          strip_trailing (drop_leading t) = t).
  { intros t H1 H2. now rewrite (drop_leading_id t H1), strip_trailing_id. }
  split; [reflexivity|]. split; [exact Hl'|]. split; [exact Ht'|].
  split; [|split].
  - destruct (strip_trailing_suffix (drop_leading s)) as (b & Hb & Hsb).
    exists a, b. split; [|split; assumption].
    rewrite <- Hb. exact Ha.
  - now apply Hid.
  - split.
    + intros H. rewrite <- H. split; assumption.
    + intros [H1 H2]. now apply Hid.
Qed.

(** ** regex_replace on the two patterns of TextToSpeech.cpp *)

Lemma replace_matches_empty (r : Regex.regex) (prev : option ascii) :
  Regex.match_here r false prev "" = None ->
  forall n, Regex.replace_matches r "" prev n "" = ""
            /\ forall fmt, Regex.replace_matches r fmt prev n "" = "".
Proof.
  intros H n. destruct n; simpl; [rewrite H|]; split; reflexivity.
Qed.

Lemma replace_matches_step (r : Regex.regex) (fmt : string)
    (prev : option ascii) (c : ascii) (s : string) :
  Regex.replace_matches r fmt prev 0 (String c s)
  = match Regex.match_here r false prev (String c s) with
    | None => String c (Regex.replace_matches r fmt (Some c) 0 s)
    | Some rest =>
        if (String.length rest <? S (String.length s))%nat
        then fmt ++ Regex.replace_matches r fmt (Some c)
                      (String.length s - String.length rest) s
        else fmt ++
             match Regex.match_here r true prev (String c s) with
             | Some rest' =>
                 fmt ++ Regex.replace_matches r fmt (Some c)
                          (String.length s - String.length rest') s
             | None => String c (Regex.replace_matches r fmt (Some c) 0 s)
             end
    end.
Proof. reflexivity. Qed.

(** One character of a class, replaced by nothing. *)
Lemma match_here_single (a : Regex.Atom) (prev : option ascii) (s : string) :
  Regex.match_here [[Regex.TAtom a 1 (Some 1)]] false prev s
  = match s with
    | String c s' => if Regex.atom_matches a c then Some s' else None
    | EmptyString => None
    end.
Proof.
  destruct s as [|c s']; [reflexivity|].
  simpl. destruct (Regex.atom_matches a c); [|reflexivity].
  now destruct s'.
Qed.

Lemma replace_single (a : Regex.Atom) :
  (forall c, Regex.atom_matches a c = is_control c) ->
  forall s prev,
    Regex.replace_matches [[Regex.TAtom a 1 (Some 1)]] "" prev 0 s
    = remove_control s.
Proof.
  intros Ha. induction s as [|c s IH]; intros prev; [reflexivity|].
  rewrite replace_matches_step, match_here_single, Ha.
  cbn [remove_control]. destruct (is_control c).
  - assert (E : (String.length s <? S (String.length s))%nat = true)
      by (apply Nat.ltb_lt; lia).
    rewrite E, Nat.sub_diag. simpl. apply IH.
  - now rewrite IH.
Qed.

(** A run of two or more white-space characters, replaced by a space. *)
Lemma length_skip_run (s : string) :
  (String.length (skip_run s) + run_length s = String.length s)%nat.
Proof.
  induction s as [|c s IH]; simpl; [reflexivity|].
  destruct (isspace c); simpl; lia.
Qed.

Lemma run_of_run_length (s : string) : run_of (run_length s) s = true.
Proof.
  induction s as [|c s IH]; simpl; [reflexivity|].
  destruct (isspace c) eqn:Hc; simpl; [now rewrite Hc | now rewrite Hc].
Qed.

Lemma match_repeat_run (a : Regex.Atom)
    (k : option ascii -> string -> option string) :
  (forall c, Regex.atom_matches a c = isspace c) ->
  (forall p s, k p s = Some s) ->
  forall s lo prev,
    Regex.match_repeat a k lo None prev s
    = if (lo <=? run_length s)%nat then Some (skip_run s) else None.
Proof.
  intros Ha Hk. induction s as [|c s IH]; intros lo prev; simpl.
  - rewrite Hk. now destruct lo.
  - rewrite Ha, Hk. destruct (isspace c); simpl.
    + rewrite IH. destruct lo as [|lo]; simpl.
      * reflexivity.
      * destruct (lo <=? run_length s)%nat; reflexivity.
    + now destruct lo.
Qed.

Lemma match_here_run (a : Regex.Atom) (prev : option ascii) (s : string) :
  (forall c, Regex.atom_matches a c = isspace c) ->
  Regex.match_here [[Regex.TAtom a 2 None]] false prev s
  = if (2 <=? run_length s)%nat then Some (skip_run s) else None.
Proof.
  intros Ha. cbn [Regex.match_here Regex.match_terms].
  rewrite (match_repeat_run a _ Ha) by reflexivity.
  now destruct (2 <=? run_length s)%nat.
Qed.

Lemma collapse_after_run (s : string) :
  starts_with_space s = false -> collapse true s = collapse false s.
Proof. destruct s as [|c s]; simpl; [reflexivity|]. now intros ->. Qed.

Lemma replace_run (a : Regex.Atom) :
  (forall c, Regex.atom_matches a c = isspace c) ->
  forall s,
    (forall prev,
       Regex.replace_matches [[Regex.TAtom a 2 None]] " " prev 0 s
       = collapse false s) /\
    (forall prev n, run_of n s = true ->
       Regex.replace_matches [[Regex.TAtom a 2 None]] " " prev n s
       = collapse true s).
Proof.
  intros Ha. induction s as [|c s [IH0 IHn]].
  - split; [reflexivity|]. intros prev [|n] H; [reflexivity | discriminate].
  - split.
    + intros prev. rewrite replace_matches_step, (match_here_run a _ _ Ha).
      cbn [run_length skip_run collapse].
      destruct (isspace c) eqn:Hc.
      * destruct s as [|d s'].
        { reflexivity. }
        cbn [run_length starts_with_space].
        destruct (isspace d) eqn:Hd.
        -- cbn [Nat.leb].
           pose proof (length_skip_run (String d s')) as Hlen.
           cbn [skip_run] in Hlen |- *. rewrite Hd in Hlen |- *.
           assert (E : (String.length (skip_run s')
                        <? S (String.length (String d s')))%nat = true).
           { apply Nat.ltb_lt. cbn [run_length String.length] in Hlen |- *.
             lia. }
           rewrite E. cbn [append]. f_equal.
           apply IHn.
           replace (String.length (String d s')
                    - String.length (skip_run s'))%nat
             with (run_length (String d s')).
           ++ apply run_of_run_length.
           ++ cbn [run_length String.length] in Hlen |- *.
              rewrite Hd in Hlen |- *. lia.
        -- cbn [Nat.leb]. now rewrite IH0.
      * cbn [Nat.leb]. now rewrite IH0.
    + intros prev [|n] H.
      * rewrite collapse_after_run
          by (cbn [run_of] in H; now apply negb_true_iff in H).
        cbn [run_of] in H. apply negb_true_iff in H. simpl in H.
        rewrite replace_matches_step, (match_here_run a _ _ Ha).
        cbn [run_length skip_run collapse]. rewrite H. cbn [Nat.leb].
        now rewrite IH0.
      * cbn [run_of] in H. apply andb_prop in H as [Hc H].
        cbn [Regex.replace_matches collapse]. rewrite Hc.
        destruct n as [|n].
        -- rewrite IH0. cbn [run_of] in H. apply negb_true_iff in H.
           now rewrite collapse_after_run.
        -- now apply IHn.
Qed.

(** ** cleanTextForTTS of TextToSpeech.cpp *)

Lemma control_class_matches (c : ascii) :
  Regex.atom_matches
    (Regex.ASet false
       [Regex.CRange "000" "008"; Regex.CChar "011"; Regex.CChar "012";
        Regex.CRange "014" "031"; Regex.CChar "127"]) c
  = is_control c.
Proof. destruct c as [[] [] [] [] [] [] [] []]; reflexivity. Qed.

Lemma space_class_matches (c : ascii) :
  Regex.atom_matches (Regex.ASet false [Regex.CSpace false]) c = isspace c.
Proof. simpl. now rewrite orb_false_r. Qed.

Lemma speech_patterns_compile (strict : bool) :
  Regex.compile strict "[\x00-\x08\x0B\x0C\x0E-\x1F\x7F]"
  = Return [[Regex.TAtom
               (Regex.ASet false
                  [Regex.CRange "000" "008"; Regex.CChar "011";
                   Regex.CChar "012"; Regex.CRange "014" "031";
                   Regex.CChar "127"]) 1 (Some 1)]] /\
  Regex.compile strict "\s{2,}"
  = Return [[Regex.TAtom (Regex.ASet false [Regex.CSpace false]) 2 None]].
Proof. destruct strict; split; vm_compute; reflexivity. Qed.

Lemma cleanTextForTTS_cleaned (strict : bool) (txt : string) :
  TextToSpeech.cleanTextForTTS strict txt = Return (cleaned txt).
Proof.
  destruct (speech_patterns_compile strict) as [E1 E2].
  unfold TextToSpeech.cleanTextForTTS, cleaned.
  rewrite (bind_regex_replace strict _ _ "" _ _ E1 eq_refl).
  rewrite (replace_single _ control_class_matches).
  rewrite (bind_regex_replace strict _ _ " " _ _ E2 eq_refl).
  rewrite (proj1 (replace_run _ space_class_matches _)).
  now rewrite trim_strip.
Qed.

Lemma is_control_space : is_control " " = false.
Proof. reflexivity. Qed.

Lemma no_control_remove (s : string) : no_control (remove_control s) = true.
Proof.
  induction s as [|c s IH]; simpl; [reflexivity|].
  destruct (is_control c) eqn:E; simpl; [exact IH | now rewrite E].
Qed.

Lemma no_control_collapse (s : string) :
  no_control s = true ->
  forall b, no_control (collapse b s) = true.
Proof.
  induction s as [|c s IH]; simpl; [reflexivity|].
  intros H b. apply andb_prop in H as [Hc H].
  destruct (isspace c); [destruct b; [|destruct (starts_with_space s)]|];
    simpl; rewrite ?Hc, ?IH; auto.
Qed.

Lemma no_control_drop_leading (s : string) :
  no_control s = true -> no_control (drop_leading s) = true.
Proof.
  induction s as [|c s IH]; simpl; [reflexivity|].
  intros H. destruct (Ascii.eqb c " "); [|exact H].
  apply andb_prop in H as [_ H]. now apply IH.
Qed.

Lemma no_control_strip_trailing (s : string) :
  no_control s = true -> no_control (strip_trailing s) = true.
Proof.
  induction s as [|c s IH]; simpl; [reflexivity|].
  intros H. apply andb_prop in H as [Hc H].
  destruct (Ascii.eqb c " " && empty (strip_trailing s)); [reflexivity|].
  simpl. now rewrite Hc, IH.
Qed.

Lemma collapse_runs (s : string) :
  no_space_run (collapse false s) = true /\
  no_space_run (collapse true s) = true /\
  starts_with_space (collapse true s) = false /\
  (starts_with_space s = false ->
   starts_with_space (collapse false s) = false).
Proof.
  induction s as [|c s (IH1 & IH2 & IH3 & IH4)]; [now repeat split|].
  cbn [collapse starts_with_space].
  destruct (isspace c) eqn:Hc.
  - split; [|split; [exact IH2 | split; [exact IH3 | discriminate]]].
    destruct (starts_with_space s) eqn:Hs; cbn [no_space_run].
    + now rewrite IH3, andb_false_r, IH2.
    + now rewrite (IH4 eq_refl), andb_false_r, IH1.
  - cbn [no_space_run starts_with_space]. rewrite Hc, IH1.
    now repeat split.
Qed.

Lemma no_space_run_drop_leading (s : string) :
  no_space_run s = true -> no_space_run (drop_leading s) = true.
Proof.
  induction s as [|c s IH]; simpl; [reflexivity|].
  intros H. destruct (Ascii.eqb c " "); [|exact H].
  apply andb_prop in H as [_ H]. now apply IH.
Qed.

Lemma starts_with_space_strip (s : string) :
  starts_with_space (strip_trailing s) = true -> starts_with_space s = true.
Proof.
  destruct s as [|c s]; simpl; [discriminate|].
  destruct (Ascii.eqb c " " && empty (strip_trailing s)); [discriminate|].
  now simpl.
Qed.

Lemma no_space_run_strip_trailing (s : string) :
  no_space_run s = true -> no_space_run (strip_trailing s) = true.
Proof.
  induction s as [|c s IH]; simpl; [reflexivity|].
  intros H. apply andb_prop in H as [Hc H].
  destruct (Ascii.eqb c " " && empty (strip_trailing s)); [reflexivity|].
  simpl. rewrite (IH H), andb_true_r.
  destruct (isspace c); [|reflexivity]. simpl in *.
  destruct (starts_with_space (strip_trailing s)) eqn:E; [|reflexivity].
  now rewrite (starts_with_space_strip s E) in Hc.
Qed.

Lemma cleaned_is_clean (txt : string) : is_clean (cleaned txt) = true.
Proof.
  unfold is_clean, cleaned.
  set (t := collapse false (remove_control txt)).
  assert (Hc : no_control t = true)
    by (apply no_control_collapse, no_control_remove).
  assert (Hr : no_space_run t = true) by apply collapse_runs.
  rewrite (no_control_strip_trailing _ (no_control_drop_leading _ Hc)).
  rewrite (no_space_run_strip_trailing _ (no_space_run_drop_leading _ Hr)).
  rewrite (strip_trailing_leading _ (proj1 (drop_leading_spec t))).
  now rewrite strip_trailing_trailing.
Qed.

Lemma remove_control_id (s : string) :
  no_control s = true -> remove_control s = s.
Proof.
  induction s as [|c s IH]; simpl; [reflexivity|].
  intros H. apply andb_prop in H as [Hc H].
  apply negb_true_iff in Hc. now rewrite Hc, IH.
Qed.

Lemma collapse_id (s : string) :
  no_space_run s = true -> collapse false s = s.
Proof.
  induction s as [|c s IH]; simpl; [reflexivity|].
  intros H. apply andb_prop in H as [Hc H].
  apply negb_true_iff in Hc. rewrite (IH H).
  destruct (isspace c); [|reflexivity].
  simpl in Hc. now rewrite Hc.
Qed.

Lemma clean_cleaned (t : string) : is_clean t = true -> cleaned t = t.
Proof.
  unfold is_clean, cleaned. intros H.
  apply andb_prop in H as [H Ht]. apply andb_prop in H as [H Hl].
  apply andb_prop in H as [Hc Hr].
  apply negb_true_iff in Ht, Hl.
  now rewrite remove_control_id, collapse_id, drop_leading_id,
    strip_trailing_id.
Qed.

(** X2: for every text, [cleanTextForTTS] of TextToSpeech.cpp returns (it
    never throws), and what it returns holds no control character of the
    class it removes, no two adjacent white-space characters and no space at
    either end; it is the text without those control characters, with every
    run of white space collapsed to one space and the outer spaces
    dropped. *)
Theorem speech_cleanTextForTTS_result (strict : bool) (txt : string) :
  exists t,
    TextToSpeech.cleanTextForTTS strict txt = Return t /\
    t = strip_trailing (drop_leading (collapse false (remove_control txt))) /\
    no_control t = true /\ no_space_run t = true /\
    leading_space t = false /\ trailing_space t = false.
Proof.
  exists (cleaned txt). split; [apply cleanTextForTTS_cleaned|].
  split; [reflexivity|].
  pose proof (cleaned_is_clean txt) as H. unfold is_clean in H.
  apply andb_prop in H as [H Ht]. apply andb_prop in H as [H Hl].
  apply andb_prop in H as [Hc Hr].
  apply negb_true_iff in Ht, Hl. now repeat split.
Qed.

(** X3: cleaning is idempotent, and a text that is already clean (no such
    control character, no two adjacent white-space characters, no space at
    either end) is returned as it is. *)
Theorem speech_cleanTextForTTS_idempotent (strict : bool) (txt : string) :
  bindE (TextToSpeech.cleanTextForTTS strict txt)
        (TextToSpeech.cleanTextForTTS strict)
  = TextToSpeech.cleanTextForTTS strict txt /\
  (is_clean txt = true ->
   TextToSpeech.cleanTextForTTS strict txt = Return txt).
Proof.
  rewrite !cleanTextForTTS_cleaned. simpl.
  rewrite cleanTextForTTS_cleaned.
  split.
  - now rewrite (clean_cleaned _ (cleaned_is_clean txt)).
  - intros H. now rewrite (clean_cleaned _ H).
Qed.

(** Witness of X3: "hello world" is clean. *)
Lemma speech_cleanTextForTTS_idempotent_witness :
  is_clean "hello world" = true /\
  TextToSpeech.cleanTextForTTS false "hello world" = Return "hello world".
Proof.
  split; [reflexivity|].
  exact (proj2 (speech_cleanTextForTTS_idempotent false "hello world")
               eq_refl).
Defined.

(** ** The playback controller, further *)

Section ControllerFurther.

Import TextToSpeech Playback Session.

Variable strict : bool.
Context {Native : Type}.
Variable nativeSpeak : Native -> SpeechSettings -> string -> Native * bool.
Variable nativeSetVoice : Native -> string -> Native * bool.
Variable nativePause nativeResume nativeStop : Native -> Native.
Variable nativeSetSettings : Native -> SpeechSettings -> Native.

Abbreviation Impl := (@Impl Native).
Abbreviation speak := (speak strict nativeSpeak).
Abbreviation speakPlatform := (speakPlatform nativeSpeak).
Abbreviation speakCurrentChunk := (speakCurrentChunk strict nativeSpeak).
Abbreviation speakChunked := (speakChunked strict nativeSpeak).
Abbreviation onSpeechFinished := (onSpeechFinished strict nativeSpeak).
Abbreviation stop := (stop nativeStop).
Abbreviation pause := (pause nativePause).
Abbreviation resume := (resume nativeResume).
Abbreviation run := (run strict nativeSpeak nativeSetVoice nativePause
                         nativeResume nativeStop nativeSetSettings).
Abbreviation run_all := (run_all strict nativeSpeak nativeSetVoice
                           nativePause nativeResume nativeStop
                           nativeSetSettings).
Abbreviation accepts := (Playback.accepts strict nativeSpeak).
Abbreviation spoken := (Playback.spoken nativeSpeak).
Abbreviation stored := (@Playback.stored Native).
Abbreviation finished := (@Playback.finished Native).
Abbreviation playing := (@Session.playing Native).
Abbreviation playback_events := (@Session.playback_events Native).
Abbreviation same_members := (@Session.same_members Native).
Abbreviation setSettings := (setSettings nativeSetSettings).
Abbreviation setVoice := (setVoice nativeSetVoice).
Abbreviation progress_members := (@Session.progress_members Native).
Abbreviation session_ok := (@Session.session_ok Native).
Abbreviation after_finished := (Session.after_finished strict nativeSpeak).

Lemma speak_cleaned (txt : string) (s : Impl) :
  speak txt s
  = if empty (cleaned txt) then (Return false, s)
    else speakPlatform (cleaned txt) s.
Proof.
  unfold TextToSpeech.speak.
  destruct (empty txt) eqn:Ht.
  - apply empty_true in Ht. subst txt. reflexivity.
  - unfold bind, lift at 1. rewrite cleanTextForTTS_cleaned.
    now destruct (empty (cleaned txt)).
Qed.

(** X4: [speak] never throws.  It returns [false] and leaves the object as
    it is when the cleaned text is empty (an empty text among them), without
    asking the engine; otherwise it hands the cleaned text to the engine and
    returns its answer: on acceptance the state is [Speaking] and the
    started callback, if set, has been invoked; on refusal only the engine
    has changed. *)
Theorem speak_outcome (txt : string) (s : Impl) :
  speak txt s
  = let t := cleaned txt in
    if empty t then (Return false, s)
    else
      let '(n, accepted) := nativeSpeak (native s) (settings s) t in
      if accepted then (Return true, spoken t s)
      else (Return false, set_native n s).
Proof.
  rewrite speak_cleaned. cbv zeta.
  destruct (empty (cleaned txt)); [reflexivity|].
  unfold TextToSpeech.speakPlatform, onSpeechStarted, bind, get, modify,
    ret, when, Playback.spoken.
  destruct (nativeSpeak (native s) (settings s) (cleaned txt))
    as [n [|]] eqn:E; simpl; [|reflexivity].
  destruct (speechStartedCallback s); reflexivity.
Qed.

Lemma size_t_negative (i : Z) :
  (- 2 ^ 31 <= i < 0)%Z -> size_t i = (i + 2 ^ 64)%Z.
Proof.
  intros H. unfold size_t.
  rewrite <- (Z.mod_add i 1 (2 ^ 64)) by (vm_compute; discriminate).
  rewrite Z.mul_1_l. apply Z.mod_small.
  change (2 ^ 31)%Z with 2147483648%Z in H.
  change (2 ^ 64)%Z with 18446744073709551616%Z. lia.
Qed.

Lemma speakChunked_in_range (cs : list string) (i : Z) (s : Impl) :
  (Z.of_nat (length cs) < 2 ^ 63)%Z -> (- 2 ^ 31 <= i < 2 ^ 31)%Z ->
  speakChunked cs i s
  = if (0 <=? i)%Z && (i <? Z.of_nat (length cs))%Z
    then speak (nth (Z.to_nat i) cs "") (stored cs i s)
    else (Return false, s).
Proof.
  intros Hlen Hi.
  change (2 ^ 63)%Z with 9223372036854775808%Z in Hlen.
  assert (H31 : (2 ^ 31 = 2147483648)%Z) by reflexivity.
  assert (H64 : (2 ^ 64 = 18446744073709551616)%Z) by reflexivity.
  destruct (0 <=? i)%Z eqn:H0; cbn [andb].
  - apply Z.leb_le in H0.
    assert (Hs : size_t i = i) by (apply size_t_small; lia).
    destruct (i <? Z.of_nat (length cs))%Z eqn:H1.
    + apply Z.ltb_lt in H1.
      rewrite speakChunked_stores; [now rewrite Hs|].
      rewrite Hs. apply orb_false_intro.
      * apply Nat.eqb_neq. destruct cs; simpl in *; [lia | discriminate].
      * rewrite Z.geb_leb. apply Z.leb_gt. lia.
    + apply Z.ltb_ge in H1.
      apply speakChunked_refused. rewrite Hs. apply orb_true_intro. right.
      rewrite Z.geb_leb. now apply Z.leb_le.
  - apply Z.leb_gt in H0.
    apply speakChunked_refused. apply orb_true_intro. right.
    rewrite size_t_negative by lia.
    rewrite Z.geb_leb. apply Z.leb_le. lia.
Qed.

(** X5: [speakChunked] refuses an empty chunk sequence, a negative start
    index and one at or past the end: it returns [false] and leaves the
    object as it is.  With a start index inside the sequence it stores
    the arguments and speaks that chunk; the arguments stay stored whether
    or not the chunk is spoken. *)
Theorem speakChunked_argument_test (cs : list string) (i : Z) (s : Impl) :
  (Z.of_nat (length cs) < 2 ^ 63)%Z -> (- 2 ^ 31 <= i < 2 ^ 31)%Z ->
  let s' := after (speakChunked cs i) s in
  ((i < 0)%Z \/ (Z.of_nat (length cs) <= i)%Z ->
   speakChunked cs i s = (Return false, s)) /\
  ((0 <= i < Z.of_nat (length cs))%Z ->
   speakChunked cs i s = speak (nth (Z.to_nat i) cs "") (stored cs i s) /\
   chunks s' = cs /\ currentChunk s' = i /\ isChunked s' = true).
Proof.
  intros Hlen Hi s'. subst s'. unfold after.
  rewrite speakChunked_in_range by assumption. split.
  - intros H.
    destruct (0 <=? i)%Z eqn:H0; cbn [andb]; [|reflexivity].
    apply Z.leb_le in H0.
    replace (i <? Z.of_nat (length cs))%Z with false; [reflexivity|].
    symmetry. apply Z.ltb_ge. lia.
  - intros [H0 H1].
    replace (0 <=? i)%Z with true by (symmetry; now apply Z.leb_le).
    replace (i <? Z.of_nat (length cs))%Z with true
      by (symmetry; now apply Z.ltb_lt).
    cbn [andb]. split; [reflexivity|].
    destruct (speak_keeps_session strict nativeSpeak
                (nth (Z.to_nat i) cs "") (stored cs i s))
      as (Hc & Hk & Hch & _).
    unfold after in Hc, Hk, Hch. rewrite Hc, Hk, Hch. now repeat split.
Qed.


(** X6: [pause] does nothing unless the state is [Speaking], [resume]
    nothing unless it is [Paused]: the object stays as it is, the engine is
    not called and no callback is invoked.  So a second [pause] or [resume]
    changes nothing. *)
Theorem pause_resume_idle (s : Impl) :
  (state s <> Speaking -> pause s = (Return tt, s)) /\
  (state s <> Paused -> resume s = (Return tt, s)) /\
  after pause (after pause s) = after pause s /\
  after resume (after resume s) = after resume s.
Proof.
  unfold after, TextToSpeech.pause, TextToSpeech.resume, bind, get, modify,
    when, ret.
  destruct (state s) eqn:E; cbn [SpeechState_eqb fst snd];
    repeat split; try congruence; try (now rewrite E);
    try (destruct (speechPausedCallback s); reflexivity);
    try (destruct (speechResumedCallback s); reflexivity).
Qed.

(** X7: [pause] followed by [resume] while [Speaking] returns to [Speaking]
    with every member but the engine and the trace as before; the engine has
    been paused and resumed and the paused and resumed callbacks, where set,
    have been invoked once each, in that order. *)
Theorem pause_then_resume (s : Impl) :
  state s = Speaking ->
  let s1 := after pause s in
  let s2 := after resume s1 in
  state s1 = Paused /\ state s2 = Speaking /\
  same_members s s1 /\ same_members s s2 /\
  native s2 = nativeResume (nativePause (native s)) /\
  trace s2
  = (trace s ++ NativePause ::
       (if speechPausedCallback s then [CallbackPaused] else []) ++
       NativeResume ::
       (if speechResumedCallback s then [CallbackResumed] else []))%list.
Proof.
  intros E.
  unfold after, TextToSpeech.pause, TextToSpeech.resume, bind, get, modify,
    when, ret, same_members.
  rewrite E. cbn [SpeechState_eqb fst snd].
  destruct (speechPausedCallback s) eqn:Ep; cbn;
    destruct (speechResumedCallback s) eqn:Er; cbn;
    rewrite <- ?app_assoc; cbn; repeat split; auto.
Qed.

(** X8: [stop] ends in [Stopped] and invokes no callback.  From [Stopped] it
    does nothing at all, so chunks stored by a [speakChunked] whose first
    chunk was not spoken stay stored; from another state it stops the
    engine and empties the session.  A second [stop] changes nothing. *)
Theorem stop_outcome (s : Impl) :
  result stop s = Return tt /\
  state (after stop s) = Stopped /\
  (state s = Stopped -> after stop s = s) /\
  (state s <> Stopped ->
   chunks (after stop s) = [] /\ currentChunk (after stop s) = 0%Z /\
   isChunked (after stop s) = false /\
   native (after stop s) = nativeStop (native s) /\
   trace (after stop s) = (trace s ++ [NativeStop])%list) /\
  after stop (after stop s) = after stop s.
Proof.
  unfold result, after, TextToSpeech.stop, bind, get, modify, when, ret.
  destruct (state s) eqn:E; cbn; repeat split; try congruence;
    now rewrite ?E.
Qed.

(** ** The session invariant *)

Lemma session_ok_keeps (s s' : Impl) :
  keeps_session s s' -> session_ok s -> session_ok s'.
Proof.
  intros (Hc & Hi & Hk & _) H. unfold Session.session_ok in *.
  now rewrite Hc, Hi, Hk.
Qed.

Lemma session_ok_same (s s' : Impl) :
  chunks s' = chunks s -> currentChunk s' = currentChunk s ->
  isChunked s' = isChunked s -> session_ok s -> session_ok s'.
Proof.
  intros Hc Hi Hk H. unfold Session.session_ok in *. now rewrite Hc, Hi, Hk.
Qed.

Lemma session_ok_cleared (s : Impl) :
  chunks s = [] -> currentChunk s = 0%Z -> isChunked s = false ->
  session_ok s.
Proof.
  intros Hc Hi Hk. unfold Session.session_ok. rewrite Hc, Hi, Hk.
  split; [reflexivity | now split].
Qed.

Lemma session_ok_step (op : Op) (s : Impl) :
  op_ok op -> session_ok s -> session_ok (after (run op) s).
Proof.
  intros Hop Hs. destruct op; cbn [TextToSpeech.run].
  - rewrite after_forget.
    exact (session_ok_keeps _ _ (speak_keeps_session _ _ _ _) Hs).
  - rewrite after_forget. destruct Hop as [Hlen Hi].
    unfold after. rewrite speakChunked_in_range by (assumption || lia).
    destruct ((0 <=? startChunk)%Z
              && (startChunk <? Z.of_nat (length chunks0))%Z) eqn:E;
      [|exact Hs].
    apply andb_prop in E as [H0 H1].
    apply Z.leb_le in H0. apply Z.ltb_lt in H1.
    eapply session_ok_keeps; [apply speak_keeps_session|].
    unfold Session.session_ok, Playback.stored. cbn. split; [exact Hlen | lia].
  - apply session_ok_same with (s := s); try exact Hs;
      unfold after, TextToSpeech.pause, bind, get, modify, when, ret;
      cbn; destruct (SpeechState_eqb (state s) Speaking); cbn;
      try destruct (speechPausedCallback s); reflexivity.
  - apply session_ok_same with (s := s); try exact Hs;
      unfold after, TextToSpeech.resume, bind, get, modify, when, ret;
      cbn; destruct (SpeechState_eqb (state s) Paused); cbn;
      try destruct (speechResumedCallback s); reflexivity.
  - unfold after, TextToSpeech.stop, bind, get, modify, when, ret.
    destruct (state s) eqn:E; cbn;
      [exact Hs | now apply session_ok_cleared ..].
  - apply session_ok_same with (s := s); try exact Hs; reflexivity.
  - rewrite after_forget.
    apply session_ok_same with (s := s); try exact Hs;
      unfold after, TextToSpeech.setVoice, bind, get, modify, ret;
      destruct (nativeSetVoice (native s) voiceId0); reflexivity.
  - apply session_ok_same with (s := s); try exact Hs; reflexivity.
  - apply session_ok_same with (s := s); try exact Hs;
      unfold after, onSpeechStarted, bind, get, modify, when, ret; cbn;
      destruct (speechStartedCallback s); reflexivity.
  - unfold after. destruct (Playback.more_chunks s) eqn:Htest.
    + rewrite onSpeechFinished_continues by exact Htest.
      fold (after (forget speakCurrentChunk)
                  (set_currentChunk (currentChunk s + 1) s)).
      rewrite after_forget.
      eapply session_ok_keeps; [apply speakCurrentChunk_keeps_session|].
      unfold Playback.more_chunks in Htest.
      apply andb_prop in Htest as [Hk Hlt].
      unfold Session.session_ok in *. rewrite Hk in Hs. cbn. rewrite Hk.
      destruct Hs as [Hlen Hi]. split; [exact Hlen|].
      change (2 ^ 31)%Z with 2147483648%Z in Hlen.
      assert (H64 : (2 ^ 64 = 18446744073709551616)%Z) by reflexivity.
      rewrite !size_t_small in Hlt by lia.
      apply Z.ltb_lt in Hlt. lia.
    + rewrite onSpeechFinished_ends by exact Htest.
      destruct (finished_fields s) as (_ & Hc & Hi & Hk & _).
      now apply session_ok_cleared.
  - apply session_ok_same with (s := s); try exact Hs;
      unfold after, onProgress, bind, get, modify, when, ret; cbn;
      destruct (progressCallback s); reflexivity.
Qed.

(** X9: the chunk members stay consistent.  A fresh object has no chunks,
    index 0 and no chunked session, and after any sequence of operations and
    events on it either that is so again or a chunked session is active
    whose index lies inside the stored chunk sequence: [chunks[currentChunk]]
    is never read out of bounds. *)
Theorem session_invariant (n : Native) (ops : list Op) :
  Forall op_ok ops -> session_ok (run_all ops (new_Impl n)).
Proof.
  intros Hops.
  assert (Hs : session_ok (new_Impl n))
    by (apply session_ok_cleared; reflexivity).
  revert Hs. generalize (new_Impl n).
  induction Hops as [|op ops Hop _ IH]; intros s Hs; [exact Hs|].
  cbn [TextToSpeech.run_all]. apply IH. now apply session_ok_step.
Qed.

(** ** Playing a chunk sequence to its end *)

Lemma firstn_succ_nth {A : Type} (d : A) (l : list A) (j : nat) :
  (j < length l)%nat -> firstn (S j) l = (firstn j l ++ [nth j l d])%list.
Proof.
  revert j. induction l as [|a l IH]; intros j Hj; [simpl in Hj; lia|].
  destruct j as [|j]; [reflexivity|].
  simpl in Hj. change (firstn (S (S j)) (a :: l)) with (a :: firstn (S j) l).
  rewrite IH by lia. reflexivity.
Qed.

Lemma nth_skipn_add {A : Type} (d : A) (l : list A) (i j : nat) :
  nth j (skipn i l) d = nth (i + j) l d.
Proof.
  revert l. induction i as [|i IH]; intros l; [reflexivity|].
  destruct l as [|a l]; [now destruct j|]. apply IH.
Qed.

Lemma Forall2_nth_accepts (cs ts : list string) (m : nat) :
  Forall2 accepts cs ts -> (m < length cs)%nat ->
  accepts (nth m cs "") (nth m ts "").
Proof.
  intros H. revert m. induction H as [|c t cs ts Hct _ IH]; intros m Hm.
  - simpl in Hm. lia.
  - destruct m as [|m]; [exact Hct|]. simpl in Hm. apply IH. lia.
Qed.

Lemma playback_events_app (s : Impl) (l1 l2 : list string) :
  playback_events s (l1 ++ l2)
  = (playback_events s l1 ++ playback_events s l2)%list.
Proof. unfold Session.playback_events. now rewrite map_app, concat_app. Qed.

Lemma playing_start (cs ts : list string) (i : nat) (s : Impl) :
  Forall2 accepts cs ts -> (i < length cs)%nat ->
  (Z.of_nat (length cs) < 2 ^ 31)%Z ->
  playing cs i (spoken_events (nth i ts "") s) s
    (after (speakChunked cs (Z.of_nat i)) s).
Proof.
  intros Hacc Hi Hlen.
  change (2 ^ 31)%Z with 2147483648%Z in Hlen.
  unfold after. rewrite speakChunked_in_range by lia.
  replace (0 <=? Z.of_nat i)%Z with true by (symmetry; apply Z.leb_le; lia).
  replace (Z.of_nat i <? Z.of_nat (length cs))%Z with true
    by (symmetry; apply Z.ltb_lt; lia).
  cbn [andb]. rewrite Nat2Z.id.
  rewrite speak_accepted with (t := nth i ts "")
    by exact (Forall2_nth_accepts cs ts i Hacc Hi).
  cbn [snd].
  destruct (spoken_fields nativeSpeak (nth i ts "") (stored cs (Z.of_nat i) s))
    as (H1 & H2 & H3 & H4 & _ & _ & _ & H8 & H9 & H10).
  unfold Session.playing. rewrite H1, H2, H3, H4, H8, H9, H10.
  repeat split.
Qed.

Lemma playing_next (cs ts : list string) (m : nat) (evs : list Event)
    (s0 s : Impl) :
  Forall2 accepts cs ts -> (S m < length cs)%nat ->
  (Z.of_nat (length cs) < 2 ^ 31)%Z ->
  playing cs m evs s0 s ->
  playing cs (S m) (evs ++ spoken_events (nth (S m) ts "") s0) s0
    (after onSpeechFinished s).
Proof.
  intros Hacc Hm Hlen (H1 & H2 & H3 & H4 & H5 & H6 & H7).
  change (2 ^ 31)%Z with 2147483648%Z in Hlen.
  assert (H64 : (2 ^ 64 = 18446744073709551616)%Z) by reflexivity.
  assert (Hidx : (currentChunk s + 1)%Z = Z.of_nat (S m)) by lia.
  unfold after.
  rewrite onSpeechFinished_next with (t := nth (S m) ts "");
    try (rewrite ?H3, ?H4; assumption || lia).
  2: { rewrite Hidx, Nat2Z.id, H3.
       exact (Forall2_nth_accepts cs ts (S m) Hacc Hm). }
  cbn [snd]. rewrite Hidx.
  destruct (spoken_fields nativeSpeak (nth (S m) ts "")
              (set_currentChunk (Z.of_nat (S m)) s))
    as (G1 & G2 & G3 & G4 & _ & _ & _ & G8 & G9 & G10).
  unfold Session.playing. rewrite G1, G2, G3, G4, G8, G9, G10.
  cbn [TextToSpeech.chunks TextToSpeech.currentChunk TextToSpeech.isChunked
       TextToSpeech.speechStartedCallback TextToSpeech.speechFinishedCallback
       TextToSpeech.trace set_currentChunk].
  rewrite H7, <- app_assoc.
  unfold Playback.spoken_events.
  cbn [TextToSpeech.speechStartedCallback set_currentChunk].
  rewrite H5. repeat split; assumption.
Qed.

Lemma playing_last (cs : list string) (m : nat) (evs : list Event)
    (s0 s : Impl) :
  S m = length cs -> (Z.of_nat (length cs) < 2 ^ 31)%Z ->
  playing cs m evs s0 s ->
  let s' := after onSpeechFinished s in
  state s' = Stopped /\ chunks s' = [] /\ currentChunk s' = 0%Z /\
  isChunked s' = false /\
  trace s'
  = (trace s0 ++ evs ++
       (if speechFinishedCallback s0 then [CallbackFinished] else []))%list.
Proof.
  intros Hm Hlen (H1 & H2 & H3 & H4 & H5 & H6 & H7).
  change (2 ^ 31)%Z with 2147483648%Z in Hlen.
  assert (H64 : (2 ^ 64 = 18446744073709551616)%Z) by reflexivity.
  cbv zeta. unfold after.
  rewrite onSpeechFinished_last by (right; rewrite H3, H4; lia).
  cbn [snd].
  destruct (finished_fields s) as (G1 & G2 & G3 & G4 & _ & _ & _ & G8).
  rewrite G1, G2, G3, G4, G8, H6, H7, <- app_assoc. repeat split.
Qed.

Lemma playing_after (cs ts : list string) (i j : nat) (s : Impl) :
  Forall2 accepts cs ts -> (i + j < length cs)%nat ->
  (Z.of_nat (length cs) < 2 ^ 31)%Z ->
  playing cs (i + j) (playback_events s (firstn (S j) (skipn i ts))) s
    (after_finished j (after (speakChunked cs (Z.of_nat i)) s)).
Proof.
  intros Hacc Hj Hlen.
  assert (Hts : length ts = length cs)
    by (symmetry; exact (Forall2_length Hacc)).
  induction j as [|j IH].
  - rewrite Nat.add_0_r in *.
    rewrite (firstn_succ_nth "") by (rewrite length_skipn; lia).
    rewrite nth_skipn_add, Nat.add_0_r.
    cbn [firstn app]. unfold Session.playback_events at 1.
    cbn [map concat]. rewrite app_nil_r.
    now apply playing_start.
  - rewrite (firstn_succ_nth "") by (rewrite length_skipn; lia).
    rewrite nth_skipn_add, playback_events_app.
    unfold Session.playback_events at 2. cbn [map concat].
    rewrite app_nil_r.
    replace (i + S j)%nat with (S (i + j)) in * by lia.
    change (after_finished (S j) ?x)
      with (after onSpeechFinished (after_finished j x)).
    apply playing_next; try assumption. apply IH. lia.
Qed.

(** X10: chunked playback from chunk [i] of [n] chunks that the engine all
    takes.  After [speakChunked] and [j] finished events, [j < n - i], the
    controller is [Speaking] chunk [i + j], the chunks are stored, and the
    trace holds one engine call, with the started callback, for each of the
    chunks [i .. i + j], in order, and nothing else.  After [n - i] finished
    events the controller is [Stopped] with the session emptied, and the
    finished callback has been invoked once, at the very end. *)
Theorem chunked_playback (cs ts : list string) (i : nat) (s : Impl) :
  Forall2 accepts cs ts -> (i < length cs)%nat ->
  (Z.of_nat (length cs) < 2 ^ 31)%Z ->
  let s0 := after (speakChunked cs (Z.of_nat i)) s in
  (forall j, (i + j < length cs)%nat ->
     playing cs (i + j) (playback_events s (firstn (S j) (skipn i ts))) s
       (after_finished j s0)) /\
  let s' := after_finished (length cs - i) s0 in
  state s' = Stopped /\ chunks s' = [] /\ currentChunk s' = 0%Z /\
  isChunked s' = false /\
  trace s'
  = (trace s ++ playback_events s (skipn i ts) ++
       (if speechFinishedCallback s then [CallbackFinished] else []))%list.
Proof.
  intros Hacc Hi Hlen. cbv zeta. split.
  - intros j Hj. now apply playing_after.
  - assert (Hts : length ts = length cs)
      by (symmetry; exact (Forall2_length Hacc)).
    destruct (length cs - i)%nat as [|k] eqn:Hk; [lia|].
    change (after_finished (S k) ?x)
      with (after onSpeechFinished (after_finished k x)).
    replace (skipn i ts) with (firstn (S k) (skipn i ts))
      by (apply firstn_all2; rewrite length_skipn; lia).
    apply (playing_last cs (i + k)); [lia | assumption |].
    apply playing_after; [assumption | lia | assumption].
Qed.

(** ** A chunk that is not spoken *)

(** X11: when an utterance finishes and the next chunk is not spoken, because
    its cleaned text is empty or the engine refuses it, [onSpeechFinished]
    only advances [currentChunk]: the state stays as it was, no engine call
    is recorded, no callback is invoked and the session stays chunked.  The
    chunk is not skipped and the finished callback is not invoked. *)
Theorem unspoken_chunk_stalls (s : Impl) :
  isChunked s = true ->
  (0 <= currentChunk s)%Z ->
  (currentChunk s + 1 < Z.of_nat (length (chunks s)))%Z ->
  (Z.of_nat (length (chunks s)) < 2 ^ 31)%Z ->
  let t := cleaned (nth (Z.to_nat (currentChunk s + 1)) (chunks s) "") in
  empty t = true \/ snd (nativeSpeak (native s) (settings s) t) = false ->
  let s' := after onSpeechFinished s in
  result onSpeechFinished s = Return tt /\
  state s' = state s /\ isChunked s' = true /\
  currentChunk s' = (currentChunk s + 1)%Z /\ chunks s' = chunks s /\
  trace s' = trace s.
Proof.
  intros Hc H0 H1 Hlen t Ht. cbv zeta.
  change (2 ^ 31)%Z with 2147483648%Z in Hlen.
  assert (H64 : (2 ^ 64 = 18446744073709551616)%Z) by reflexivity.
  assert (Hmore : Playback.more_chunks s = true).
  { unfold Playback.more_chunks. rewrite Hc, !size_t_small by lia.
    apply Z.ltb_lt. lia. }
  assert (E : exists s',
             onSpeechFinished s = (Return tt, s') /\
             (s' = set_currentChunk (currentChunk s + 1) s \/
              exists n,
                s' = set_native n (set_currentChunk (currentChunk s + 1) s))).
  { rewrite onSpeechFinished_continues by exact Hmore.
    unfold forget, TextToSpeech.speakCurrentChunk.
    unfold bind at 1. unfold bind at 1, get at 1.
    cbn [TextToSpeech.isChunked TextToSpeech.currentChunk TextToSpeech.chunks
         set_currentChunk].
    rewrite Hc, size_t_small by lia.
    replace (currentChunk s + 1 <? Z.of_nat (length (chunks s)))%Z with true
      by (symmetry; apply Z.ltb_lt; lia).
    cbn [andb]. rewrite speak_cleaned. fold t.
    destruct (empty t) eqn:Et; [eexists; split; [reflexivity | now left]|].
    destruct Ht as [Ht | Ht]; [discriminate|].
    unfold TextToSpeech.speakPlatform, bind, get, modify, ret.
    cbn [TextToSpeech.native TextToSpeech.settings set_currentChunk].
    destruct (nativeSpeak (native s) (settings s) t) as [n acc].
    cbn [snd] in Ht. subst acc.
    eexists; split; [reflexivity | right; now exists n]. }
  destruct E as (s' & E & [-> | [n ->]]); unfold result, after; rewrite E;
    cbn; now rewrite Hc.
Qed.

(** ** Start events and settings *)

Lemma onSpeechStarted_cases (s : Impl) :
  onSpeechStarted s
  = (Return tt,
     if speechStartedCallback s
     then record CallbackStarted (set_state Speaking s)
     else set_state Speaking s).
Proof.
  unfold onSpeechStarted, bind, get, modify, when, ret. cbn.
  destruct (speechStartedCallback s); reflexivity.
Qed.

(** X12: [onSpeechStarted] puts the controller into [Speaking] from any
    state, also after [stop], keeps every other member and invokes the
    started callback once.  As the engine code calls it when it takes an
    utterance, a start event that the engine reports for the same utterance
    invokes the started callback a second time. *)
Theorem started_event_repeats (txt t : string) (s : Impl) :
  accepts txt t ->
  let s1 := after onSpeechStarted s in
  let s2 := after onSpeechStarted (after (speak txt) s) in
  state s1 = Speaking /\ same_members s s1 /\ native s1 = native s /\
  trace s1
  = (trace s ++
       (if speechStartedCallback s then [CallbackStarted] else []))%list
  /\
  state (after onSpeechStarted (after stop s)) = Speaking /\
  trace s2
  = (trace s ++ NativeSpeak t ::
       (if speechStartedCallback s
        then [CallbackStarted; CallbackStarted] else []))%list.
Proof.
  intros Hacc. cbv zeta. unfold after at 1 2 3 4 5.
  rewrite !onSpeechStarted_cases. cbn [snd].
  split; [now destruct (speechStartedCallback s)|].
  split.
  { unfold same_members.
    destruct (speechStartedCallback s) eqn:E; cbn; rewrite ?E;
      repeat split; reflexivity. }
  split; [now destruct (speechStartedCallback s)|].
  split.
  { destruct (speechStartedCallback s); cbn; now rewrite ?app_nil_r. }
  split; [now destruct (speechStartedCallback (after stop s))|].
  unfold after. rewrite speak_accepted with (t := t) by exact Hacc.
  cbn [snd]. rewrite onSpeechStarted_cases. cbn [snd].
  destruct (spoken_fields nativeSpeak t s)
    as (_ & _ & _ & _ & _ & _ & _ & H8 & _ & H10).
  rewrite H8. unfold Playback.spoken_events in H10.
  destruct (speechStartedCallback s) eqn:E; cbn;
    rewrite H10, <- ?app_assoc; reflexivity.
Qed.

(** X13: [setSettings] stores the settings and hands them to the engine;
    [getSettings] then returns them, and a later [speak] passes them to the
    engine with the utterance.  State, session, progress, callbacks and
    trace stay as they are.  [setVoice] after it changes the voice
    identifier alone. *)
Theorem setSettings_getSettings (v : SpeechSettings) (id : string)
    (s : Impl) :
  let s' := after (setSettings v) s in
  result getSettings s' = Return v /\
  settings s' = v /\
  native s' = nativeSetSettings (native s) v /\
  state s' = state s /\ trace s' = trace s /\
  chunks s' = chunks s /\ currentChunk s' = currentChunk s /\
  isChunked s' = isChunked s /\
  settings (after (setVoice id) s') = set_voiceId v id /\
  settings (after (setSettings v) (after (setVoice id) s)) = v.
Proof.
  cbv zeta.
  unfold result, after, TextToSpeech.setSettings, TextToSpeech.getSettings,
    TextToSpeech.setVoice, bind, get, modify, ret.
  cbn. destruct (nativeSetVoice (nativeSetSettings (native s) v) id).
  destruct (nativeSetVoice (native s) id). repeat split.
Qed.

(** ** The progress members *)

Lemma progress_members_keeps (s s' : Impl) :
  keeps_session s s' -> progress_members s' = progress_members s.
Proof.
  intros (_ & _ & _ & Hp & Hw & Ht & _). unfold Session.progress_members.
  now rewrite Hp, Hw, Ht.
Qed.

Lemma progress_members_step (op : Op) (s : Impl) :
  is_progress op = false ->
  progress_members (after (run op) s) = progress_members s.
Proof.
  intros Hop. destruct op; try discriminate; cbn [TextToSpeech.run].
  - rewrite after_forget.
    exact (progress_members_keeps _ _ (speak_keeps_session _ _ _ _)).
  - rewrite after_forget. unfold after.
    destruct ((length chunks0 =? 0)%nat
              || (size_t startChunk >=? Z.of_nat (length chunks0))%Z) eqn:E.
    + now rewrite speakChunked_refused.
    + rewrite speakChunked_stores by exact E.
      exact (progress_members_keeps _ _ (speak_keeps_session _ _ _ _)).
  - unfold after, TextToSpeech.pause, bind, get, modify, when, ret;
      cbn; destruct (SpeechState_eqb (state s) Speaking); cbn;
      try destruct (speechPausedCallback s); reflexivity.
  - unfold after, TextToSpeech.resume, bind, get, modify, when, ret;
      cbn; destruct (SpeechState_eqb (state s) Paused); cbn;
      try destruct (speechResumedCallback s); reflexivity.
  - unfold after, TextToSpeech.stop, bind, get, modify, when, ret.
    destruct (state s); reflexivity.
  - reflexivity.
  - rewrite after_forget.
    unfold after, TextToSpeech.setVoice, bind, get, modify, ret.
    destruct (nativeSetVoice (native s) voiceId0); reflexivity.
  - reflexivity.
  - unfold after. rewrite onSpeechStarted_cases. cbn [snd].
    destruct (speechStartedCallback s); reflexivity.
  - unfold after. destruct (Playback.more_chunks s) eqn:Htest.
    + rewrite onSpeechFinished_continues by exact Htest.
      fold (after (forget speakCurrentChunk)
                  (set_currentChunk (currentChunk s + 1) s)).
      rewrite after_forget.
      exact (progress_members_keeps _ _
               (speakCurrentChunk_keeps_session _ _ _)).
    + rewrite onSpeechFinished_ends by exact Htest.
      destruct (finished_fields s) as (_ & _ & _ & _ & Hp & Hw & Ht & _).
      unfold Session.progress_members. cbn [snd]. now rewrite Hp, Hw, Ht.
Qed.

(** X14: the progress members [progress], [currentWordIndex] and
    [totalWords] change with a progress event only: no operation and no
    other event resets them, neither [stop] nor the end of an utterance nor
    a new [speak].  A progress event stores its three values. *)
Theorem progress_only_by_event (ops : list Op) (s : Impl) :
  Forall (fun op => is_progress op = false) ops ->
  progress_members (run_all ops s) = progress_members s /\
  forall p w t,
    progress_members (after (onProgress p w t) (run_all ops s)) = (p, w, t).
Proof.
  intros Hops. split.
  - revert s. induction Hops as [|op ops Hop _ IH]; intros s; [reflexivity|].
    cbn [TextToSpeech.run_all]. rewrite IH.
    now apply progress_members_step.
  - intros p w t. generalize (run_all ops s). intros s'.
    unfold after, onProgress, bind, get, modify, when, ret,
      Session.progress_members.
    cbn. destruct (progressCallback s'); reflexivity.
Qed.

End ControllerFurther.

Section ExtractorFurther.

Import PDFTextExtractor.

(** ** Words *)

Lemma read_words_app_space (a b : string) (c : ascii) :
  isspace c = true ->
  forall word,
    read_words word (a ++ String c b)
    = (read_words word a ++ read_words "" b)%list.
Proof.
  intros Hc. induction a as [|x a IH]; intros word.
  - cbn [append read_words]. rewrite Hc. now destruct (empty word).
  - cbn [append read_words].
    destruct (isspace x); [|apply IH].
    destruct (empty word); rewrite IH; reflexivity.
Qed.

Lemma read_words_nil (s : string) :
  forall word,
    read_words word s = [] <-> empty word = true /\ all_space s = true.
Proof.
  induction s as [|c s IH]; intros word; cbn [read_words all_space].
  - destruct (empty word); split; try tauto; try discriminate.
    intros [H _]. discriminate.
  - destruct (isspace c) eqn:Hc; cbn [andb].
    + destruct (empty word) eqn:Hw.
      * rewrite IH. cbn [empty]. tauto.
      * split; [discriminate | intros [H _]; discriminate].
    + rewrite IH. split; [|intros [_ H]; discriminate].
      intros [H _]. destruct word; discriminate.
Qed.

(** X15: [splitIntoWords] returns the maximal white-space-free pieces of the
    text: every word is non-empty and holds no white space; there is none
    exactly when the text is white space only; white space between two
    texts separates their words; and the words of [joinWords ws] are [ws]
    again when [ws] are words, so [joinWords] after [splitIntoWords] is a
    normal form. *)
Theorem splitIntoWords_words (txt : string) :
  Forall is_word (splitIntoWords txt) /\
  (splitIntoWords txt = [] <-> all_space txt = true) /\
  (forall a b c, isspace c = true ->
     splitIntoWords (a ++ String c b)
     = (splitIntoWords a ++ splitIntoWords b)%list) /\
  (forall ws, Forall is_word ws -> splitIntoWords (joinWords ws) = ws) /\
  splitIntoWords (joinWords (splitIntoWords txt)) = splitIntoWords txt.
Proof.
  split; [apply splitIntoWords_are_words|].
  split.
  { unfold splitIntoWords. rewrite read_words_nil. cbn [empty]. tauto. }
  split.
  { intros a b c Hc. unfold splitIntoWords.
    now apply read_words_app_space. }
  split; [exact splitIntoWords_joinWords|].
  apply splitIntoWords_joinWords, splitIntoWords_are_words.
Qed.

(** ** Counting chunks *)

Lemma total_words_chunk_of (gs : list (list string)) :
  total_words (map chunk_of gs) = Z.of_nat (length (concat gs)).
Proof.
  unfold total_words. induction gs as [|g gs IH]; [reflexivity|].
  cbn [map fold_right concat wordCount chunk_of].
  rewrite IH, length_app, Nat2Z.inj_add. reflexivity.
Qed.

Lemma total_words_app (a b : list TextChunk) :
  total_words (a ++ b) = (total_words a + total_words b)%Z.
Proof.
  unfold total_words. induction a as [|c a IH]; [reflexivity|].
  cbn [app map fold_right]. rewrite IH. lia.
Qed.

Lemma chunkText_total_words (txt : string) (chunkSize : Z) :
  total_words (chunkText txt chunkSize)
  = Z.of_nat (length (splitIntoWords txt)).
Proof.
  rewrite chunkText_groups, total_words_chunk_of, groups_concat.
  reflexivity.
Qed.

Lemma chunk_count_exact (k size : Z) :
  (0 < size)%Z -> (0 <= k)%Z -> chunk_count (k * size) size = k.
Proof.
  intros Hs Hk. unfold chunk_count. symmetry.
  apply Z.div_unique with (r := (size - 1)%Z); lia.
Qed.

Lemma chunk_count_rest (k size r : Z) :
  (0 < r < size)%Z -> (0 <= k)%Z ->
  chunk_count (k * size + r) size = (k + 1)%Z.
Proof.
  intros Hr Hk. unfold chunk_count. symmetry.
  apply Z.div_unique with (r := (r - 1)%Z); lia.
Qed.

Lemma chunkText_length (txt : string) (targetSize : Z) :
  (0 < targetSize)%Z ->
  Z.of_nat (length (chunkText txt targetSize))
  = chunk_count (Z.of_nat (length (splitIntoWords txt))) targetSize.
Proof.
  intros Hpos.
  destruct (chunkText_sizes txt targetSize Hpos)
    as (full & rest & Hcs & _ & Hrest & Hsum).
  rewrite Hcs, Hsum, length_app, !length_map, Nat2Z.inj_add.
  destruct Hrest as [-> | (g & -> & Hg)].
  - cbn [concat length]. change (Z.of_nat 0) with 0%Z.
    rewrite !Z.add_0_r, chunk_count_exact by lia. reflexivity.
  - cbn [concat length]. rewrite app_nil_r.
    rewrite chunk_count_rest by lia. reflexivity.
Qed.

(** X16: [chunkText] loses and adds no word: the [wordCount] members add up
    to the number of words of the text, for every chunk size; and for a
    positive size the number of chunks is the number of words divided by
    the size, rounded up. *)
Theorem chunkText_counts (txt : string) (targetSize : Z) :
  let cs := chunkText txt targetSize in
  let n := Z.of_nat (length (splitIntoWords txt)) in
  total_words cs = n /\
  ((0 < targetSize)%Z ->
   Z.of_nat (length cs) = chunk_count n targetSize /\
   (Z.of_nat (length cs) * targetSize < n + targetSize)%Z /\
   (n <= Z.of_nat (length cs) * targetSize)%Z).
Proof.
  cbv zeta. split; [apply chunkText_total_words|].
  intros Hpos.
  destruct (chunkText_sizes txt targetSize Hpos)
    as (full & rest & Hcs & _ & Hrest & Hsum).
  split; [now apply chunkText_length|].
  rewrite Hcs, Hsum, length_app, !length_map, Nat2Z.inj_add.
  destruct Hrest as [-> | (g & -> & Hg)]; cbn [concat length];
    rewrite ?app_nil_r; nia.
Qed.

Lemma groups_small (n : nat) (ws : list string) :
  (n <= 1)%nat -> groups n [] ws = map (fun w => [w]) ws.
Proof.
  intros Hn. induction ws as [|w ws IH]; [reflexivity|].
  cbn [groups app length map].
  replace (n <=? 1)%nat with true by (symmetry; now apply Nat.leb_le).
  now rewrite IH.
Qed.

(** X17: with a chunk size of 1, 0 or a negative number, [chunkText] puts
    every word into a chunk of its own. *)
Theorem chunkText_small_size (txt : string) (chunkSize : Z) :
  (chunkSize <= 1)%Z ->
  chunkText txt chunkSize = map one_word_chunk (splitIntoWords txt).
Proof.
  intros H. rewrite chunkText_groups, groups_small by lia.
  rewrite map_map. apply map_ext. intros w.
  unfold chunk_of, one_word_chunk. rewrite joinWords_cons.
  cbn [spaced length]. now rewrite append_empty_r.
Qed.

(** ** The chunking decision *)

(** X18: the chunking decision for a cleaned text of [n] words, [n] an
    [int]: the result is a success that keeps the text and the page range;
    it is chunked exactly when [n > 10000], then into the chunks of
    [chunkText] with 10000 words to a chunk, which are two at least;
    otherwise its only chunk is the text itself with [n] words, also when
    the text holds no word at all.  Either way the word counts of the
    chunks add up to [n]. *)
Theorem decideChunking_result (range : PageRange) (cleaned : string) :
  let r := decideChunking (cleaned_result range cleaned) in
  let n := Z.of_nat (length (splitIntoWords cleaned)) in
  (n < 2 ^ 31)%Z ->
  success r = true /\ errorMessage r = "" /\ fullText r = cleaned /\
  pageRange r = Some range /\
  isChunked r = Some (n >? 10000)%Z /\
  chunks r = (if (n >? 10000)%Z then chunkText cleaned 10000
              else [{| text := cleaned; wordCount := n |}]) /\
  total_words (chunks r) = n /\
  ((n >? 10000)%Z = true -> (2 <= length (chunks r))%nat).
Proof.
  intros r n Hn. subst r.
  unfold decideChunking, cleaned_result.
  cbn [fullText set_fullText set_pageRange set_success new_result chunks].
  fold n. rewrite to_int_small by (subst n; lia).
  destruct (n >? 10000)%Z eqn:E.
  - cbn. repeat split.
    + apply chunkText_total_words.
    + intros _. apply Z.gtb_lt in E.
      pose proof (chunkText_length cleaned 10000 ltac:(lia)) as Hl.
      fold n in Hl. unfold chunk_count in Hl.
      assert (2 <= (n + 10000 - 1) / 10000)%Z
        by (apply Z.div_le_lower_bound; lia).
      lia.
  - cbn. repeat split; [unfold total_words; cbn; lia | discriminate].
Qed.

(** ** Extraction as a whole *)

Section Backend.

Variable strict : bool.
Variable fileGood : string -> bool.
Variable getPageCount : string -> Z.
Variable extractTextFromPDF : string -> Z -> Z -> string.

Lemma cleanTextForTTS_thrown (txt : string) :
  cleanTextForTTS strict txt = Throw (thrown strict).
Proof.
  destruct strict; unfold thrown.
  - exact (proj2 (cleanTextForTTS_throws txt)).
  - exact (proj1 (cleanTextForTTS_throws txt)).
Qed.

Lemma extractTextFromPages_text (filePath : string) (startPage endPage : Z) :
  let pageCount := getPageCount filePath in
  let first := Z.max 1 startPage in
  let last := Z.min pageCount endPage in
  (0 < pageCount)%Z -> (first <= last)%Z ->
  empty (extractTextFromPDF filePath first last) = false ->
  extractTextFromPages strict getPageCount extractTextFromPDF
    filePath startPage endPage
  = Throw (thrown strict).
Proof.
  intros pageCount first last Hp Hr He.
  unfold extractTextFromPages. fold pageCount first last.
  replace (pageCount <=? 0)%Z with false by (symmetry; apply Z.leb_gt; lia).
  replace (first >? last)%Z with false
    by (symmetry; rewrite Z.gtb_ltb; apply Z.ltb_ge; lia).
  rewrite He, cleanTextForTTS_thrown. reflexivity.
Qed.

Lemma extractTextFromPages_no_success (filePath : string)
    (startPage endPage : Z) (r : ExtractionResult) :
  extractTextFromPages strict getPageCount extractTextFromPDF
    filePath startPage endPage = Return r ->
  success r = false /\ fullText r = "" /\ chunks r = [] /\
  isChunked r = None.
Proof.
  unfold extractTextFromPages.
  destruct (getPageCount filePath <=? 0)%Z; [intros [= <-]; now repeat split|].
  destruct (_ >? _)%Z; [intros [= <-]; now repeat split|].
  destruct (empty _); [intros [= <-]; now repeat split|].
  rewrite cleanTextForTTS_thrown. discriminate.
Qed.

(** X19: no extraction succeeds.  Whenever the back end returns text for the
    pages, [extractTextFromPages] ends with the exception that [std::regex]
    throws in [cleanTextForTTS]; so every result that it or [extractText]
    returns is a failure without text and chunks, and the chunking decision
    is never reached. *)
Theorem extraction_never_succeeds (filePath : string)
    (startPage endPage : Z) :
  let pageCount := getPageCount filePath in
  let first := Z.max 1 startPage in
  let last := Z.min pageCount endPage in
  let ranged :=
    extractTextFromPages strict getPageCount extractTextFromPDF
      filePath startPage endPage in
  let whole :=
    extractText strict fileGood getPageCount extractTextFromPDF filePath in
  ((0 < pageCount)%Z -> (first <= last)%Z ->
   empty (extractTextFromPDF filePath first last) = false ->
   ranged = Throw (thrown strict)) /\
  (fileGood filePath = true -> (0 < pageCount)%Z ->
   empty (extractTextFromPDF filePath 1 pageCount) = false ->
   whole = Throw (thrown strict)) /\
  (forall r, ranged = Return r \/ whole = Return r ->
     success r = false /\ fullText r = "" /\ chunks r = [] /\
     isChunked r = None).
Proof.
  intros pageCount first last ranged whole.
  split; [apply extractTextFromPages_text|]. split.
  - intros Hg Hp He. unfold whole, extractText. rewrite Hg. cbn [negb].
    fold pageCount.
    replace (pageCount <=? 0)%Z with false
      by (symmetry; apply Z.leb_gt; lia).
    apply extractTextFromPages_text; fold pageCount.
    + exact Hp.
    + lia.
    + replace (Z.max 1 1) with 1%Z by reflexivity.
      replace (Z.min pageCount pageCount) with pageCount by lia.
      exact He.
  - intros r [H | H].
    + exact (extractTextFromPages_no_success _ _ _ _ H).
    + unfold whole, extractText in H.
      destruct (negb (fileGood filePath));
        [injection H as <-; now repeat split|].
      destruct (getPageCount filePath <=? 0)%Z;
        [injection H as <-; now repeat split|].
      exact (extractTextFromPages_no_success _ _ _ _ H).
Qed.

End Backend.

End ExtractorFurther.

(** ** The platform back ends *)

Section BackendProperties.

Import PDFTextExtractor PDFTextExtractor_Windows PDFTextExtractor_macOS.

(** X20: in the Windows build no extraction gets past the page count: the
    back end reports 0 pages, so [extractTextFromPages] fails with "Could
    not determine page count" for every file and range, and [extractText]
    fails with the message for an unreadable file or for an invalid PDF. *)
Theorem extraction_Windows (strict : bool) (fileGood : string -> bool)
    (filePath : string) (startPage endPage : Z) :
  extractTextFromPages strict getPageCountWindows extractTextFromPDFWindows
    filePath startPage endPage
  = Return (failure "Could not determine page count" None) /\
  extractText strict fileGood getPageCountWindows extractTextFromPDFWindows
    filePath
  = Return (failure
              (if fileGood filePath
               then "Could not determine page count or PDF is invalid"
               else "File does not exist or cannot be opened") None).
Proof.
  split; [reflexivity|].
  unfold extractText. now destruct (fileGood filePath).
Qed.

Lemma to_int_int (z : Z) :
  (- 2 ^ 31 <= z < 2 ^ 31)%Z -> to_int z = z.
Proof.
  intros H. unfold to_int.
  change (2 ^ 31)%Z with 2147483648%Z in *.
  change (2 ^ 32)%Z with 4294967296%Z.
  rewrite Z.mod_small; lia.
Qed.

Lemma indices_nil (s e : Z) : (e <= s)%Z -> indices s e = [].
Proof.
  intros H. unfold indices.
  replace (Z.to_nat (e - s)) with 0%nat by lia. reflexivity.
Qed.

Lemma indices_cons (s e : Z) :
  (s < e)%Z -> indices s e = s :: indices (s + 1) e.
Proof.
  intros H. unfold indices.
  replace (Z.to_nat (e - s)) with (S (Z.to_nat (e - (s + 1)))) by lia.
  cbn [seq map]. f_equal; [lia|].
  rewrite <- seq_shift, map_map. apply map_ext. intros k. lia.
Qed.

Lemma indices_bounds (s e : Z) :
  Forall (fun i => (s <= i < e)%Z) (indices s e).
Proof.
  unfold indices. apply Forall_forall. intros i Hi.
  apply in_map_iff in Hi as (k & <- & Hk). apply in_seq in Hk. lia.
Qed.

Lemma skipn_nth_error {A : Type} (l : list A) (k : nat) (x : A) :
  nth_error l k = Some x -> skipn k l = x :: skipn (S k) l.
Proof.
  revert l. induction k as [|k IH]; intros [|a l] H; try discriminate.
  - injection H as ->. reflexivity.
  - cbn [nth_error] in H. cbn [skipn]. now apply IH.
Qed.

Lemma fold_append_page (pdfDoc : PDFDocument) (e : Z) (n : nat) :
  (e <= Z.of_nat (length pdfDoc))%Z ->
  forall s acc,
    (0 <= s)%Z -> Z.to_nat (e - s) = n ->
    fold_left (append_page pdfDoc) (indices s e) acc
    = acc ++ page_blocks (s + 1) (firstn n (skipn (Z.to_nat s) pdfDoc)).
Proof.
  intros He. induction n as [|n IH]; intros s acc Hs Hn.
  - rewrite indices_nil by lia. cbn [fold_left firstn page_blocks].
    now rewrite append_empty_r.
  - rewrite indices_cons by lia. cbn [fold_left].
    rewrite IH by lia.
    destruct (nth_error pdfDoc (Z.to_nat s)) as [page|] eqn:Hp.
    2: { apply nth_error_None in Hp. lia. }
    rewrite (skipn_nth_error _ _ _ Hp).
    replace (Z.to_nat (s + 1)) with (S (Z.to_nat s)) by lia.
    cbn [firstn page_blocks]. unfold append_page, pageAtIndex.
    replace (s <? 0)%Z with false by (symmetry; apply Z.ltb_ge; lia).
    rewrite Hp.
    destruct page as [[pageText|]|]; [|reflexivity ..].
    now rewrite (append_assoc acc).
Qed.

Lemma c_str_page_blocks_empty (number : Z) (pages : list (option PDFPage)) :
  empty (c_str (page_blocks number pages)) = negb (existsb has_text pages).
Proof.
  revert number. induction pages as [|page pages IH]; intros number.
  - reflexivity.
  - cbn [page_blocks existsb].
    destruct page as [[pageText|]|]; cbn [has_text orb append]; try apply IH.
    reflexivity.
Qed.

Section PDFKit.

Variable initWithURL : string -> option PDFDocument.

Lemma extractTextFromPDFMacOS_blocks (filePath : string) (pdfDoc : PDFDocument)
    (startPage endPage : Z) :
  initWithURL filePath = Some pdfDoc ->
  (Z.of_nat (length pdfDoc) < 2 ^ 31)%Z ->
  (- 2 ^ 31 < startPage < 2 ^ 31)%Z ->
  let first := Z.max 1 startPage in
  let last := Z.min (Z.of_nat (length pdfDoc)) endPage in
  extractTextFromPDFMacOS initWithURL filePath startPage endPage
  = c_str (page_blocks first (pages_between first last pdfDoc)).
Proof.
  intros Hd Hlen Hint first last.
  unfold extractTextFromPDFMacOS, pageCount. rewrite Hd.
  rewrite (to_int_small (Z.of_nat (length pdfDoc))) by lia.
  rewrite (to_int_int (startPage - 1)) by lia.
  cbv zeta. fold last.
  rewrite fold_append_page with (n := Z.to_nat (last - first + 1));
    try (subst first last; lia).
  cbn [append]. unfold pages_between.
  replace (Z.max 0 (startPage - 1) + 1)%Z with first by (subst first; lia).
  replace (Z.max 0 (startPage - 1)) with (first - 1)%Z by (subst first; lia).
  reflexivity.
Qed.

(** At [startPage = INT_MIN] the subtraction wraps to [INT_MAX] (the
    standard leaves the overflow undefined): the loop is not entered and
    the result is empty. *)
Lemma extractTextFromPDFMacOS_INT_MIN (filePath : string)
    (pdfDoc : PDFDocument) (endPage : Z) :
  initWithURL filePath = Some pdfDoc ->
  (Z.of_nat (length pdfDoc) < 2 ^ 31)%Z ->
  extractTextFromPDFMacOS initWithURL filePath (- 2 ^ 31) endPage = "".
Proof.
  intros Hd Hlen. unfold extractTextFromPDFMacOS, pageCount. rewrite Hd.
  rewrite (to_int_small (Z.of_nat (length pdfDoc))) by lia. cbv zeta.
  change (to_int (- 2 ^ 31 - 1)) with 2147483647%Z.
  change (2 ^ 31)%Z with 2147483648%Z in Hlen.
  rewrite indices_nil by lia. reflexivity.
Qed.

(** X21: the macOS back end.  For a document that opens and a [startPage]
    above [INT_MIN], so that [startPage - 1] does not overflow, the loop
    reads pages inside the document only, whatever the arguments; it
    returns, up to the first NUL byte, the texts of the pages
    [max 1 startPage .. min pageCount endPage], each under a header with
    its page number and followed by an empty line, in order; a page without
    text is left out and does not shift the numbers.  The result is empty
    exactly when no page of the range has a text, so a page with an empty
    text counts. *)
Theorem extractTextFromPDFMacOS_pages (filePath : string)
    (pdfDoc : PDFDocument) (startPage endPage : Z) :
  initWithURL filePath = Some pdfDoc ->
  (Z.of_nat (length pdfDoc) < 2 ^ 31)%Z ->
  (- 2 ^ 31 < startPage < 2 ^ 31)%Z ->
  let first := Z.max 1 startPage in
  let last := Z.min (Z.of_nat (length pdfDoc)) endPage in
  let extracted :=
    extractTextFromPDFMacOS initWithURL filePath startPage endPage in
  Forall (fun i => (0 <= i < Z.of_nat (length pdfDoc))%Z)
         (indices (Z.max 0 (to_int (startPage - 1)))
                  (Z.min (pageCount pdfDoc) endPage)) /\
  extracted = c_str (page_blocks first (pages_between first last pdfDoc)) /\
  extracted = extractTextFromPDFMacOS initWithURL filePath first last /\
  empty extracted = negb (existsb has_text (pages_between first last pdfDoc)).
Proof.
  intros Hd Hlen Hint first last extracted.
  assert (Hb : extracted
               = c_str (page_blocks first (pages_between first last pdfDoc)))
    by now apply extractTextFromPDFMacOS_blocks.
  split.
  { unfold pageCount.
    rewrite (to_int_small (Z.of_nat (length pdfDoc))) by lia.
    eapply Forall_impl; [|apply indices_bounds]. cbv beta. lia. }
  split; [exact Hb|]. split.
  - rewrite Hb.
    rewrite (extractTextFromPDFMacOS_blocks filePath pdfDoc first last
               Hd Hlen) by (subst first; lia).
    cbv zeta.
    replace (Z.max 1 first) with first by (subst first; lia).
    replace (Z.min (Z.of_nat (length pdfDoc)) last) with last
      by (subst last; lia).
    reflexivity.
  - rewrite Hb. apply c_str_page_blocks_empty.
Qed.

(** X22: extraction on macOS.  A file that does not open as a PDF document,
    or one without pages, gives "Could not determine page count"; a range
    that is empty after clamping gives "Invalid page range"; a range in
    which no page has a text gives "No text could be extracted from the
    specified pages", with the clamped range recorded; and every other
    extraction ends with the exception of [cleanTextForTTS]. *)
Theorem extraction_macOS (strict : bool) (filePath : string)
    (startPage endPage : Z) :
  let ranged :=
    extractTextFromPages strict (getPageCountMacOS initWithURL)
      (extractTextFromPDFMacOS initWithURL) filePath startPage endPage in
  (initWithURL filePath = None ->
   ranged = Return (failure "Could not determine page count" None)) /\
  (forall pdfDoc,
     initWithURL filePath = Some pdfDoc ->
     (Z.of_nat (length pdfDoc) < 2 ^ 31)%Z ->
     let total := Z.of_nat (length pdfDoc) in
     let first := Z.max 1 startPage in
     let last := Z.min total endPage in
     ranged
     = if (total =? 0)%Z
       then Return (failure "Could not determine page count" None)
       else if (first >? last)%Z
       then Return (failure "Invalid page range" None)
       else if existsb has_text (pages_between first last pdfDoc)
       then Throw (thrown strict)
       else Return (failure
                      "No text could be extracted from the specified pages"
                      (Some {| PDFTextExtractor.startPage := first;
                               PDFTextExtractor.endPage := last;
                               totalPages := total |}))).
Proof.
  intros ranged. split.
  - intros Hd. subst ranged.
    unfold extractTextFromPages, getPageCountMacOS. now rewrite Hd.
  - intros pdfDoc Hd Hlen total first last. subst ranged.
    unfold extractTextFromPages, getPageCountMacOS. rewrite Hd.
    unfold pageCount. rewrite to_int_small by lia. fold total.
    destruct (total =? 0)%Z eqn:E0.
    { apply Z.eqb_eq in E0. rewrite E0. reflexivity. }
    apply Z.eqb_neq in E0.
    replace (total <=? 0)%Z with false
      by (symmetry; apply Z.leb_gt; subst total; lia).
    fold first. fold last.
    destruct (first >? last)%Z eqn:Er; [reflexivity|].
    rewrite Z.gtb_ltb in Er. apply Z.ltb_ge in Er.
    rewrite (extractTextFromPDFMacOS_blocks filePath pdfDoc first last
               Hd Hlen) by (subst first last total; lia).
    cbv zeta. fold total.
    replace (Z.max 1 first) with first by (subst first; lia).
    replace (Z.min total last) with last by (subst last; lia).
    rewrite c_str_page_blocks_empty.
    destruct (existsb has_text (pages_between first last pdfDoc));
      cbn [negb]; [|reflexivity].
    rewrite cleanTextForTTS_thrown. reflexivity.
Qed.

End PDFKit.

End BackendProperties.

(** ** Witnesses of the further properties *)

(** Witness of X5: start index -1 on two chunks. *)
Lemma speakChunked_argument_test_witness :
  (Z.of_nat (length ["a"; "b"]) < 2 ^ 63)%Z /\
  (- 2 ^ 31 <= -1 < 2 ^ 31)%Z /\
  TextToSpeech.speakChunked false accepting_speak ["a"; "b"] (-1)
    (TextToSpeech.new_Impl tt)
  = (Return false, TextToSpeech.new_Impl tt).
Proof.
  assert (H1 : (Z.of_nat (length ["a"; "b"]) < 2 ^ 63)%Z) by reflexivity.
  assert (H2 : (- 2 ^ 31 <= -1 < 2 ^ 31)%Z) by (split; vm_compute; congruence).
  split; [exact H1 | split; [exact H2|]].
  apply (proj1 (speakChunked_argument_test false accepting_speak ["a"; "b"]
                  (-1) (TextToSpeech.new_Impl tt) H1 H2)).
  left. reflexivity.
Defined.

(** Witness of X7: an engine that accepts "a" is paused and resumed. *)
Lemma pause_then_resume_witness :
  let s := TextToSpeech.after (TextToSpeech.speak false accepting_speak "a")
             (TextToSpeech.new_Impl tt) in
  TextToSpeech.state s = TextToSpeech.Speaking /\
  TextToSpeech.state
    (TextToSpeech.after (TextToSpeech.resume idle)
       (TextToSpeech.after (TextToSpeech.pause idle) s))
  = TextToSpeech.Speaking.
Proof.
  intros s.
  assert (H : TextToSpeech.state s = TextToSpeech.Speaking)
    by (vm_compute; reflexivity).
  split; [exact H|].
  exact (proj1 (proj2 (pause_then_resume idle idle s H))).
Defined.

(** Witness of X9: two chunks are played to the end on a fresh object. *)
Lemma session_invariant_witness :
  let ops := [TextToSpeech.OpSpeakChunked ["a"; "b"] 0;
              TextToSpeech.EvSpeechFinished; TextToSpeech.EvSpeechFinished] in
  Forall Session.op_ok ops /\
  Session.session_ok
    (TextToSpeech.run_all false accepting_speak unknown_voice idle idle idle
       idle_settings ops (TextToSpeech.new_Impl tt)).
Proof.
  intros ops.
  assert (H : Forall Session.op_ok ops).
  { repeat constructor; vm_compute; congruence. }
  split; [exact H|].
  exact (session_invariant false accepting_speak unknown_voice idle idle idle
           idle_settings tt ops H).
Defined.

(** Witness of X10: the chunks "one", "two" from chunk 1 on an engine that
    accepts every utterance. *)
Lemma chunked_playback_witness :
  let cs := ["one"; "two"] in
  let s := TextToSpeech.new_Impl tt in
  Forall2 (Playback.accepts false accepting_speak) cs cs /\
  (1 < length cs)%nat /\
  (Z.of_nat (length cs) < 2 ^ 31)%Z /\
  TextToSpeech.state
    (Session.after_finished false accepting_speak (length cs - 1)
       (TextToSpeech.after
          (TextToSpeech.speakChunked false accepting_speak cs (Z.of_nat 1))
          s))
  = TextToSpeech.Stopped.
Proof.
  intros cs s.
  assert (H1 : Forall2 (Playback.accepts false accepting_speak) cs cs).
  { repeat constructor; apply accepting_speak_accepts; vm_compute;
      reflexivity. }
  assert (H2 : (1 < length cs)%nat) by (vm_compute; lia).
  assert (H3 : (Z.of_nat (length cs) < 2 ^ 31)%Z) by reflexivity.
  split; [exact H1 | split; [exact H2 | split; [exact H3|]]].
  exact (proj1 (proj2 (chunked_playback false accepting_speak cs cs 1 s
                         H1 H2 H3))).
Defined.

(** Witness of X11: the chunks "a" and " "; the second one cleans to the
    empty text. *)
Lemma unspoken_chunk_stalls_witness :
  let s := TextToSpeech.after
             (TextToSpeech.speakChunked false accepting_speak ["a"; " "] 0)
             (TextToSpeech.new_Impl tt) in
  let s' := TextToSpeech.after
              (TextToSpeech.onSpeechFinished false accepting_speak) s in
  TextToSpeech.isChunked s = true /\
  empty (cleaned (nth 1 (TextToSpeech.chunks s) "")) = true /\
  TextToSpeech.state s' = TextToSpeech.Speaking /\
  TextToSpeech.trace s' = TextToSpeech.trace s.
Proof.
  intros s s'.
  assert (Hc : TextToSpeech.isChunked s = true) by (vm_compute; reflexivity).
  assert (H0 : (0 <= TextToSpeech.currentChunk s)%Z)
    by (vm_compute; congruence).
  assert (H1 : (TextToSpeech.currentChunk s + 1
                < Z.of_nat (length (TextToSpeech.chunks s)))%Z)
    by (vm_compute; reflexivity).
  assert (H2 : (Z.of_nat (length (TextToSpeech.chunks s)) < 2 ^ 31)%Z)
    by (vm_compute; reflexivity).
  assert (Ht : empty (cleaned (nth 1 (TextToSpeech.chunks s) "")) = true)
    by (vm_compute; reflexivity).
  split; [exact Hc | split; [exact Ht|]].
  destruct (unspoken_chunk_stalls false accepting_speak s Hc H0 H1 H2
              (or_introl Ht)) as (_ & Hst & _ & _ & _ & Htr).
  split; [|exact Htr].
  unfold s'. rewrite Hst. vm_compute. reflexivity.
Defined.

(** Witness of X12: "a" is spoken with the started callback set, then the
    engine reports the start. *)
Lemma started_event_repeats_witness :
  let s := TextToSpeech.set_callbacks true false false false false
             (TextToSpeech.new_Impl tt) in
  Playback.accepts false accepting_speak "a" "a" /\
  TextToSpeech.trace
    (TextToSpeech.after TextToSpeech.onSpeechStarted
       (TextToSpeech.after (TextToSpeech.speak false accepting_speak "a") s))
  = [TextToSpeech.NativeSpeak "a"; TextToSpeech.CallbackStarted;
     TextToSpeech.CallbackStarted].
Proof.
  intros s.
  assert (H : Playback.accepts false accepting_speak "a" "a")
    by (apply accepting_speak_accepts; vm_compute; reflexivity).
  split; [exact H|].
  exact (proj2 (proj2 (proj2 (proj2 (proj2
           (started_event_repeats false accepting_speak idle "a" "a" s
              H)))))).
Defined.

(** Witness of X6: from [Speaking], which [speak] of "a" gives. *)
Lemma pause_resume_idle_witness :
  let s := TextToSpeech.after (TextToSpeech.speak false accepting_speak "a")
             (TextToSpeech.new_Impl tt) in
  TextToSpeech.state s <> TextToSpeech.Paused /\
  TextToSpeech.resume idle s = (Return tt, s).
Proof.
  intros s.
  assert (H : TextToSpeech.state s <> TextToSpeech.Paused)
    by (vm_compute; discriminate).
  split; [exact H|].
  exact (proj1 (proj2 (pause_resume_idle idle idle s)) H).
Defined.

(** Witness of X8: [stop] after [speakChunked] with a blank first chunk
    leaves the two chunks stored. *)
Lemma stop_outcome_witness :
  let s := TextToSpeech.after
             (TextToSpeech.speakChunked false accepting_speak [" "; "a"] 0)
             (TextToSpeech.new_Impl tt) in
  TextToSpeech.state s = TextToSpeech.Stopped /\
  TextToSpeech.chunks s = [" "; "a"] /\
  TextToSpeech.after (TextToSpeech.stop idle) s = s.
Proof.
  intros s.
  assert (H : TextToSpeech.state s = TextToSpeech.Stopped)
    by (vm_compute; reflexivity).
  split; [exact H|]. split; [vm_compute; reflexivity|].
  exact (proj1 (proj2 (proj2 (stop_outcome idle s))) H).
Defined.

(** Witness of X14: [speak], [stop] and a finished event after a progress
    event. *)
Lemma progress_only_by_event_witness :
  let ops := [TextToSpeech.OpSpeak "a"; TextToSpeech.OpStop;
              TextToSpeech.EvSpeechFinished] in
  let s := TextToSpeech.after
             (TextToSpeech.onProgress TextToSpeech.float_0_5 2 3)
             (TextToSpeech.new_Impl tt) in
  Forall (fun op => Session.is_progress op = false) ops /\
  Session.progress_members
    (TextToSpeech.run_all false accepting_speak unknown_voice idle idle idle
       idle_settings ops s)
  = Session.progress_members s.
Proof.
  intros ops s.
  assert (H : Forall (fun op => Session.is_progress op = false) ops)
    by (repeat constructor).
  split; [exact H|].
  exact (proj1 (progress_only_by_event false accepting_speak unknown_voice
                  idle idle idle idle_settings ops s H)).
Defined.

(** Witness of X17: "a b" with chunk size 0. *)
Lemma chunkText_small_size_witness :
  (0 <= 1)%Z /\
  PDFTextExtractor.chunkText "a b" 0
  = [one_word_chunk "a"; one_word_chunk "b"].
Proof.
  assert (H : (0 <= 1)%Z) by lia.
  split; [exact H|].
  exact (chunkText_small_size "a b" 0 H).
Defined.

(** Witness of X18: a text of two words. *)
Lemma decideChunking_result_witness :
  let range := {| PDFTextExtractor.startPage := 1;
                  PDFTextExtractor.endPage := 1;
                  PDFTextExtractor.totalPages := 1 |} in
  (Z.of_nat (length (PDFTextExtractor.splitIntoWords "a b")) < 2 ^ 31)%Z /\
  PDFTextExtractor.isChunked
    (PDFTextExtractor.decideChunking (cleaned_result range "a b"))
  = Some false.
Proof.
  intros range.
  assert (H : (Z.of_nat (length (PDFTextExtractor.splitIntoWords "a b"))
               < 2 ^ 31)%Z) by reflexivity.
  split; [exact H|].
  exact (proj1 (proj2 (proj2 (proj2 (proj2
           (decideChunking_result range "a b" H)))))).
Defined.

(** Witness of X15: the words of "a  b" and of "a b". *)
Lemma splitIntoWords_words_witness :
  Forall is_word ["a"; "b"] /\
  PDFTextExtractor.splitIntoWords (PDFTextExtractor.joinWords ["a"; "b"])
  = ["a"; "b"].
Proof.
  assert (H : Forall is_word ["a"; "b"])
    by (repeat constructor).
  split; [exact H|].
  exact (proj1 (proj2 (proj2 (proj2 (splitIntoWords_words "")))) _ H).
Defined.

(** Witness of X16: three words in chunks of two. *)
Lemma chunkText_counts_witness :
  (0 < 2)%Z /\
  Z.of_nat (length (PDFTextExtractor.chunkText "a b c" 2))
  = chunk_count (Z.of_nat (length (PDFTextExtractor.splitIntoWords "a b c")))
                2.
Proof.
  assert (H : (0 < 2)%Z) by lia.
  split; [exact H|].
  exact (proj1 (proj2 (chunkText_counts "a b c" 2) H)).
Defined.

(** Witness of X19: a readable document of ten pages with text. *)
Lemma extraction_never_succeeds_witness :
  readable "doc.pdf" = true /\ (0 < ten_pages "doc.pdf")%Z /\
  empty (some_text "doc.pdf" 1 (ten_pages "doc.pdf")) = false /\
  PDFTextExtractor.extractText false readable ten_pages some_text "doc.pdf"
  = Throw error_badbrace.
Proof.
  assert (H1 : readable "doc.pdf" = true) by reflexivity.
  assert (H2 : (0 < ten_pages "doc.pdf")%Z) by reflexivity.
  assert (H3 : empty (some_text "doc.pdf" 1 (ten_pages "doc.pdf")) = false)
    by reflexivity.
  split; [exact H1 | split; [exact H2 | split; [exact H3|]]].
  exact (proj1 (proj2 (extraction_never_succeeds false readable ten_pages
                         some_text "doc.pdf" 1 10)) H1 H2 H3).
Defined.

(** Witness of X21: pages 2 to 5 of a document of three pages. *)
Lemma extractTextFromPDFMacOS_pages_witness :
  three_pages "doc.pdf"
  = Some [Some (Some "one"); Some None; Some (Some "three")] /\
  (Z.of_nat (length [Some (Some "one"); Some None; Some (Some "three")])
   < 2 ^ 31)%Z /\
  (- 2 ^ 31 < 2 < 2 ^ 31)%Z /\
  PDFTextExtractor_macOS.extractTextFromPDFMacOS three_pages "doc.pdf" 2 5
  = PDFTextExtractor_macOS.extractTextFromPDFMacOS three_pages "doc.pdf" 2 3.
Proof.
  assert (H1 : three_pages "doc.pdf"
               = Some [Some (Some "one"); Some None; Some (Some "three")])
    by reflexivity.
  assert (H2 : (Z.of_nat (length [Some (Some "one"); @Some (option string) None;
                                  Some (Some "three")]) < 2 ^ 31)%Z)
    by reflexivity.
  assert (H3 : (- 2 ^ 31 < 2 < 2 ^ 31)%Z) by (split; reflexivity).
  split; [exact H1 | split; [exact H2 | split; [exact H3|]]].
  exact (proj1 (proj2 (proj2
           (extractTextFromPDFMacOS_pages three_pages "doc.pdf" _ 2 5
              H1 H2 H3)))).
Defined.

(** Witness of X22: page 2 of the document of three pages has no text. *)
Lemma extraction_macOS_witness :
  three_pages "doc.pdf"
  = Some [Some (Some "one"); Some None; Some (Some "three")] /\
  PDFTextExtractor.extractTextFromPages false
    (PDFTextExtractor_macOS.getPageCountMacOS three_pages)
    (PDFTextExtractor_macOS.extractTextFromPDFMacOS three_pages)
    "doc.pdf" 2 2
  = Return (failure "No text could be extracted from the specified pages"
              (Some {| PDFTextExtractor.startPage := 2;
                       PDFTextExtractor.endPage := 2;
                       PDFTextExtractor.totalPages := 3 |})).
Proof.
  assert (H1 : three_pages "doc.pdf"
               = Some [Some (Some "one"); Some None; Some (Some "three")])
    by reflexivity.
  split; [exact H1|].
  exact (proj2 (extraction_macOS three_pages false "doc.pdf" 2 2) _ H1
           eq_refl).
Defined.
